(** * Monopoly game engine: a shallow embedding of the C++ sources

    The development follows the layout of the repository:
    - [player.h] / [player.cc]      : the [Player] record;
    - [spaces.h] / [spaces.cc]      : the board spaces and their landing actions;
    - [cards.h]  / [cards.cc]       : the cards, with the effects built in [main.cc];
    - [managers.h] / [managers.cc]  : [PlayerManager] and [BoardManager];
    - [gamecore.cc]                 : [GameCore::playTurn].

    Conventions.
    - A C++ [int] is a [Z].  Signed arithmetic is the mathematical one: signed
      overflow is undefined in C++, so a statement about a sum or a product
      of [int]s says that it stays an [int] ([is_int]) where that is not
      plain.  The conversions between [int] and the unsigned 64-bit
      [size_t], which matter in [BoardManager::movePlayer], are written out
      ([to_size_t], [to_int]).
    - A [std::shared_ptr<Player>] is an address [ptr] into the [heap] of player
      objects; [None] is [nullptr].  A player removed from the active list
      stays in the heap, as the object stays alive through the pointers that
      still name it.
    - A space is named by its index in the board vector.
    - Prompts, dice and shuffles are answered by an oracle indexed by a
      counter ([tick]) that every query advances.
    - Functions whose recursion is not structural take a [fuel]; [None] is
      "no defined result within the fuel" (undefined behaviour included). *)

From Stdlib Require Import ZArith String Lia Bool.
From stdpp Require Import base option list.

Local Open Scope string_scope.
Local Open Scope list_scope.
Local Open Scope Z_scope.

(** ** Machine integers *)

Definition INT_MAX : Z := 2147483647.
Definition INT_MIN : Z := -2147483648.

(** The values of an [int]: a signed sum, difference or product that lies
    in this range is the one that the machine computes. *)
Definition is_int (z : Z) : Prop := INT_MIN <= z <= INT_MAX.

(** Conversion of an integer value to [size_t] (64 bits, unsigned). *)
Definition to_size_t (z : Z) : Z := z mod 2 ^ 64.

(** Conversion of an integer value to [int] (32 bits, two's complement). *)
Definition to_int (z : Z) : Z := (z + 2 ^ 31) mod 2 ^ 32 - 2 ^ 31.

(** ** player.h *)

(** The address of a player object. *)
Abbreviation ptr := nat (only parsing).

Record Player := mkPlayer {
  name : string;
  money : Z;
  position : Z;
  nbStationsOwned : Z;
  nbUtilitiesOwned : Z;
  remainingTurnsInJail : Z;
  hasChanceGOJFC : bool;
  hasCommunityChestGOJFC : bool
}.

(** [Player::Player(std::string _name)] with the default member initialisers. *)
Definition newPlayer (_name : string) : Player :=
  {| name := _name;
     money := 1500;
     position := 0;
     nbStationsOwned := 0;
     nbUtilitiesOwned := 0;
     remainingTurnsInJail := 0;
     hasChanceGOJFC := false;
     hasCommunityChestGOJFC := false |}.

Definition setPosition_ (v : Z) (p : Player) : Player :=
  mkPlayer (name p) (money p) v (nbStationsOwned p) (nbUtilitiesOwned p)
           (remainingTurnsInJail p) (hasChanceGOJFC p) (hasCommunityChestGOJFC p).

Definition setMoney_ (v : Z) (p : Player) : Player :=
  mkPlayer (name p) v (position p) (nbStationsOwned p) (nbUtilitiesOwned p)
           (remainingTurnsInJail p) (hasChanceGOJFC p) (hasCommunityChestGOJFC p).

Definition setRemainingTurnsInJail_ (v : Z) (p : Player) : Player :=
  mkPlayer (name p) (money p) (position p) (nbStationsOwned p) (nbUtilitiesOwned p)
           v (hasChanceGOJFC p) (hasCommunityChestGOJFC p).

Definition setNbStationsOwned_ (v : Z) (p : Player) : Player :=
  mkPlayer (name p) (money p) (position p) v (nbUtilitiesOwned p)
           (remainingTurnsInJail p) (hasChanceGOJFC p) (hasCommunityChestGOJFC p).

Definition setNbUtilitiesOwned_ (v : Z) (p : Player) : Player :=
  mkPlayer (name p) (money p) (position p) (nbStationsOwned p) v
           (remainingTurnsInJail p) (hasChanceGOJFC p) (hasCommunityChestGOJFC p).

Definition setHasChanceGOJFC_ (v : bool) (p : Player) : Player :=
  mkPlayer (name p) (money p) (position p) (nbStationsOwned p) (nbUtilitiesOwned p)
           (remainingTurnsInJail p) v (hasCommunityChestGOJFC p).

Definition setHasCommunityChestGOJFC_ (v : bool) (p : Player) : Player :=
  mkPlayer (name p) (money p) (position p) (nbStationsOwned p) (nbUtilitiesOwned p)
           (remainingTurnsInJail p) (hasChanceGOJFC p) v.

(** ** spaces.h *)

Inductive Color :=
  PURPLE | LIGHT_BLUE | PINK | ORANGE | RED | YELLOW | GREEN | BLUE.

Definition Color_eqb (a b : Color) : bool :=
  match a, b with
  | PURPLE, PURPLE | LIGHT_BLUE, LIGHT_BLUE | PINK, PINK | ORANGE, ORANGE
  | RED, RED | YELLOW, YELLOW | GREEN, GREEN | BLUE, BLUE => true
  | _, _ => false
  end.

Definition colorToString (color : Color) : string :=
  match color with
  | PURPLE => "purple"
  | LIGHT_BLUE => "light blue"
  | PINK => "pink"
  | ORANGE => "orange"
  | RED => "red"
  | YELLOW => "yellow"
  | GREEN => "green"
  | BLUE => "blue"
  end.

(** [enum class PropertyRent], by its underlying value: [setNbBuildings] is
    fed [static_cast<PropertyRent>(totalBuildings)] in [buildOnProperties]. *)
Definition FULL_GROUP : Z := 0.
Definition ONE_HOUSE : Z := 1.
Definition TWO_HOUSES : Z := 2.
Definition THREE_HOUSES : Z := 3.
Definition FOUR_HOUSES : Z := 4.
Definition HOTEL : Z := 5.
Definition BASE_RENT : Z := 6.

(** The members of [BuyableSpace] (with the name of [Space]). *)
Record BuyableSpace := mkBuyable {
  bname : string;
  price : Z;
  rent : list Z;
  owner : option ptr
}.

Definition setOwner_ (o : option ptr) (b : BuyableSpace) : BuyableSpace :=
  mkBuyable (bname b) (price b) (rent b) o.

Inductive Space :=
| Property (b : BuyableSpace) (color : Color) (housePrice : Z) (nbBuildings : Z)
| Station (b : BuyableSpace)
| Utility (b : BuyableSpace)
| Tax (tname : string) (amount : Z)
| Jail
| GoToJail
| FreeParking
| Go
| CommunityChest
| Chance.

(** The constructors of [spaces.cc]. *)
Definition Property_new (_name : string) (_color : Color) (_price _housePrice : Z)
    (_rent : list Z) : Space :=
  Property (mkBuyable _name _price _rent None) _color _housePrice BASE_RENT.

Definition Station_new (_name : string) : Space :=
  Station (mkBuyable _name 200 [25; 50; 100; 200] None).

Definition Utility_new (_name : string) : Space :=
  Utility (mkBuyable _name 150 [] None).

(** [std::dynamic_pointer_cast<BuyableSpace>] *)
Definition asBuyable (s : Space) : option BuyableSpace :=
  match s with
  | Property b _ _ _ | Station b | Utility b => Some b
  | _ => None
  end.

Definition withBuyable (f : BuyableSpace -> BuyableSpace) (s : Space) : Space :=
  match s with
  | Property b c h n => Property (f b) c h n
  | Station b => Station (f b)
  | Utility b => Utility (f b)
  | _ => s
  end.

(** [Property::setNbBuildings] through a pointer obtained by
    [std::dynamic_pointer_cast<Property>]: no effect on another kind. *)
Definition setNbBuildings_ (n : Z) (s : Space) : Space :=
  match s with
  | Property b c h _ => Property b c h n
  | _ => s
  end.

(** ** cards.h, with the effects that [main.cc] puts into the decks

    A card carries a [std::function] built by the data layer.  The effects
    below are the closures of [createCommunityChestDeck] and
    [createChanceDeck]; what each one does is given by [Card_action]. *)
Inductive Effect :=
| KeepCommunityChestGOJFC
| KeepChanceGOJFC
| AdvanceTo (index : Z)
| Receive (amount : Z)
| Pay (amount : Z)
| SentToJail
| FineOrChance (fine : Z)
| Birthday (gift : Z)
| Repairs (perHouse perHotel : Z)
| MoveBy (distance : Z).

Record Card := mkCard {
  description : string;
  _actionFunction : option Effect
}.

(** [description.find(needle) != std::string::npos] *)
Definition contains (needle hay : string) : bool :=
  match String.index 0 needle hay with
  | Some _ => true
  | None => false
  end.

Definition isGOJFC (card : Card) : bool :=
  contains "Get Out of Jail Free" (description card).

(** ** The state of the engine

    One record holds what [BoardManager], its [PlayerManager] and [GameCore]
    keep between calls.  The [properties] index of [BoardManager] is computed
    from the board (see [properties]): kinds and colours never change. *)
Record GameState := mkState {
  (* BoardManager *)
  board : list Space;
  chanceDeck : list Card;
  chanceGOJFCTaken : bool;
  communityChestDeck : list Card;
  communityChestGOJFCTaken : bool;
  currentDicesValue : Z * Z;
  (* PlayerManager *)
  heap : list Player;
  players : list ptr;
  currentPlayer : option ptr;
  (* GameCore *)
  consecutiveDoubles : Z;
  (* number of oracle queries made so far *)
  tick : nat
}.

Definition set_board (v : list Space) (st : GameState) : GameState :=
  mkState v (chanceDeck st) (chanceGOJFCTaken st) (communityChestDeck st)
          (communityChestGOJFCTaken st) (currentDicesValue st) (heap st)
          (players st) (currentPlayer st) (consecutiveDoubles st) (tick st).

Definition set_chanceDeck (v : list Card) (st : GameState) : GameState :=
  mkState (board st) v (chanceGOJFCTaken st) (communityChestDeck st)
          (communityChestGOJFCTaken st) (currentDicesValue st) (heap st)
          (players st) (currentPlayer st) (consecutiveDoubles st) (tick st).

Definition setChanceGOJFCTaken (taken : bool) (st : GameState) : GameState :=
  mkState (board st) (chanceDeck st) taken (communityChestDeck st)
          (communityChestGOJFCTaken st) (currentDicesValue st) (heap st)
          (players st) (currentPlayer st) (consecutiveDoubles st) (tick st).

Definition set_communityChestDeck (v : list Card) (st : GameState) : GameState :=
  mkState (board st) (chanceDeck st) (chanceGOJFCTaken st) v
          (communityChestGOJFCTaken st) (currentDicesValue st) (heap st)
          (players st) (currentPlayer st) (consecutiveDoubles st) (tick st).

Definition setCommunityChestGOJFCTaken (taken : bool) (st : GameState) : GameState :=
  mkState (board st) (chanceDeck st) (chanceGOJFCTaken st) (communityChestDeck st)
          taken (currentDicesValue st) (heap st)
          (players st) (currentPlayer st) (consecutiveDoubles st) (tick st).

Definition set_currentDicesValue (v : Z * Z) (st : GameState) : GameState :=
  mkState (board st) (chanceDeck st) (chanceGOJFCTaken st) (communityChestDeck st)
          (communityChestGOJFCTaken st) v (heap st)
          (players st) (currentPlayer st) (consecutiveDoubles st) (tick st).

Definition set_heap (v : list Player) (st : GameState) : GameState :=
  mkState (board st) (chanceDeck st) (chanceGOJFCTaken st) (communityChestDeck st)
          (communityChestGOJFCTaken st) (currentDicesValue st) v
          (players st) (currentPlayer st) (consecutiveDoubles st) (tick st).

Definition set_players (v : list ptr) (st : GameState) : GameState :=
  mkState (board st) (chanceDeck st) (chanceGOJFCTaken st) (communityChestDeck st)
          (communityChestGOJFCTaken st) (currentDicesValue st) (heap st)
          v (currentPlayer st) (consecutiveDoubles st) (tick st).

Definition setCurrentPlayer (player : option ptr) (st : GameState) : GameState :=
  mkState (board st) (chanceDeck st) (chanceGOJFCTaken st) (communityChestDeck st)
          (communityChestGOJFCTaken st) (currentDicesValue st) (heap st)
          (players st) player (consecutiveDoubles st) (tick st).

Definition set_consecutiveDoubles (v : Z) (st : GameState) : GameState :=
  mkState (board st) (chanceDeck st) (chanceGOJFCTaken st) (communityChestDeck st)
          (communityChestGOJFCTaken st) (currentDicesValue st) (heap st)
          (players st) (currentPlayer st) v (tick st).

Definition set_tick (v : nat) (st : GameState) : GameState :=
  mkState (board st) (chanceDeck st) (chanceGOJFCTaken st) (communityChestDeck st)
          (communityChestGOJFCTaken st) (currentDicesValue st) (heap st)
          (players st) (currentPlayer st) (consecutiveDoubles st) v.

Definition next_tick (st : GameState) : GameState := set_tick (S (tick st)) st.

(** *** Access to a player through its pointer

    A pointer of a reachable state always names an allocated player; the
    default of [deref] stands for the read through a pointer that does not. *)
Definition deref (st : GameState) (p : ptr) : Player :=
  default (newPlayer "") (heap st !! p).

Definition getMoney st p := money (deref st p).
Definition getPosition st p := position (deref st p).
Definition getRemainingTurnsInJail st p := remainingTurnsInJail (deref st p).
Definition getNbStationsOwned st p := nbStationsOwned (deref st p).
Definition getNbUtilitiesOwned st p := nbUtilitiesOwned (deref st p).
Definition getHasChanceGOJFC st p := hasChanceGOJFC (deref st p).
Definition getHasCommunityChestGOJFC st p := hasCommunityChestGOJFC (deref st p).

Definition updPlayer (p : ptr) (f : Player -> Player) (st : GameState) : GameState :=
  set_heap (alter f p (heap st)) st.

Definition setMoney p v := updPlayer p (setMoney_ v).
Definition setPosition p v := updPlayer p (setPosition_ v).
Definition setRemainingTurnsInJail p v := updPlayer p (setRemainingTurnsInJail_ v).
Definition setNbStationsOwned p v := updPlayer p (setNbStationsOwned_ v).
Definition setNbUtilitiesOwned p v := updPlayer p (setNbUtilitiesOwned_ v).
Definition setHasChanceGOJFC p v := updPlayer p (setHasChanceGOJFC_ v).
Definition setHasCommunityChestGOJFC p v := updPlayer p (setHasCommunityChestGOJFC_ v).

(** *** Access to a space through its board index *)
Definition updSpace (i : nat) (f : Space -> Space) (st : GameState) : GameState :=
  set_board (alter f i (board st)) st.

Definition board_size (st : GameState) : Z := Z.of_nat (length (board st)).

(** ** managers.cc: PlayerManager *)

(** [std::make_shared<Player>(name)]: the object is allocated at the end of
    the heap, and nothing names it yet. *)
Definition make_shared (player : Player) (st : GameState) : ptr * GameState :=
  (length (heap st), set_heap (heap st ++ [player]) st).

(** [PlayerManager::addPlayer] takes any pointer, also one that is in the
    list already. *)
Definition addPlayer (player : ptr) (st : GameState) : GameState :=
  let st := set_players (players st ++ [player]) st in
  match currentPlayer st with
  | None => setCurrentPlayer (Some player) st
  | Some _ => st
  end.

(** [addPlayer(std::make_shared<Player>(name))], the call of
    [GameCore::startGame]. *)
Definition addNewPlayer (player : Player) (st : GameState) : GameState :=
  let '(p, st) := make_shared player st in
  addPlayer p st.

(** Erase the first occurrence. *)
Fixpoint erase_first (p : ptr) (l : list ptr) : list ptr :=
  match l with
  | [] => []
  | x :: t => if Nat.eqb x p then t else x :: erase_first p t
  end.

Definition removePlayer (player : ptr) (st : GameState) : GameState :=
  set_players (erase_first player (players st)) st.

Definition getPlayer (st : GameState) (index : nat) : option ptr := players st !! index.

Definition getNbPlayers (st : GameState) : nat := length (players st).

Definition getCurrentPlayer (st : GameState) : option ptr := currentPlayer st.

(** [std::distance(begin, std::find(begin, end, p))]: the length when absent. *)
Fixpoint find_index (p : option ptr) (l : list ptr) : nat :=
  match l with
  | [] => 0%nat
  | x :: t =>
      match p with
      | Some q => if Nat.eqb x q then 0%nat else S (find_index p t)
      | None => S (find_index p t)
      end
  end.

(** The remainder by [players.size()] is undefined for an empty list. *)
Definition setNextPlayer (st : GameState) : option GameState :=
  match players st with
  | [] => None
  | _ =>
      let currentPlayerIndex := find_index (currentPlayer st) (players st) in
      let currentPlayerIndex := ((currentPlayerIndex + 1) mod length (players st))%nat in
      Some (setCurrentPlayer (players st !! currentPlayerIndex) st)
  end.

(** The difference and the sum are those of [int]s: see [is_int]. *)
Definition transferMoneyFromTo (player1 player2 : option ptr) (amount : Z)
    (st : GameState) : GameState :=
  let st :=
    match player1 with
    | Some p1 =>
        let st := setMoney p1 (getMoney st p1 - amount) st in
        if getMoney st p1 <? 0 then setMoney p1 0 st else st
    | None => st
    end in
  match player2 with
  | Some p2 => setMoney p2 (getMoney st p2 + amount) st
  | None => st
  end.

(** ** The input/output collaborator, the dice and the shuffles

    [getYesNo k] is the answer to the [k]-th query when it is a yes/no prompt
    ([true] for 'y'), [getNumber k min max] when it is a number prompt,
    [getString k validStrings] when it is a string prompt; [roll k] is the
    face shown by a die and [shuffle k deck] the order [std::shuffle] leaves
    the deck in. *)
Record Oracle := mkOracle {
  getYesNo : nat -> bool;
  getNumber : nat -> Z -> Z -> Z;
  getString : nat -> list string -> string;
  roll : nat -> Z;
  shuffle : nat -> list Card -> list Card
}.

(** What [iomanager.cc] guarantees of [getNumber] when the range is not
    empty.  On an empty range the prompt of [iomanager.cc] never returns;
    the oracle has an answer there too, and the statements about a prompt
    say why its range is not empty. *)
Definition number_in_range (io : Oracle) : Prop :=
  forall k lo hi, lo <= hi -> lo <= getNumber io k lo hi <= hi.

(** [v[i]] for an [int] index; out of range is undefined. *)
Definition at_index {A} (v : list A) (i : Z) : option A :=
  if i <? 0 then None else v !! Z.to_nat i.

Definition ptr_eqb (a b : option ptr) : bool :=
  match a, b with
  | Some x, Some y => Nat.eqb x y
  | None, None => true
  | _, _ => false
  end.

(** *** Spaces seen from the board manager *)

Definition getOwner (st : GameState) (i : nat) : option ptr :=
  match board st !! i with
  | Some s => match asBuyable s with Some b => owner b | None => None end
  | None => None
  end.

Definition getNbBuildings (st : GameState) (i : nat) : Z :=
  match board st !! i with
  | Some (Property _ _ _ n) => n
  | _ => 0
  end.

Definition getHousePrice (st : GameState) (i : nat) : Z :=
  match board st !! i with
  | Some (Property _ _ h _) => h
  | _ => 0
  end.

Definition getColor (st : GameState) (i : nat) : option Color :=
  match board st !! i with
  | Some (Property _ c _ _) => Some c
  | _ => None
  end.

Definition setOwner (i : nat) (o : option ptr) : GameState -> GameState :=
  updSpace i (withBuyable (setOwner_ o)).

Definition setNbBuildings (i : nat) (n : Z) : GameState -> GameState :=
  updSpace i (setNbBuildings_ n).

(** The [properties] index built by the constructor of [BoardManager]: a
    [std::map] keyed by [Color], iterated in the order of the enumeration,
    with an entry for each colour that has a property, the properties in
    board order. *)
Definition allColors : list Color :=
  [PURPLE; LIGHT_BLUE; PINK; ORANGE; RED; YELLOW; GREEN; BLUE].

Definition hasColor (st : GameState) (c : Color) (i : nat) : bool :=
  match getColor st i with
  | Some c' => Color_eqb c c'
  | None => false
  end.

Definition properties (st : GameState) : list (Color * list nat) :=
  List.filter (fun e => negb (Nat.eqb (length (snd e)) 0))
    (List.map (fun c => (c, List.filter (hasColor st c) (seq 0 (length (board st)))))
              allColors).

(** ** managers.cc: BoardManager, the part that does not land on a space *)

Definition upgradeToFullGroup (st : GameState) (property : nat) : GameState :=
  if getNbBuildings st property =? BASE_RENT
  then setNbBuildings property FULL_GROUP st
  else st.

Definition getOwnedGroups (player : option ptr) (st : GameState) : list nat * GameState :=
  fold_left
    (fun (acc : list nat * GameState) (entry : Color * list nat) =>
       let '(owned_properties, st) := acc in
       let propertyList := snd entry in
       let sameOwner := forallb (fun i => ptr_eqb (getOwner st i) player) propertyList in
       if sameOwner
       then (owned_properties ++ propertyList, fold_left upgradeToFullGroup propertyList st)
       else (owned_properties, st))
    (properties st) ([], st).

(** The first part of [movePlayer], up to the call of [handleSpace]. *)
Inductive MoveOutcome :=
| MoveNullPlayer                  (* no current player: "Player is null." *)
| MoveOutOfBounds                 (* "New position is out of bounds." *)
| MoveLanded (st : GameState).    (* position set, [handleSpace] comes next *)

(** The sum is one of [int]s (see [is_int]), converted to [size_t] for the
    remainder, and the remainder is converted back to [int]. *)
Definition newPositionOf (st : GameState) (player : ptr) (distanceToGo : Z) : Z :=
  to_int (to_size_t (getPosition st player + distanceToGo) mod board_size st).

Definition passesGo (st : GameState) (player : ptr) (distanceToGo : Z) : bool :=
  (newPositionOf st player distanceToGo <? getPosition st player)
  && (getRemainingTurnsInJail st player =? 0)
  && (distanceToGo >? 0).

Definition movePlayer_pre (distanceToGo : Z) (st : GameState) : MoveOutcome :=
  match getCurrentPlayer st with
  | None => MoveNullPlayer
  | Some player =>
      let newPosition := newPositionOf st player distanceToGo in
      if (newPosition <? 0) || (newPosition >=? to_int (board_size st))
      then MoveOutOfBounds
      else
        let st' :=
          if passesGo st player distanceToGo
          then transferMoneyFromTo None (Some player) 200 st
          else st in
        MoveLanded (setPosition player newPosition st')
  end.

Definition affectOwnership (player : ptr) (space : nat) (st : GameState) : GameState :=
  match board st !! space with
  | Some s =>
      match asBuyable s with
      | Some _ => setOwner space (Some player) st
      | None => st
      end
  | None => st
  end.

Section Engine.

Variable io : Oracle.

Definition rollDice (st : GameState) : GameState :=
  let first := roll io (tick st) in
  let second := roll io (S (tick st)) in
  set_tick (S (S (tick st))) (set_currentDicesValue (first, second) st).

(** ** spaces.cc: the auction

    [Property::auction], [Station::auction] and [Utility::auction] run the
    same loop; they differ in what the winner receives besides the space. *)
Fixpoint auction_loop (fuel : nat) (auctionPlayers : list ptr) (bid : Z)
    (st : GameState) {struct fuel} : option (list ptr * Z * GameState) :=
  match auctionPlayers with
  | [] | [_] => Some (auctionPlayers, bid, st)
  | currentPlayer :: rest =>
      match fuel with
      | O => None
      | S fuel =>
          if getMoney st currentPlayer - 1 <=? bid
          then auction_loop fuel rest bid st
          else
            let answer := getYesNo io (tick st) in
            let st := next_tick st in
            if answer
            then
              let bid := getNumber io (tick st) (bid + 1) (getMoney st currentPlayer - 1) in
              let st := next_tick st in
              auction_loop fuel (rest ++ [currentPlayer]) bid st
            else auction_loop fuel rest bid st
      end
  end.

(** The loop, then [auctionPlayers.front()], the payment and the ownership. *)
Definition auction_settle (fuel : nat) (this : nat) (st : GameState)
    : option (ptr * Z * GameState) :=
  match auction_loop fuel (players st) 0 st with
  | Some (auctionPlayers, bid, st) =>
      match auctionPlayers with
      | winner :: _ =>
          let st := transferMoneyFromTo (Some winner) None bid st in
          let st := affectOwnership winner this st in
          Some (winner, bid, st)
      | [] => None
      end
  | None => None
  end.

Definition Property_auction (fuel : nat) (this : nat) (st : GameState) : option GameState :=
  match auction_settle fuel this st with
  | Some (_, _, st) => Some st
  | None => None
  end.

Definition Station_auction (fuel : nat) (this : nat) (st : GameState) : option GameState :=
  match auction_settle fuel this st with
  | Some (winner, _, st) =>
      Some (setNbStationsOwned winner (getNbStationsOwned st winner + 1) st)
  | None => None
  end.

Definition Utility_auction (fuel : nat) (this : nat) (st : GameState) : option GameState :=
  match auction_settle fuel this st with
  | Some (winner, _, st) =>
      Some (setNbUtilitiesOwned winner (getNbUtilitiesOwned st winner + 1) st)
  | None => None
  end.

(** ** spaces.cc: the landing actions that do not move the player *)

Definition Property_action (fuel : nat) (this : nat) (b : BuyableSpace) (nbBuildings : Z)
    (st : GameState) : option GameState :=
  match getCurrentPlayer st with
  | None => None
  | Some player =>
      match owner b with
      | Some o =>
          if Nat.eqb o player then Some st
          else
            match at_index (rent b) nbBuildings with
            | Some rent => Some (transferMoneyFromTo (Some player) (Some o) rent st)
            | None => None
            end
      | None =>
          let answer := getYesNo io (tick st) in
          let st := next_tick st in
          if answer
          then
            if getMoney st player <? price b
            then Property_auction fuel this st
            else
              let st := transferMoneyFromTo (Some player) None (price b) st in
              Some (affectOwnership player this st)
          else Property_auction fuel this st
      end
  end.

Definition Station_action (fuel : nat) (this : nat) (b : BuyableSpace)
    (st : GameState) : option GameState :=
  match getCurrentPlayer st with
  | None => None
  | Some player =>
      match owner b with
      | Some o =>
          if Nat.eqb o player then Some st
          else
            match at_index (rent b) (getNbStationsOwned st o - 1) with
            | Some rent => Some (transferMoneyFromTo (Some player) (Some o) rent st)
            | None => None
            end
      | None =>
          let answer := getYesNo io (tick st) in
          let st := next_tick st in
          if answer
          then
            if getMoney st player <? price b
            then Station_auction fuel this st
            else
              let st := transferMoneyFromTo (Some player) None (price b) st in
              let st := affectOwnership player this st in
              Some (setNbStationsOwned player (getNbStationsOwned st player + 1) st)
          else Station_auction fuel this st
      end
  end.

Definition Utility_action (fuel : nat) (this : nat) (b : BuyableSpace)
    (st : GameState) : option GameState :=
  match getCurrentPlayer st with
  | None => None
  | Some player =>
      match owner b with
      | Some o =>
          if Nat.eqb o player then Some st
          else
            let dicesValue := currentDicesValue st in
            let rent := (fst dicesValue + snd dicesValue)
                        * (if getNbUtilitiesOwned st o =? 1 then 4 else 10) in
            Some (transferMoneyFromTo (Some player) (Some o) rent st)
      | None =>
          let answer := getYesNo io (tick st) in
          let st := next_tick st in
          if answer
          then
            if getMoney st player <? price b
            then Utility_auction fuel this st
            else
              let st := transferMoneyFromTo (Some player) None (price b) st in
              let st := affectOwnership player this st in
              Some (setNbUtilitiesOwned player (getNbUtilitiesOwned st player + 1) st)
          else Utility_auction fuel this st
      end
  end.

Definition Tax_action (amount : Z) (st : GameState) : option GameState :=
  match getCurrentPlayer st with
  | None => None
  | Some player => Some (transferMoneyFromTo (Some player) None amount st)
  end.

Definition Go_action (st : GameState) : option GameState :=
  match getCurrentPlayer st with
  | None => None
  | Some player => Some (transferMoneyFromTo None (Some player) 200 st)
  end.

(** The second half of [Jail::action]: pay the fine or roll for a double. *)
Definition Jail_payOrRoll (player : ptr) (st : GameState) : GameState :=
  let answer := getYesNo io (tick st) in
  let st := next_tick st in
  let oneTurnLess st :=
    setRemainingTurnsInJail player (getRemainingTurnsInJail st player - 1) st in
  if answer
  then
    if getMoney st player <? 50
    then oneTurnLess st
    else
      let st := transferMoneyFromTo (Some player) None 50 st in
      setRemainingTurnsInJail player 0 st
  else
    let st := rollDice st in
    let dicesValue := currentDicesValue st in
    if fst dicesValue =? snd dicesValue
    then setRemainingTurnsInJail player 0 st
    else oneTurnLess st.

(** The card branch of [Jail::action], entered on the answer 'y'. *)
Definition Jail_useCard (player : ptr) (st : GameState) : GameState :=
  let st := setRemainingTurnsInJail player 0 st in
  if getHasChanceGOJFC st player
  then setChanceGOJFCTaken false (setHasChanceGOJFC player false st)
  else setCommunityChestGOJFCTaken false (setHasCommunityChestGOJFC player false st).

Definition Jail_action (st : GameState) : option GameState :=
  match getCurrentPlayer st with
  | None => None
  | Some player =>
      if getRemainingTurnsInJail st player >? 0
      then
        if getHasChanceGOJFC st player || getHasCommunityChestGOJFC st player
        then
          let answer := getYesNo io (tick st) in
          let st := next_tick st in
          if answer
          then Some (Jail_useCard player st)
          else Some (Jail_payOrRoll player st)
        else Some (Jail_payOrRoll player st)
      else Some st
  end.

(** ** managers.cc: building *)

(** The locals of [buildOnProperties] that the loop over the group updates.
    [buildingsPerProperty] is kept in the order of the assignments: a later
    entry for the same property overrides an earlier one, as in the map. *)
Record BuildRequest := mkRequest {
  buildingsPerProperty : list (nat * Z);
  minBuildings : Z;
  maxBuildings : Z;
  totalNewBuildings : Z
}.

Definition emptyRequest : BuildRequest := mkRequest [] INT_MAX INT_MIN 0.

Fixpoint askBuildings (properties : list nat) (housePrice0 : Z) (player : ptr)
    (r : BuildRequest) (st : GameState) : BuildRequest * GameState :=
  match properties with
  | [] => (r, st)
  | property :: rest =>
      let currentBuildingsOnProperty := getNbBuildings st property in
      let maxTheoretical :=
        Z.min (5 - currentBuildingsOnProperty) (Z.quot (getMoney st player) housePrice0) in
      let additionalBuildingsOnProperty := getNumber io (tick st) 0 maxTheoretical in
      let st := next_tick st in
      let totalBuildingsOnProperty :=
        currentBuildingsOnProperty + additionalBuildingsOnProperty in
      let r :=
        mkRequest (buildingsPerProperty r ++ [(property, totalBuildingsOnProperty)])
                  (Z.min (minBuildings r) totalBuildingsOnProperty)
                  (Z.max (maxBuildings r) totalBuildingsOnProperty)
                  (totalNewBuildings r + additionalBuildingsOnProperty) in
      askBuildings rest housePrice0 player r st
  end.

Definition commitBuildings (l : list (nat * Z)) (st : GameState) : GameState :=
  fold_left (fun st e => setNbBuildings (fst e) (snd e) st) l st.

(** What one call does before it returns or calls itself again. *)
Inductive BuildOutcome :=
| BuildTooManyAttempts            (* "Too many attempts. Exiting." *)
| BuildRetry (st : GameState)     (* difference of more than one building *)
| BuildNotEnoughMoney (st : GameState)
| BuildCommitted (st : GameState).

Definition buildOnProperties_once (properties : list nat) (player : ptr) (attempts : Z)
    (st : GameState) : option BuildOutcome :=
  if attempts >? 50 then Some BuildTooManyAttempts
  else
    match properties with
    | [] => None
    | first :: _ =>
        let housePrice0 := getHousePrice st first in
        if housePrice0 =? 0 then None
        else
          let '(r, st) := askBuildings properties housePrice0 player emptyRequest st in
          if maxBuildings r - minBuildings r >? 1 then Some (BuildRetry st)
          else if totalNewBuildings r * housePrice0 >? getMoney st player
          then Some (BuildNotEnoughMoney st)
          else
            let st :=
              transferMoneyFromTo (Some player) None (totalNewBuildings r * housePrice0) st in
            Some (BuildCommitted (commitBuildings (buildingsPerProperty r) st))
    end.

Fixpoint buildOnProperties (fuel : nat) (properties : list nat) (player : ptr)
    (attempts : Z) (st : GameState) {struct fuel} : option GameState :=
  match fuel with
  | O => None
  | S fuel =>
      match buildOnProperties_once properties player attempts st with
      | None => None
      | Some BuildTooManyAttempts => Some st
      | Some (BuildRetry st) => buildOnProperties fuel properties player (attempts + 1) st
      | Some (BuildNotEnoughMoney st) => Some st
      | Some (BuildCommitted st) => Some st
      end
  end.

(** ** managers.cc and cards.cc: what lands the player on a space

    [handleSpace], [movePlayer], the two draws and the card effects call one
    another; each call spends one unit of fuel.  Without a current player
    [movePlayer] has no defined result: its first debug line reads the name
    and the position of the player before the test for [nullptr]. *)

Definition countRepairs (st : GameState) (owned_groups : list nat) : Z * Z :=
  fold_left
    (fun (acc : Z * Z) property =>
       let '(nbHouses, nbHotels) := acc in
       let n := getNbBuildings st property in
       if (n >? FULL_GROUP) && (n <? HOTEL) then (nbHouses + n, nbHotels)
       else if n =? HOTEL then (nbHouses, nbHotels + 1)
       else (nbHouses, nbHotels))
    owned_groups (0, 0).

Definition birthday (currentPlayer : ptr) (gift : Z) (st : GameState) : GameState :=
  fold_left
    (fun st player =>
       if Nat.eqb player currentPlayer then st
       else transferMoneyFromTo (Some player) (Some currentPlayer) gift st)
    (players st) st.

Fixpoint handleSpace (fuel : nat) (st : GameState) {struct fuel} : option GameState :=
  match fuel with
  | O => None
  | S fuel =>
      match getCurrentPlayer st with
      | None => None
      | Some player =>
          match at_index (board st) (getPosition st player) with
          | None => None
          | Some space =>
              let this := Z.to_nat (getPosition st player) in
              match space with
              | Property b _ _ nbBuildings => Property_action fuel this b nbBuildings st
              | Station b => Station_action fuel this b st
              | Utility b => Utility_action fuel this b st
              | Tax _ amount => Tax_action amount st
              | Jail => Jail_action st
              | GoToJail => movePlayer fuel 20 (setRemainingTurnsInJail player 3 st)
              | FreeParking => Some st
              | Go => Go_action st
              | CommunityChest => drawCommunityChestCard fuel st
              | Chance => drawChanceCard fuel st
              end
          end
      end
  end

with movePlayer (fuel : nat) (distanceToGo : Z) (st : GameState) {struct fuel}
    : option GameState :=
  match fuel with
  | O => None
  | S fuel =>
      match movePlayer_pre distanceToGo st with
      | MoveNullPlayer => None
      | MoveOutOfBounds => Some st
      | MoveLanded st => handleSpace fuel st
      end
  end

with drawChanceCard (fuel : nat) (st : GameState) {struct fuel} : option GameState :=
  match fuel with
  | O => None
  | S fuel =>
      match chanceDeck st with
      | [] => Some st
      | _ =>
          let st := next_tick (set_chanceDeck (shuffle io (tick st) (chanceDeck st)) st) in
          match chanceDeck st with
          | [] => None
          | card :: _ =>
              if isGOJFC card && chanceGOJFCTaken st
              then drawChanceCard fuel st
              else Card_action fuel card st
          end
      end
  end

with drawCommunityChestCard (fuel : nat) (st : GameState) {struct fuel}
    : option GameState :=
  match fuel with
  | O => None
  | S fuel =>
      match communityChestDeck st with
      | [] => Some st
      | _ =>
          let st :=
            next_tick
              (set_communityChestDeck (shuffle io (tick st) (communityChestDeck st)) st) in
          match communityChestDeck st with
          | [] => None
          | card :: _ =>
              if isGOJFC card && chanceGOJFCTaken st
              then drawCommunityChestCard fuel st
              else Card_action fuel card st
          end
      end
  end

(** [CommunityChestCard::action] and [ChanceCard::action]: run the stored
    function when there is one. *)
with Card_action (fuel : nat) (card : Card) (st : GameState) {struct fuel}
    : option GameState :=
  match fuel with
  | O => None
  | S fuel =>
      match _actionFunction card with
      | None => Some st
      | Some effect =>
          match getCurrentPlayer st with
          | None => None
          | Some currentPlayer =>
              match effect with
              | KeepCommunityChestGOJFC =>
                  Some (setCommunityChestGOJFCTaken true
                          (setHasCommunityChestGOJFC currentPlayer true st))
              | KeepChanceGOJFC =>
                  Some (setChanceGOJFCTaken true (setHasChanceGOJFC currentPlayer true st))
              | AdvanceTo index =>
                  movePlayer fuel
                    (to_int (to_size_t (board_size st + index - getPosition st currentPlayer)))
                    st
              | Receive amount =>
                  Some (transferMoneyFromTo None (Some currentPlayer) amount st)
              | Pay amount =>
                  Some (transferMoneyFromTo (Some currentPlayer) None amount st)
              | SentToJail =>
                  let st := setRemainingTurnsInJail currentPlayer 3 st in
                  let st := setPosition currentPlayer 10 st in
                  handleSpace fuel st
              | FineOrChance fine =>
                  let choice := getYesNo io (tick st) in
                  let st := next_tick st in
                  if choice then drawChanceCard fuel st
                  else Some (transferMoneyFromTo (Some currentPlayer) None fine st)
              | Birthday gift => Some (birthday currentPlayer gift st)
              | Repairs perHouse perHotel =>
                  let '(owned_groups, st) := getOwnedGroups (Some currentPlayer) st in
                  let '(nbHouses, nbHotels) := countRepairs st owned_groups in
                  Some (transferMoneyFromTo (Some currentPlayer) None
                          (nbHouses * perHouse + nbHotels * perHotel) st)
              | MoveBy distance => movePlayer fuel distance st
              end
          end
      end
  end.

(** ** gamecore.cc *)

(** The keys of [propertiesByColor], a [std::map] on the colour names: the
    colours in the alphabetical order of [colorToString]. *)
Definition colorsByName : list Color :=
  [BLUE; GREEN; LIGHT_BLUE; ORANGE; PINK; PURPLE; RED; YELLOW].

(** The groups among [owned_groups] that are listed to the player: grouped
    by colour name, the groups where every property has a hotel erased. *)
Definition buildableGroups (st : GameState) (owned_groups : list nat)
    : list (string * list nat) :=
  let propertiesByColor :=
    List.filter (fun e => negb (Nat.eqb (length (snd e)) 0))
      (List.map (fun c => (colorToString c, List.filter (hasColor st c) owned_groups))
                colorsByName) in
  List.filter
    (fun e => negb (forallb (fun property => getNbBuildings st property =? HOTEL) (snd e)))
    propertiesByColor.

Fixpoint lookupColor (color : string) (l : list (string * list nat)) : option (list nat) :=
  match l with
  | [] => None
  | (c, props) :: t => if String.eqb c color then Some props else lookupColor color t
  end.

(** The [while(true)] loop of the build phase. *)
Fixpoint buildPhase (fuel : nat) (st : GameState) {struct fuel} : option GameState :=
  match fuel with
  | O => None
  | S fuel =>
      let '(owned_groups, st) := getOwnedGroups (getCurrentPlayer st) st in
      match owned_groups with
      | [] => Some st
      | _ =>
          let propertiesByColor := buildableGroups st owned_groups in
          match propertiesByColor with
          | [] => Some st
          | _ =>
              let colors := List.map fst propertiesByColor in
              let build := getYesNo io (tick st) in
              let st := next_tick st in
              if build
              then
                let color := getString io (tick st) colors in
                let st := next_tick st in
                match lookupColor color propertiesByColor with
                | Some props =>
                    match getCurrentPlayer st with
                    | None => None
                    | Some player =>
                        match buildOnProperties fuel props player 0 st with
                        | Some st => buildPhase fuel st
                        | None => None
                        end
                    end
                | None => buildPhase fuel st
                end
              else Some st
          end
      end
  end.

(** The body of the bankruptcy loop for one bankrupt player: every buyable
    space of the player goes back to the bank, a property at base rent. *)
Definition releaseSpace (player : ptr) (space : Space) : Space :=
  match asBuyable space with
  | Some b =>
      if ptr_eqb (owner b) (Some player)
      then setNbBuildings_ BASE_RENT (withBuyable (setOwner_ None) space)
      else space
  | None => space
  end.

Definition releaseSpaces (player : ptr) (st : GameState) : GameState :=
  set_board (List.map (releaseSpace player) (board st)) st.

(** [for (int i = 0; i < getNbPlayers(); i++)], from index [i]; [n] bounds
    the number of iterations left and is the number of players at the start. *)
Fixpoint checkBankruptcy (n : nat) (i : nat) (st : GameState) : GameState :=
  match n with
  | O => st
  | S n =>
      match getPlayer st i with
      | None => st
      | Some player =>
          if getMoney st player =? 0
          then checkBankruptcy n (S i) (removePlayer player (releaseSpaces player st))
          else checkBankruptcy n (S i) st
      end
  end.

(** The end of [playTurn]: bankruptcy check, next player, doubles reset. *)
Definition endTurn (st : GameState) : option GameState :=
  let st := checkBankruptcy (getNbPlayers st) 0 st in
  match setNextPlayer st with
  | Some st => Some (set_consecutiveDoubles 0 st)
  | None => None
  end.

Fixpoint playTurn (fuel : nat) (st : GameState) {struct fuel} : option GameState :=
  match fuel with
  | O => None
  | S fuel =>
      match getCurrentPlayer st with
      | None => setNextPlayer st
      | Some player =>
          if getRemainingTurnsInJail st player >? 0
          then
            match handleSpace fuel st with
            | Some st => setNextPlayer st
            | None => None
            end
          else
            let st := rollDice st in
            let dicesValue := currentDicesValue st in
            match movePlayer fuel (fst dicesValue + snd dicesValue) st with
            | None => None
            | Some st =>
                if fst dicesValue =? snd dicesValue
                then
                  let st := set_consecutiveDoubles (consecutiveDoubles st + 1) st in
                  if consecutiveDoubles st =? 3
                  then
                    let st := setPosition player 10 st in
                    let st := setRemainingTurnsInJail player 3 st in
                    match handleSpace fuel st with
                    | Some st =>
                        match setNextPlayer st with
                        | Some st => Some (set_consecutiveDoubles 0 st)
                        | None => None
                        end
                    | None => None
                    end
                  else if getRemainingTurnsInJail st player >? 0
                  then Some st
                  else if getMoney st player >? 0
                  then
                    match playTurn fuel st with
                    | Some st => endTurn st
                    | None => None
                    end
                  else endTurn st
                else
                  if getMoney st player >? 0
                  then
                    match buildPhase fuel st with
                    | Some st => endTurn st
                    | None => None
                    end
                  else endTurn st
            end
      end
  end.

(** The game loop of [startGame], once the players are created. *)
Fixpoint gameLoop (fuel : nat) (turns : Z) (st : GameState) {struct fuel}
    : option (Z * GameState) :=
  match fuel with
  | O => None
  | S fuel =>
      if (1 <? Z.of_nat (getNbPlayers st)) && (turns <? 1000)
      then
        match playTurn fuel st with
        | Some st => gameLoop fuel (turns + 1) st
        | None => None
        end
      else Some (turns, st)
  end.

End Engine.

(** ** main.cc: the board and the decks *)

Definition createBoard : list Space :=
  [ Go;
    Property_new "Boulevard de Belleville" PURPLE 60 50 [4; 10; 30; 90; 160; 250; 2];
    CommunityChest;
    Property_new "Rue Lecourbe" PURPLE 60 50 [8; 20; 60; 180; 320; 450; 4];
    Tax "Impôt sur le revenu" 200;
    Station_new "Gare Montparnasse";
    Property_new "Avenue de Vaugirard" LIGHT_BLUE 100 50 [12; 30; 90; 270; 400; 550; 6];
    Chance;
    Property_new "Rue de Courcelles" LIGHT_BLUE 100 50 [12; 30; 90; 270; 400; 550; 6];
    Property_new "Avenue de la République" LIGHT_BLUE 120 50 [16; 40; 100; 300; 450; 600; 8];
    Jail;
    Property_new "Boulevard de la Villette" PINK 140 100 [20; 50; 150; 450; 625; 750; 10];
    Utility_new "Compagnie de distribution d'électricité";
    Property_new "Avenue de Neuilly" PINK 140 100 [20; 50; 150; 450; 625; 750; 10];
    Property_new "Rue de Paradis" PINK 160 100 [24; 60; 180; 500; 700; 900; 12];
    Station_new "Gare de Lyon";
    Property_new "Avenue Mozart" ORANGE 180 100 [28; 70; 200; 550; 750; 950; 14];
    CommunityChest;
    Property_new "Boulevard Saint-Michel" ORANGE 180 100 [28; 70; 200; 550; 750; 950; 14];
    Property_new "Place Pigalle" ORANGE 200 100 [32; 80; 220; 600; 800; 1000; 16];
    FreeParking;
    Property_new "Avenue Matignon" RED 220 150 [36; 90; 250; 700; 875; 1050; 18];
    Chance;
    Property_new "Boulevard Malesherbes" RED 220 150 [36; 90; 250; 700; 875; 1050; 18];
    Property_new "Avenue Henri-Martin" RED 240 150 [40; 100; 300; 750; 925; 1100; 20];
    Station_new "Gare du Nord";
    Property_new "Faubourg Saint-Honoré" YELLOW 260 150 [44; 110; 330; 800; 975; 1150; 22];
    Property_new "Place de la Bourse" YELLOW 260 150 [44; 110; 330; 800; 975; 1150; 22];
    Utility_new "Compagnie des eaux";
    Property_new "Rue La Fayette" YELLOW 280 150 [48; 120; 360; 850; 1025; 1200; 24];
    GoToJail;
    Property_new "Avenue de Breteuil" GREEN 300 200 [52; 130; 390; 900; 1100; 1275; 26];
    Property_new "Avenue Foch" GREEN 300 200 [52; 130; 390; 900; 1100; 1275; 26];
    CommunityChest;
    Property_new "Boulevard des Capucines" GREEN 320 200 [56; 150; 450; 1000; 1200; 1400; 28];
    Station_new "Gare Saint-Lazare";
    Chance;
    Property_new "Avenue des Champs-Élysées" BLUE 350 200 [70; 175; 500; 1100; 1300; 1500; 35];
    Tax "Taxe de luxe" 100;
    Property_new "Rue de la Paix" BLUE 400 200 [100; 200; 600; 1400; 1700; 2000; 50] ].

Definition card (_description : string) (effect : Effect) : Card :=
  mkCard _description (Some effect).

Definition createCommunityChestDeck : list Card :=
  [ card "Get out of Jail Free. This card may be kept until needed" KeepCommunityChestGOJFC;
    card "Advance to Go" (AdvanceTo 0);
    card "Receive your annual income of 100€" (Receive 100);
    card "Go to Jail. Do not pass Go. Do not collect 200€" SentToJail;
    card "You have won second prize in a beauty contest. Collect 10€" (Receive 10);
    card "Go back to Belleville" (AdvanceTo 1);
    card "Pay a fine of 10€ or draw a Chance card" (FineOrChance 10);
    card "The sale of your stock earns you 50€" (Receive 50);
    card "Pay the doctor's fee of 50€" (Pay 50);
    card "Pay your hospital fee of 100€" (Pay 100);
    card "Bank error in your favor. Collect 200€" (Receive 200);
    card "Receive your 7% interest on loan: 25€" (Receive 25);
    card "The contributions reimburse you the amount of 20€" (Receive 20);
    card "You inherit 100€" (Receive 100);
    card "Pay your Insurance Premium of 50€" (Pay 50);
    card "It's your birthday, each player must give you 10€" (Birthday 10) ].

Definition createChanceDeck : list Card :=
  [ card "Make repairs to all your houses. Pay 25€ for each house and 100€ for each hotel"
         (Repairs 25 100);
    card "You won the crossword prize. Receive 100€" (Receive 100);
    card "Fine for drunkenness. Pay 20€" (Pay 20);
    card "Go to Avenue Henri-Martin. If you pass Go, collect 200€" (AdvanceTo 24);
    card "The bank pays you a dividend of 50€" (Receive 50);
    card "Go to Lyon Station. If you pass Go, collect 200€" (AdvanceTo 15);
    card "Advance to Boulevard de la Villette. If you pass Go, collect 200€" (AdvanceTo 11);
    card "Go to Rue de la Paix" (AdvanceTo 39);
    card "Get out of Jail Free. This card may be kept until needed" KeepChanceGOJFC;
    card "Go to Jail. Do not pass Go. Do not collect 200€" SentToJail;
    card "Speeding fine. Pay 15€" (Pay 15);
    card "You are taxed for road repairs at a rate of 40€ per house and 115€ per hotel"
         (Repairs 40 115);
    card "Move back three spaces" (MoveBy (-3));
    card "Your property and loan are paying off. You must receive 150€" (Receive 150);
    card "Pay for tuition fees 150€" (Pay 150);
    card "Advance to Go" (AdvanceTo 0) ].

(** The [BoardManager] and [GameCore] right after construction. *)
Definition newGame (_board : list Space) (_communityChestDeck _chanceDeck : list Card)
    : GameState :=
  {| board := _board;
     chanceDeck := _chanceDeck;
     chanceGOJFCTaken := false;
     communityChestDeck := _communityChestDeck;
     communityChestGOJFCTaken := false;
     currentDicesValue := (0, 0);
     heap := [];
     players := [];
     currentPlayer := None;
     consecutiveDoubles := 0;
     tick := 0 |}.

(** * Vocabulary of the statements *)

(** The pointer names a player object. *)
Definition allocated (st : GameState) (p : ptr) : Prop := (p < length (heap st))%nat.

(** Two states that differ in the number of oracle queries only. *)
Definition same_but_tick (st st' : GameState) : Prop := st' = set_tick (tick st') st.

(** The largest amount of money among the players of a queue (0 at least). *)
Definition richest (st : GameState) (q : list ptr) : Z :=
  fold_right (fun p m => Z.max (getMoney st p) m) 0 q.

Definition isProperty (st : GameState) (i : nat) : Prop :=
  match board st !! i with
  | Some (Property _ _ _ _) => True
  | _ => False
  end.

(** What the player asks for in one round of prompts of
    [buildOnProperties]: the request, its levels and its price. *)
Definition requested (io : Oracle) (properties : list nat) (player : ptr)
    (st : GameState) : BuildRequest :=
  match properties with
  | [] => emptyRequest
  | first :: _ =>
      fst (askBuildings io properties (getHousePrice st first) player emptyRequest st)
  end.

Definition requestedLevels (io : Oracle) (properties : list nat) (player : ptr)
    (st : GameState) : list Z :=
  List.map snd (buildingsPerProperty (requested io properties player st)).

Definition requestedCost (io : Oracle) (properties : list nat) (player : ptr)
    (st : GameState) : Z :=
  match properties with
  | [] => 0
  | first :: _ =>
      totalNewBuildings (requested io properties player st) * getHousePrice st first
  end.

(** * Concrete games *)

(** Alice (0), Bob (1) and Charlie (2) on the board of [main.cc]. *)
Definition threePlayers : GameState :=
  addNewPlayer (newPlayer "Charlie")
    (addNewPlayer (newPlayer "Bob")
       (addNewPlayer (newPlayer "Alice")
          (newGame createBoard createCommunityChestDeck createChanceDeck))).

(** An oracle that answers every yes/no prompt with [yes], every number
    prompt with the minimum, rolls [first] then [second] for ever, and
    leaves [onTop deck] as the order of a shuffled deck. *)
Definition scripted (yes : bool) (first second : Z) (onTop : list Card -> list Card)
    : Oracle :=
  mkOracle (fun _ => yes) (fun _ lo _ => lo) (fun _ _ => "")
           (fun k => if Nat.even k then first else second) (fun _ deck => onTop deck).

(** The numbers typed at the successive prompts. *)
Definition typed (answers : list Z) : Oracle :=
  mkOracle (fun _ => false) (fun k _ _ => nth k answers 0) (fun _ _ => "")
           (fun _ => 1) (fun _ deck => deck).

(** Three candidates with 40, 100 and 60. *)
Definition auction_example : GameState :=
  setMoney 2%nat 60 (setMoney 1%nat 100 (setMoney 0%nat 40 threePlayers)).

(** Only the second query is answered 'y'; a number prompt is answered 55
    (brought into the range asked for). *)
Definition auction_example_io : Oracle :=
  mkOracle (fun k => Nat.eqb k 1) (fun _ lo hi => Z.max lo (Z.min hi 55))
           (fun _ _ => "") (fun _ => 1) (fun _ deck => deck).

(** Alice owns the light blue group, two houses on each property. *)
Definition lightBlue : list nat := [6; 8; 9]%nat.

Definition build_example : GameState :=
  fold_left (fun st i => setNbBuildings i TWO_HOUSES (setOwner i (Some 0%nat) st))
            lightBlue threePlayers.

Definition levels (st : GameState) : list Z := List.map (getNbBuildings st) lightBlue.

(** Alice holds the community-chest token and it is Bob's turn; the
    get-out-of-jail-free card, written as [drawCommunityChestCard] looks
    for it, is on top of the deck. *)
Definition gojfc_deck : list Card :=
  [ card "Get Out of Jail Free. This card may be kept until needed" KeepCommunityChestGOJFC;
    card "Advance to Go" (AdvanceTo 0) ].

Definition gojfc_example : GameState :=
  setCurrentPlayer (Some 1%nat)
    (setCommunityChestGOJFCTaken true
       (setHasCommunityChestGOJFC 0%nat true
          (set_communityChestDeck gojfc_deck threePlayers))).

(** Alice holds the chance token of the deck of [main.cc] and it is Bob's
    turn. *)
Definition chance_held_example : GameState :=
  setCurrentPlayer (Some 1%nat)
    (setChanceGOJFCTaken true (setHasChanceGOJFC 0%nat true threePlayers)).

(** A shuffle that cuts the deck at its ninth card. *)
Definition cutAtNinth (deck : list Card) : list Card := drop 8 deck ++ take 8 deck.

(** Charlie stands on "Rue de Paradis" (14) and is about to play; Alice
    has 10 left and Bob 5. *)
Definition birthday_example : GameState :=
  setCurrentPlayer (Some 2%nat)
    (setPosition 2%nat 14 (setMoney 1%nat 5 (setMoney 0%nat 10 threePlayers))).

(** Alice is in jail for two more turns with exactly 50. *)
Definition jail_example : GameState :=
  setRemainingTurnsInJail 0%nat 2 (setPosition 0%nat 10 (setMoney 0%nat 50 threePlayers)).

(** Alice is in jail with both tokens. *)
Definition both_tokens_example : GameState :=
  setChanceGOJFCTaken true
    (setCommunityChestGOJFCTaken true
       (setHasChanceGOJFC 0%nat true
          (setHasCommunityChestGOJFC 0%nat true
             (setRemainingTurnsInJail 0%nat 3 (setPosition 0%nat 10 threePlayers))))).

(** * gamecore.cc: the start of a game *)

(** [GameCore::startGame]: the loop that creates the players, then the
    whole function. *)
Fixpoint createPlayers (io : Oracle) (nbPlayers : nat) (st : GameState) : GameState :=
  match nbPlayers with
  | O => st
  | S nbPlayers =>
      let name := getString io (tick st) [] in
      let st := next_tick st in
      createPlayers io nbPlayers (addNewPlayer (newPlayer name) st)
  end.

Definition startGame (io : Oracle) (fuel : nat) (st : GameState) : option (Z * GameState) :=
  let nbPlayers := getNumber io (tick st) 2 8 in
  let st := next_tick st in
  let st := createPlayers io (Z.to_nat nbPlayers) st in
  gameLoop io fuel 0 st.

(** * Further vocabulary *)

(** [setNextPlayer] called [n] times in a row. *)
Fixpoint setNextPlayer_times (n : nat) (st : GameState) : option GameState :=
  match n with
  | O => Some st
  | S n =>
      match setNextPlayer st with
      | Some st => setNextPlayer_times n st
      | None => None
      end
  end.

(** What does not change when only player [p] is written to. *)
Definition only_player (p : ptr) (st st' : GameState) : Prop :=
  board st' = board st
  /\ players st' = players st
  /\ currentPlayer st' = currentPlayer st
  /\ length (heap st') = length (heap st)
  /\ (forall q, q <> p -> deref st' q = deref st q).

(** The group is wholly owned by the player. *)
Definition whollyOwned (st : GameState) (player : option ptr) (entry : Color * list nat)
    : bool :=
  forallb (fun i => ptr_eqb (getOwner st i) player) (snd entry).

(** The properties of the groups wholly owned by the player, group after
    group. *)
Definition ownedGroupsOf (st : GameState) (player : option ptr) : list nat :=
  concat (List.map snd (List.filter (whollyOwned st player) (properties st))).

(** [j] is one of [l]. *)
Definition appears (j : nat) (l : list nat) : bool := existsb (Nat.eqb j) l.

Definition sumZ (l : list Z) : Z := fold_right Z.add 0 l.

(** [k] more oracle queries. *)
Definition later (k : nat) (st : GameState) : GameState := set_tick (k + tick st) st.

(** What one successful or abandoned build leaves behind. *)
Definition built_or_untouched (properties : list nat) (player : ptr)
    (st st' : GameState) : Prop :=
  (board st' = board st /\ heap st' = heap st)
  \/ (exists first rest,
        properties = first :: rest
        /\ let cost :=
             getHousePrice st first
             * sumZ (List.map (fun p => getNbBuildings st' p - getNbBuildings st p)
                              properties) in
           0 <= cost <= getMoney st player
           /\ getMoney st' player = getMoney st player - cost
           /\ (forall p q, In p properties -> In q properties ->
                 -1 <= getNbBuildings st' p - getNbBuildings st' q <= 1)
           /\ (forall p, In p properties ->
                 getNbBuildings st p <= getNbBuildings st' p <= HOTEL)
           /\ (forall q, q <> player -> deref st' q = deref st q)
           /\ (forall j, ~ In j properties -> board st' !! j = board st !! j)).

(** What the statements about whole runs range over: a landing, a move, a
    turn or a game that returns. *)
Definition runs (io : Oracle) (fuel : nat) (st st' : GameState) : Prop :=
  handleSpace io fuel st = Some st'
  \/ (exists distanceToGo, movePlayer io fuel distanceToGo st = Some st')
  \/ playTurn io fuel st = Some st'
  \/ (exists turns turns', gameLoop io fuel turns st = Some (turns', st')).

(** What a space is for the whole game: the space as its constructor in
    [spaces.cc] leaves it, without owner and at base rent. *)
Definition layout (s : Space) : Space :=
  setNbBuildings_ BASE_RENT (withBuyable (setOwner_ None) s).

(** The same player objects, by name, on the same spaces, later. *)
Definition same_table (st st' : GameState) : Prop :=
  List.map name (heap st') = List.map name (heap st)
  /\ List.map layout (board st') = List.map layout (board st)
  /\ (tick st <= tick st')%nat.

(** The same active players, the same player to move, the same count of
    doubles. *)
Definition same_seats (st st' : GameState) : Prop :=
  players st' = players st
  /\ currentPlayer st' = currentPlayer st
  /\ consecutiveDoubles st' = consecutiveDoubles st.

(** Every player object stands on a space of the board. *)
Definition on_board (st : GameState) : bool :=
  forallb (fun player => (0 <=? position player) && (position player <? board_size st))
          (heap st).

(** Space [this] has gone to [w], an active player, who alone has paid. *)
Definition sold_to (this : nat) (w : ptr) (st st' : GameState) : Prop :=
  getOwner st' this = Some w
  /\ In w (players st)
  /\ getMoney st' w <= getMoney st w
  /\ forall q, q <> w -> getMoney st' q = getMoney st q.

(** A property is at a level that indexes its rents, and its houses have a
    price. *)
Definition level_ok (s : Space) : bool :=
  match s with
  | Property b _ housePrice nbBuildings =>
      (0 <=? nbBuildings) && (nbBuildings <=? BASE_RENT)
      && (BASE_RENT <? Z.of_nat (length (rent b))) && (0 <? housePrice)
  | _ => true
  end.

Definition levels_ok (st : GameState) : bool := forallb level_ok (board st).

(** From [st] to [st'] every space that had an owner still has it, unless
    that owner has left the active players in between. *)
Definition owners_stay_or_leave (st st' : GameState) : Prop :=
  forall i q,
    getOwner st i = Some q ->
    getOwner st' i = Some q \/ (q ∈ players st /\ q ∉ players st').

(** A property that is not at base rent has an owner: houses, hotels and
    the level of a full group are found on owned properties only. *)
Definition built_is_owned (s : Space) : bool :=
  match s with
  | Property b _ _ nbBuildings =>
      (nbBuildings =? BASE_RENT)
      || match owner b with Some _ => true | None => false end
  | _ => true
  end.

Definition buildings_are_owned (st : GameState) : bool := forallb built_is_owned (board st).

(** * Further concrete games *)

(** An oracle whose dice show 2 and 2, then 2 and 4, then ones; every
    yes/no prompt is answered 'n'. *)
Definition double_then_six : Oracle :=
  mkOracle (fun _ => false) (fun _ lo _ => lo) (fun _ _ => "")
           (fun k => match k with
                     | 0%nat | 1%nat | 2%nat => 2
                     | 3%nat => 4
                     | _ => 1
                     end)
           (fun _ deck => deck).

(** An oracle for a turn with a build: the dice show 1 and 2, only the
    sixth query is answered 'y', the colour typed is light blue and every
    number typed is 1 (brought into the range asked for). *)
Definition builder : Oracle :=
  mkOracle (fun k => Nat.eqb k 5) (fun _ lo hi => Z.max lo (Z.min hi 1))
           (fun _ _ => "light blue") (fun k => if Nat.even k then 1 else 2)
           (fun _ deck => deck).

(** Nobody has anything left. *)
Definition all_bankrupt : GameState :=
  setMoney 2%nat 0 (setMoney 1%nat 0 (setMoney 0%nat 0 threePlayers)).

(** * Properties *)

(** ** Integers and the heap of players *)

Lemma to_int_small z : INT_MIN <= z <= INT_MAX -> to_int z = z.
Proof.
  unfold to_int, INT_MIN, INT_MAX; intros H.
  replace ((z + 2 ^ 31) mod 2 ^ 32) with (z + 2 ^ 31); [lia|].
  symmetry; apply Z.mod_small; lia.
Qed.

Lemma to_size_t_small z : 0 <= z < 2 ^ 64 -> to_size_t z = z.
Proof. unfold to_size_t; intros; apply Z.mod_small; lia. Qed.

Lemma deref_updPlayer_eq st p f :
  allocated st p -> deref (updPlayer p f st) p = f (deref st p).
Proof.
  unfold allocated, deref, updPlayer; simpl; intros H.
  rewrite list_lookup_alter_eq.
  destruct (lookup_lt_is_Some_2 _ _ H) as [x Hx]. rewrite Hx. reflexivity.
Qed.

Lemma deref_updPlayer_ne st p q f :
  p <> q -> deref (updPlayer p f st) q = deref st q.
Proof.
  unfold deref, updPlayer; simpl; intros H.
  rewrite list_lookup_alter_ne by assumption. reflexivity.
Qed.

Lemma allocated_updPlayer st p q f : allocated (updPlayer p f st) q <-> allocated st q.
Proof. unfold allocated, updPlayer; simpl. rewrite length_alter. reflexivity. Qed.

Lemma getMoney_credit st q a :
  allocated st q ->
  getMoney (transferMoneyFromTo None (Some q) a st) q = getMoney st q + a.
Proof.
  intros H. unfold transferMoneyFromTo, getMoney, setMoney.
  rewrite deref_updPlayer_eq by assumption. reflexivity.
Qed.

Lemma getMoney_setPosition st p q v : getMoney (setPosition p v st) q = getMoney st q.
Proof.
  unfold getMoney, setPosition, deref, updPlayer; simpl.
  destruct (Nat.eq_dec p q) as [->|Hne].
  - rewrite list_lookup_alter_eq. destruct (heap st !! q); reflexivity.
  - rewrite list_lookup_alter_ne by assumption. reflexivity.
Qed.

Lemma getPosition_setPosition st p v :
  allocated st p -> getPosition (setPosition p v st) p = v.
Proof.
  intros H. unfold getPosition, setPosition.
  rewrite deref_updPlayer_eq by assumption. reflexivity.
Qed.

(** ** movePlayer *)

Lemma newPositionOf_in_range st player distanceToGo :
  0 < board_size st <= INT_MAX ->
  0 <= newPositionOf st player distanceToGo < board_size st.
Proof.
  intros HL. unfold newPositionOf.
  pose proof (Z.mod_pos_bound (to_size_t (getPosition st player + distanceToGo))
                (board_size st) ltac:(lia)) as Hm.
  rewrite to_int_small; unfold INT_MIN, INT_MAX in *; lia.
Qed.

Lemma movePlayer_pre_lands st player distanceToGo :
  getCurrentPlayer st = Some player ->
  0 < board_size st <= INT_MAX ->
  movePlayer_pre distanceToGo st =
    MoveLanded
      (setPosition player (newPositionOf st player distanceToGo)
         (if passesGo st player distanceToGo
          then transferMoneyFromTo None (Some player) 200 st
          else st)).
Proof.
  intros Hcur HL. unfold movePlayer_pre. rewrite Hcur.
  pose proof (newPositionOf_in_range st player distanceToGo HL) as Hr.
  rewrite (to_int_small (board_size st)) by (unfold INT_MIN, INT_MAX in *; lia).
  destruct (Z.ltb_spec (newPositionOf st player distanceToGo) 0); [lia|].
  destruct (Z.geb_spec (newPositionOf st player distanceToGo) (board_size st)); [lia|].
  reflexivity.
Qed.

Lemma newPositionOf_forward st player d :
  0 < board_size st <= INT_MAX ->
  0 <= getPosition st player < board_size st ->
  0 < d <= INT_MAX ->
  newPositionOf st player d = (getPosition st player + d) mod board_size st.
Proof.
  intros HL Hp Hd. unfold newPositionOf.
  rewrite to_size_t_small by (unfold INT_MAX in *; lia).
  pose proof (Z.mod_pos_bound (getPosition st player + d) (board_size st) ltac:(lia)).
  apply to_int_small. unfold INT_MIN, INT_MAX in *; lia.
Qed.

(** C3. Whatever the distance, positive or negative, the new position that
    [movePlayer] computes lies in [0, boardLength), so that the
    out-of-bounds branch is never taken: with a current player the move
    always goes on to set the position. *)
Theorem movePlayer_never_out_of_bounds st distanceToGo :
  0 < board_size st <= INT_MAX ->
  (forall player, 0 <= newPositionOf st player distanceToGo < board_size st)
  /\ movePlayer_pre distanceToGo st <> MoveOutOfBounds
  /\ (forall player, getCurrentPlayer st = Some player ->
        exists st', movePlayer_pre distanceToGo st = MoveLanded st').
Proof.
  intros HL. split; [|split].
  - intros player. apply newPositionOf_in_range; assumption.
  - destruct (getCurrentPlayer st) as [player|] eqn:Hcur.
    + rewrite (movePlayer_pre_lands st player distanceToGo Hcur HL). discriminate.
    + unfold movePlayer_pre. rewrite Hcur. discriminate.
  - intros player Hcur. eexists. apply (movePlayer_pre_lands st player); assumption.
Qed.

(** C2. On a board of length L, from a position in [0, L), a move by d > 0
    sets the position of the current player to (position + d) mod L and
    credits the pass-Go bonus of 200 exactly when the new position is below
    the old one and the player has no turn left in jail; a move by d < 0
    credits nothing.  The state so obtained is the one handed to
    [handleSpace].  The distance is an [int], and so are the two sums that
    the function computes: position plus distance, and the money of the
    player plus the bonus. *)
Theorem movePlayer_position_and_bonus st player d :
  getCurrentPlayer st = Some player ->
  allocated st player ->
  0 < board_size st <= INT_MAX ->
  0 <= getPosition st player < board_size st ->
  is_int d ->
  is_int (getPosition st player + d) ->
  is_int (getMoney st player) ->
  is_int (getMoney st player + 200) ->
  exists st',
    movePlayer_pre d st = MoveLanded st'
    /\ (forall io fuel, movePlayer io (S fuel) d st = handleSpace io fuel st')
    /\ (0 < d ->
          let position' := (getPosition st player + d) mod board_size st in
          getPosition st' player = position'
          /\ (position' < getPosition st player /\ getRemainingTurnsInJail st player = 0 ->
                getMoney st' player = getMoney st player + 200)
          /\ (~ (position' < getPosition st player /\ getRemainingTurnsInJail st player = 0) ->
                getMoney st' player = getMoney st player))
    /\ (d < 0 -> getMoney st' player = getMoney st player).
Proof.
  intros Hcur Halloc HL Hp Hint Hsum _ _.
  eexists. split; [apply (movePlayer_pre_lands st player); assumption|].
  split.
  { intros io fuel. simpl. rewrite (movePlayer_pre_lands st player d Hcur HL).
    reflexivity. }
  split.
  - intros Hd position'.
    assert (Hnew : newPositionOf st player d = position')
      by (apply newPositionOf_forward; try assumption; unfold is_int in Hint; lia).
    split; [|split].
    + rewrite getPosition_setPosition; [assumption|].
      destruct (passesGo st player d); [|assumption].
      unfold transferMoneyFromTo, setMoney. apply allocated_updPlayer; assumption.
    + intros [Hlt Hjail]. rewrite getMoney_setPosition.
      unfold passesGo. rewrite Hnew, Hjail.
      destruct (Z.ltb_spec position' (getPosition st player)); [|lia].
      destruct (Z.gtb_spec d 0); [|lia]. simpl.
      apply getMoney_credit; assumption.
    + intros Hno. rewrite getMoney_setPosition.
      unfold passesGo. rewrite Hnew.
      destruct (Z.ltb_spec position' (getPosition st player)); [|reflexivity].
      destruct (Z.eqb_spec (getRemainingTurnsInJail st player) 0); [|reflexivity].
      exfalso. apply Hno. split; assumption.
  - intros Hd. rewrite getMoney_setPosition. unfold passesGo.
    destruct (Z.gtb_spec d 0); [lia|].
    rewrite andb_false_r. reflexivity.
Qed.

(** ** transferMoneyFromTo *)

(** C6. A player p with money m >= 0 who has to pay a > m ends with
    exactly 0 when the recipient is the bank or another player, and a
    recipient player still receives the whole amount; when the recipient is
    p itself, p is set to 0 and then credited, and ends with a.  A payment
    by the bank credits the recipient.  The function is total: there is no
    failing transfer.  The amount is an [int], and so is the money of the
    recipient with the amount added. *)
Theorem transferMoneyFromTo_bankrupt st p to a :
  allocated st p ->
  0 <= getMoney st p < a ->
  a <= INT_MAX ->
  (forall q, to = Some q -> q <> p ->
     is_int (getMoney st q) /\ is_int (getMoney st q + a)) ->
  let st' := transferMoneyFromTo (Some p) to a st in
  (to <> Some p -> getMoney st' p = 0)
  /\ (to = Some p -> getMoney st' p = a)
  /\ (forall q, to = Some q -> q <> p -> allocated st q ->
        getMoney st' q = getMoney st q + a)
  /\ (forall q b, allocated st q ->
        is_int b -> is_int (getMoney st q) -> is_int (getMoney st q + b) ->
        getMoney (transferMoneyFromTo None (Some q) b st) q = getMoney st q + b).
Proof.
  intros Hp [_ Hlt] _ _ st'.
  assert (Hdebit : getMoney (setMoney p (getMoney st p - a) st) p = getMoney st p - a).
  { unfold getMoney at 1, setMoney. rewrite deref_updPlayer_eq by assumption. reflexivity. }
  assert (Hst' : st' = match to with
                       | Some p2 =>
                           let s := setMoney p 0 (setMoney p (getMoney st p - a) st) in
                           setMoney p2 (getMoney s p2 + a) s
                       | None => setMoney p 0 (setMoney p (getMoney st p - a) st)
                       end).
  { unfold st', transferMoneyFromTo. rewrite Hdebit.
    destruct (Z.ltb_spec (getMoney st p - a) 0); [reflexivity|lia]. }
  split; [|split; [|split]].
  - intros Hto. rewrite Hst'. destruct to as [q|].
    + assert (q <> p) by congruence. cbv zeta.
      unfold getMoney at 1, setMoney at 1. rewrite deref_updPlayer_ne by assumption.
      unfold setMoney. rewrite deref_updPlayer_eq; [reflexivity|].
      apply allocated_updPlayer; assumption.
    + unfold getMoney, setMoney. rewrite deref_updPlayer_eq; [reflexivity|].
      apply allocated_updPlayer; assumption.
  - intros ->. rewrite Hst'. cbv zeta. unfold getMoney, setMoney.
    rewrite deref_updPlayer_eq by (do 2 apply allocated_updPlayer; assumption).
    cbn [money setMoney_].
    rewrite deref_updPlayer_eq by (apply allocated_updPlayer; assumption).
    reflexivity.
  - intros q -> Hne Hq. rewrite Hst'. cbv zeta.
    unfold getMoney, setMoney.
    rewrite deref_updPlayer_eq by (do 2 apply allocated_updPlayer; assumption).
    rewrite !deref_updPlayer_ne by congruence. reflexivity.
  - intros q b Hq _ _ _. apply getMoney_credit; assumption.
Qed.

(** C6 as it is written fails when the recipient is the payer: Alice, who
    has 40, pays 100 to herself; the debit leaves her 0, the credit adds
    100, and she ends with 100, not with 0. *)
Lemma transferMoneyFromTo_to_self :
  getMoney auction_example 0%nat = 40
  /\ getMoney (transferMoneyFromTo (Some 0%nat) (Some 0%nat) 100 auction_example) 0%nat
     = 100
  /\ getMoney (transferMoneyFromTo (Some 0%nat) (Some 0%nat) 100 auction_example) 0%nat
     <> 0.
Proof. vm_compute. repeat split; discriminate. Qed.

(** ** Player *)

(** C9. A new player has 1500 of money, stands on position 0, owns no
    station and no utility, has no turn to spend in jail and holds neither
    get-out-of-jail-free token. *)
Theorem newPlayer_defaults (_name : string) :
  money (newPlayer _name) = 1500
  /\ position (newPlayer _name) = 0
  /\ nbStationsOwned (newPlayer _name) = 0
  /\ nbUtilitiesOwned (newPlayer _name) = 0
  /\ remainingTurnsInJail (newPlayer _name) = 0
  /\ hasChanceGOJFC (newPlayer _name) = false
  /\ hasCommunityChestGOJFC (newPlayer _name) = false.
Proof. repeat split. Qed.

(** ** Jail *)

(** C10. A jailed player who holds a token and accepts to use it is freed;
    the chance token is the one consumed whenever the player holds it (the
    community-chest token then stays as it was), and the community-chest
    token is consumed only when the player has no chance token. *)
Theorem Jail_useCard_prefers_chance io st player :
  getCurrentPlayer st = Some player ->
  allocated st player ->
  0 < getRemainingTurnsInJail st player ->
  getHasChanceGOJFC st player || getHasCommunityChestGOJFC st player = true ->
  getYesNo io (tick st) = true ->
  exists st',
    Jail_action io st = Some st'
    /\ getRemainingTurnsInJail st' player = 0
    /\ (getHasChanceGOJFC st player = true ->
          getHasChanceGOJFC st' player = false
          /\ chanceGOJFCTaken st' = false
          /\ getHasCommunityChestGOJFC st' player = getHasCommunityChestGOJFC st player
          /\ communityChestGOJFCTaken st' = communityChestGOJFCTaken st)
    /\ (getHasChanceGOJFC st player = false ->
          getHasCommunityChestGOJFC st' player = false
          /\ communityChestGOJFCTaken st' = false
          /\ getHasChanceGOJFC st' player = false
          /\ chanceGOJFCTaken st' = chanceGOJFCTaken st).
Proof.
  intros Hcur Halloc Hjail Hcards Hyes.
  exists (Jail_useCard player (next_tick st)).
  split.
  { unfold Jail_action. rewrite Hcur.
    destruct (Z.gtb_spec (getRemainingTurnsInJail st player) 0); [|lia].
    rewrite Hcards, Hyes. reflexivity. }
  destruct (lookup_lt_is_Some_2 _ _ Halloc) as [pl Hpl].
  unfold Jail_useCard, getRemainingTurnsInJail, getHasChanceGOJFC,
    getHasCommunityChestGOJFC, setRemainingTurnsInJail, setHasChanceGOJFC,
    setHasCommunityChestGOJFC, deref, updPlayer in *.
  cbn [heap set_heap next_tick set_tick] in *.
  rewrite list_lookup_alter_eq, Hpl in *. cbn in Hcards |- *.
  destruct (hasChanceGOJFC pl) eqn:Hch; cbn;
    rewrite !list_lookup_alter_eq, Hpl; cbn; repeat split; congruence.
Qed.

(** ** Landing on Go *)

Lemma allocated_credit st q a p :
  allocated (transferMoneyFromTo None (Some q) a st) p <-> allocated st p.
Proof. unfold transferMoneyFromTo, setMoney. apply allocated_updPlayer. Qed.

(** C8. A player out of jail who moves forward from a position other than
    0 and lands exactly on the Go space at index 0 receives 400 in that
    move: 200 for passing Go in [movePlayer] and 200 from the action of
    the Go space.  The distance is an [int], and so are the sums that the
    move computes: position plus distance, and the money of the player
    plus the two bonuses. *)
Theorem movePlayer_lands_on_Go io fuel st player d :
  getCurrentPlayer st = Some player ->
  allocated st player ->
  board st !! 0%nat = Some Go ->
  board_size st <= INT_MAX ->
  0 < getPosition st player < board_size st ->
  getRemainingTurnsInJail st player = 0 ->
  0 < d <= INT_MAX ->
  is_int (getPosition st player + d) ->
  is_int (getMoney st player) ->
  is_int (getMoney st player + 400) ->
  (getPosition st player + d) mod board_size st = 0 ->
  exists st',
    movePlayer io (S (S fuel)) d st = Some st'
    /\ getPosition st' player = 0
    /\ getMoney st' player = getMoney st player + 400.
Proof.
  intros Hcur Halloc Hgo HL Hp Hjail Hd _ _ _ Hwrap.
  assert (HL' : 0 < board_size st <= INT_MAX) by lia.
  assert (Hnew : newPositionOf st player d = 0)
    by (rewrite newPositionOf_forward by lia; assumption).
  assert (Hpass : passesGo st player d = true).
  { unfold passesGo. rewrite Hnew, Hjail.
    destruct (Z.ltb_spec 0 (getPosition st player)); [|lia].
    destruct (Z.gtb_spec d 0); [reflexivity|lia]. }
  set (st1 := setPosition player 0 (transferMoneyFromTo None (Some player) 200 st)).
  assert (Hpre : movePlayer_pre d st = MoveLanded st1).
  { rewrite (movePlayer_pre_lands st player d Hcur HL'), Hnew, Hpass. reflexivity. }
  assert (Halloc1 : allocated st1 player).
  { unfold st1, setPosition. apply allocated_updPlayer, allocated_credit. assumption. }
  assert (Hpos1 : getPosition st1 player = 0).
  { unfold st1. apply getPosition_setPosition. apply allocated_credit. assumption. }
  exists (transferMoneyFromTo None (Some player) 200 st1).
  split; [|split].
  - cbn [movePlayer]. rewrite Hpre. cbn [handleSpace].
    replace (getCurrentPlayer st1) with (Some player) by (symmetry; exact Hcur).
    rewrite Hpos1. change (at_index (board st1) 0) with (board st !! 0%nat).
    rewrite Hgo. unfold Go_action.
    replace (getCurrentPlayer st1) with (Some player) by (symmetry; exact Hcur).
    reflexivity.
  - unfold getPosition in *. unfold transferMoneyFromTo, setMoney.
    rewrite deref_updPlayer_eq by assumption. exact Hpos1.
  - rewrite getMoney_credit by assumption.
    unfold st1. rewrite getMoney_setPosition, getMoney_credit by assumption. lia.
Qed.

(** ** The auction *)

Lemma same_but_tick_refl st : same_but_tick st st.
Proof. destruct st; reflexivity. Qed.

Lemma same_but_tick_next st st' : same_but_tick (next_tick st) st' -> same_but_tick st st'.
Proof. unfold same_but_tick. intros ->. destruct st; reflexivity. Qed.

Lemma same_but_tick_getMoney st st' p : same_but_tick st st' -> getMoney st' p = getMoney st p.
Proof. unfold same_but_tick. intros ->. reflexivity. Qed.

Section Auction.

Variable io : Oracle.
Hypothesis Hio : number_in_range io.

(** [B] bounds every bid that a player of the queue can make. *)
Lemma auction_loop_terminates (B : Z) :
  forall (n : nat) (q : list ptr) (b : Z) (st : GameState),
    q <> [] ->
    (forall p, In p q -> getMoney st p - 1 <= B) ->
    0 <= b ->
    (b = 0 \/ exists hb, last q = Some hb /\ b <= getMoney st hb - 1) ->
    (length q + Z.to_nat (B - b) <= n)%nat ->
    exists w b' st',
      auction_loop io n q b st = Some ([w], b', st')
      /\ same_but_tick st st'
      /\ In w q
      /\ b <= b'
      /\ (b' = 0 \/ b' <= getMoney st w - 1).
Proof.
  induction n as [|n IH]; intros q b st Hne Hbound Hb Hinv Hn.
  - destruct q; [congruence | simpl in Hn; lia].
  - destruct q as [|c rest]; [congruence|].
    destruct rest as [|c2 rest].
    + exists c, b, st. simpl. repeat split.
      * apply same_but_tick_refl.
      * left; reflexivity.
      * lia.
      * destruct Hinv as [->|(hb & Hlast & Hle)]; [left; reflexivity|].
        simpl in Hlast. injection Hlast as <-. right; assumption.
    + assert (Hlast : last (c :: c2 :: rest) = last (c2 :: rest)) by apply last_cons_cons.
      assert (Hout : forall st1, same_but_tick st st1 ->
                exists w b' st',
                  auction_loop io n (c2 :: rest) b st1 = Some ([w], b', st')
                  /\ same_but_tick st st' /\ In w (c :: c2 :: rest)
                  /\ b <= b' /\ (b' = 0 \/ b' <= getMoney st w - 1)).
      { intros st1 Hst1.
        destruct (IH (c2 :: rest) b st1) as (w & b' & st' & Hrun & Hsame & Hin & Hle & Hres).
        - discriminate.
        - intros p Hp. rewrite (same_but_tick_getMoney st st1) by assumption.
          apply Hbound. right; assumption.
        - assumption.
        - destruct Hinv as [->|(hb & Hl & Hle)]; [left; reflexivity|].
          right. exists hb. rewrite (same_but_tick_getMoney st st1) by assumption.
          split; [congruence|assumption].
        - simpl in Hn |- *. lia.
        - exists w, b', st'. repeat split; try assumption.
          + unfold same_but_tick in *. rewrite Hsame. rewrite Hst1. reflexivity.
          + right; assumption.
          + rewrite (same_but_tick_getMoney st st1) in Hres by assumption. assumption. }
      cbn [auction_loop].
      destruct (Z.leb_spec (getMoney st c - 1) b) as [Hpoor|Hrich].
      { apply Hout, same_but_tick_refl. }
      destruct (getYesNo io (tick st)).
      2: { apply Hout. unfold same_but_tick. destruct st; reflexivity. }
      set (st1 := next_tick st).
      set (b1 := getNumber io (tick st1) (b + 1) (getMoney st1 c - 1)).
      assert (Hb1 : b + 1 <= b1 <= getMoney st c - 1).
      { unfold b1. change (getMoney st1 c) with (getMoney st c). apply Hio. lia. }
      assert (HcB : getMoney st c - 1 <= B) by (apply Hbound; left; reflexivity).
      destruct (IH ((c2 :: rest) ++ [c]) b1 (next_tick st1))
        as (w & b' & st' & Hrun & Hsame & Hin & Hle & Hres).
      * destruct rest; discriminate.
      * intros p Hp. change (getMoney (next_tick st1) p) with (getMoney st p).
        apply Hbound. apply in_app_or in Hp. destruct Hp as [Hp|[<-|[]]].
        -- right; assumption.
        -- left; reflexivity.
      * lia.
      * right. exists c. split; [apply last_snoc|].
        change (getMoney (next_tick st1) c) with (getMoney st c). lia.
      * rewrite length_app. simpl in Hn |- *. lia.
      * exists w, b', st'. repeat split.
        -- exact Hrun.
        -- unfold same_but_tick in *. rewrite Hsame. destruct st; reflexivity.
        -- apply in_app_or in Hin. destruct Hin as [Hin|[<-|[]]].
           ++ right; assumption.
           ++ left; reflexivity.
        -- lia.
        -- exact Hres.
Qed.

(** When every answer is 'n', the queue empties from the front. *)
Lemma auction_loop_no_bid :
  (forall k, getYesNo io k = false) ->
  forall (n : nat) (q : list ptr) (b : Z) (st : GameState),
    q <> [] ->
    (length q <= n)%nat ->
    exists w st', auction_loop io n q b st = Some ([w], b, st') /\ last q = Some w.
Proof.
  intros Hno. induction n as [|n IH]; intros q b st Hne Hn.
  - destruct q; [congruence | simpl in Hn; lia].
  - destruct q as [|c rest]; [congruence|].
    destruct rest as [|c2 rest].
    + exists c, st. split; reflexivity.
    + cbn [auction_loop]. rewrite Hno. rewrite last_cons_cons.
      destruct (getMoney st c - 1 <=? b); apply IH; try discriminate; simpl in Hn |- *; lia.
Qed.

End Auction.

Lemma richest_bound st q p : In p q -> getMoney st p <= richest st q.
Proof.
  induction q as [|x q IH]; simpl; [tauto|].
  intros [->|Hin]; [lia|]. specialize (IH Hin). lia.
Qed.

Lemma richest_nonneg st q : 0 <= richest st q.
Proof. induction q; simpl; lia. Qed.

Lemma getMoney_affectOwnership st w this p :
  getMoney (affectOwnership w this st) p = getMoney st p.
Proof.
  unfold affectOwnership.
  destruct (board st !! this) as [s|]; [|reflexivity].
  destruct (asBuyable s); reflexivity.
Qed.

Lemma getOwner_affectOwnership st w this b :
  (board st !! this) ≫= asBuyable = Some b ->
  getOwner (affectOwnership w this st) this = Some w.
Proof.
  unfold affectOwnership, getOwner, setOwner, updSpace.
  destruct (board st !! this) as [s|] eqn:Hs; [|discriminate].
  cbn. intros Hb. rewrite Hb. cbn. rewrite list_lookup_alter_eq, Hs. cbn.
  destruct s; try discriminate; reflexivity.
Qed.

Lemma board_transferMoneyFromTo st p1 p2 a :
  board (transferMoneyFromTo p1 p2 a st) = board st.
Proof.
  unfold transferMoneyFromTo. destruct p1 as [p1|], p2 as [p2|]; try reflexivity;
    destruct (getMoney (setMoney p1 (getMoney st p1 - a) st) p1 <? 0); reflexivity.
Qed.

Lemma getMoney_pay st p a :
  allocated st p -> a <= getMoney st p ->
  getMoney (transferMoneyFromTo (Some p) None a st) p = getMoney st p - a.
Proof.
  intros Hp Ha. unfold transferMoneyFromTo.
  assert (Hdebit : getMoney (setMoney p (getMoney st p - a) st) p = getMoney st p - a).
  { unfold getMoney at 1, setMoney. rewrite deref_updPlayer_eq by assumption. reflexivity. }
  rewrite Hdebit. destruct (Z.ltb_spec (getMoney st p - a) 0); [lia|]. exact Hdebit.
Qed.


Lemma auction_example_io_in_range : number_in_range auction_example_io.
Proof. intros k lo hi H. simpl. lia. Qed.

(** C7. Whatever the answers, the auction among the active players ends
    with exactly one candidate left; that candidate pays the last bid to the
    bank and owns the space; when nobody bids, the last player of the
    rotation wins with a bid of 0.  With 40, 100 and 60 in hand and the
    second candidate alone bidding 55, the first and the third candidate
    leave at their first refusal and the second wins at 55. *)
Theorem auction_one_winner :
  (forall io st this,
     number_in_range io ->
     players st <> [] ->
     (forall p, In p (players st) -> allocated st p /\ 0 <= getMoney st p) ->
     exists fuel winner bid st1 st',
       auction_loop io fuel (players st) 0 st = Some ([winner], bid, st1)
       /\ auction_settle io fuel this st = Some (winner, bid, st')
       /\ st' = affectOwnership winner this (transferMoneyFromTo (Some winner) None bid st1)
       /\ In winner (players st)
       /\ 0 <= bid <= getMoney st winner
       /\ getMoney st' winner = getMoney st winner - bid
       /\ (forall b, (board st !! this) ≫= asBuyable = Some b ->
             getOwner st' this = Some winner)
       /\ ((forall k, getYesNo io k = false) ->
             last (players st) = Some winner /\ bid = 0))
  /\ (let io := auction_example_io in
      let st := auction_example in
      (forall n, auction_loop io (S n) [0; 1; 2]%nat 0 st
                 = auction_loop io n [1; 2]%nat 0 (set_tick 1 st))
      /\ (forall n, auction_loop io (S n) [1; 2]%nat 0 (set_tick 1 st)
                    = auction_loop io n [2; 1]%nat 55 (set_tick 3 st))
      /\ (forall n, auction_loop io (S n) [2; 1]%nat 55 (set_tick 3 st)
                    = auction_loop io n [1%nat] 55 (set_tick 4 st))
      /\ (forall n, auction_loop io n [1%nat] 55 (set_tick 4 st)
                    = Some ([1%nat], 55, set_tick 4 st))
      /\ exists st',
           auction_settle io 3 1 st = Some (1%nat, 55, st')
           /\ getOwner st' 1 = Some 1%nat
           /\ List.map (getMoney st') [0; 1; 2]%nat = [40; 45; 60]).
Proof.
  split.
  - intros io st this Hio Hne Hplayers.
    set (B := richest st (players st)).
    set (fuel := (length (players st) + Z.to_nat (B - 0))%nat).
    destruct (auction_loop_terminates io Hio B fuel (players st) 0 st)
      as (w & bid & st1 & Hrun & Hsame & Hin & Hle & Hres).
    + assumption.
    + intros p Hp. pose proof (richest_bound st (players st) p Hp). fold B in H. lia.
    + lia.
    + left; reflexivity.
    + unfold fuel. lia.
    + assert (Hmoney1 : forall p, getMoney st1 p = getMoney st p)
        by (intros p; apply same_but_tick_getMoney; assumption).
      assert (Hbid : 0 <= bid <= getMoney st w).
      { destruct (Hplayers w Hin) as [_ Hpos]. lia. }
      assert (Halloc1 : allocated st1 w).
      { destruct (Hplayers w Hin) as [Ha _]. unfold same_but_tick in Hsame.
        rewrite Hsame. exact Ha. }
      exists fuel, w, bid, st1,
        (affectOwnership w this (transferMoneyFromTo (Some w) None bid st1)).
      split; [exact Hrun|]. split.
      { unfold auction_settle. rewrite Hrun. reflexivity. }
      split; [reflexivity|]. split; [exact Hin|]. split; [exact Hbid|]. split.
      { rewrite getMoney_affectOwnership, getMoney_pay; rewrite ?Hmoney1; try assumption; lia. }
      split.
      { intros b Hb. apply getOwner_affectOwnership with (b := b).
        rewrite board_transferMoneyFromTo.
        unfold same_but_tick in Hsame. rewrite Hsame. exact Hb. }
      intros Hno.
      destruct (auction_loop_no_bid io Hno fuel (players st) 0 st Hne)
        as (w' & st'' & Hrun' & Hlast); [unfold fuel; lia|].
      rewrite Hrun in Hrun'. injection Hrun' as -> -> _.
      split; [exact Hlast | reflexivity].
  - cbv zeta. split; [intros n; vm_compute; reflexivity|].
    split; [intros n; vm_compute; reflexivity|].
    split; [intros n; vm_compute; reflexivity|].
    split; [intros [|n]; reflexivity|].
    eexists. split; [vm_compute; reflexivity|]. split; vm_compute; reflexivity.
Qed.

(** ** Building *)

Lemma getNbBuildings_setNbBuildings_eq st i n :
  isProperty st i -> getNbBuildings (setNbBuildings i n st) i = n.
Proof.
  unfold isProperty, getNbBuildings, setNbBuildings, updSpace. cbn.
  rewrite list_lookup_alter_eq.
  destruct (board st !! i) as [[]|]; cbn; tauto.
Qed.

Lemma getNbBuildings_setNbBuildings_ne st i j n :
  i <> j -> getNbBuildings (setNbBuildings i n st) j = getNbBuildings st j.
Proof.
  intros H. unfold getNbBuildings, setNbBuildings, updSpace. cbn.
  rewrite list_lookup_alter_ne by assumption. reflexivity.
Qed.

Lemma isProperty_setNbBuildings st i j n :
  isProperty st j -> isProperty (setNbBuildings i n st) j.
Proof.
  unfold isProperty, setNbBuildings, updSpace. cbn.
  destruct (Nat.eq_dec i j) as [->|Hne].
  - rewrite list_lookup_alter_eq. destruct (board st !! j) as [[]|]; cbn; tauto.
  - rewrite list_lookup_alter_ne by assumption. tauto.
Qed.

Lemma isProperty_same_board st st' i :
  board st' = board st -> isProperty st i -> isProperty st' i.
Proof. unfold isProperty. intros ->. tauto. Qed.

(** The levels of three distinct properties after the commit. *)
Lemma commitBuildings_three st p1 p2 p3 l1 l2 l3 :
  NoDup [p1; p2; p3] ->
  isProperty st p1 -> isProperty st p2 -> isProperty st p3 ->
  List.map (getNbBuildings (commitBuildings [(p1, l1); (p2, l2); (p3, l3)] st)) [p1; p2; p3]
  = [l1; l2; l3].
Proof.
  intros Hnd H1 H2 H3.
  destruct (proj1 (NoDup_cons _ _) Hnd) as [Hn1 Hnd'].
  destruct (proj1 (NoDup_cons _ _) Hnd') as [Hn2 _].
  apply not_elem_of_cons in Hn1 as [H12 Hn1].
  apply not_elem_of_cons in Hn1 as [H13 _].
  apply not_elem_of_cons in Hn2 as [H23 _].
  unfold commitBuildings. cbn [fold_left fst snd List.map].
  rewrite !(getNbBuildings_setNbBuildings_ne _ p3) by congruence.
  rewrite !(getNbBuildings_setNbBuildings_ne _ p2 p1) by congruence.
  rewrite !getNbBuildings_setNbBuildings_eq; [reflexivity | | | ];
    repeat apply isProperty_setNbBuildings; assumption.
Qed.

Lemma requested_three io st p1 p2 p3 player :
  exists l1 l2 l3,
    let r := requested io [p1; p2; p3] player st in
    buildingsPerProperty r = [(p1, l1); (p2, l2); (p3, l3)]
    /\ minBuildings r = Z.min (Z.min (Z.min INT_MAX l1) l2) l3
    /\ maxBuildings r = Z.max (Z.max (Z.max INT_MIN l1) l2) l3
    /\ askBuildings io [p1; p2; p3] (getHousePrice st p1) player emptyRequest st
       = (r, set_tick (S (S (S (tick st)))) st).
Proof. do 3 eexists. cbn. repeat split. Qed.

(** One call for a group of three, with what was asked. *)
Lemma buildOnProperties_once_three io st p1 p2 p3 player attempts :
  attempts <= 50 ->
  getHousePrice st p1 <> 0 ->
  let properties := [p1; p2; p3] in
  let r := requested io properties player st in
  let asked := set_tick (S (S (S (tick st)))) st in
  let cost := requestedCost io properties player st in
  buildOnProperties_once io properties player attempts st
  = if maxBuildings r - minBuildings r >? 1 then Some (BuildRetry asked)
    else if cost >? getMoney st player then Some (BuildNotEnoughMoney asked)
    else Some (BuildCommitted
                 (commitBuildings (buildingsPerProperty r)
                    (transferMoneyFromTo (Some player) None cost asked))).
Proof.
  intros Hatt Hhp properties r asked cost.
  destruct (requested_three io st p1 p2 p3 player) as (l1 & l2 & l3 & _ & _ & _ & Hask).
  unfold buildOnProperties_once.
  destruct (Z.gtb_spec attempts 50); [lia|].
  unfold properties at 1. destruct (Z.eqb_spec (getHousePrice st p1) 0); [contradiction|].
  fold properties. unfold properties at 1. rewrite Hask. reflexivity.
Qed.

(** C4, as the code has it.  For a group of three properties: a request
    that leads to the levels [2,2,3] or [2,3,3] is accepted when the player
    can pay for it, the player is debited once and the three levels are
    set; a request that leads to [2,2,4] is rejected, nothing is changed
    and the prompts are made again. *)
Theorem buildOnProperties_three io fuel st p1 p2 p3 player attempts :
  attempts <= 50 ->
  getHousePrice st p1 <> 0 ->
  let properties := [p1; p2; p3] in
  let asked := set_tick (S (S (S (tick st)))) st in
  let cost := requestedCost io properties player st in
  let built :=
    commitBuildings (buildingsPerProperty (requested io properties player st))
                    (transferMoneyFromTo (Some player) None cost asked) in
  let accepted (wanted : list Z) :=
    requestedLevels io properties player st = wanted ->
    cost <= getMoney st player ->
    buildOnProperties io (S fuel) properties player attempts st = Some built
    /\ (allocated st player -> getMoney built player = getMoney st player - cost)
    /\ (NoDup properties -> Forall (isProperty st) properties ->
          List.map (getNbBuildings built) properties = wanted) in
  accepted [2; 2; 3]
  /\ accepted [2; 3; 3]
  /\ (requestedLevels io properties player st = [2; 2; 4] ->
        buildOnProperties io (S fuel) properties player attempts st
        = buildOnProperties io fuel properties player (attempts + 1) asked).
Proof.
  intros Hatt Hhp properties asked cost built accepted.
  pose proof (buildOnProperties_once_three io st p1 p2 p3 player attempts Hatt Hhp) as Honce.
  destruct (requested_three io st p1 p2 p3 player) as (l1 & l2 & l3 & Hr & Hmin & Hmax & _).
  cbv zeta in Honce, Hr, Hmin, Hmax. fold properties in Honce, Hr, Hmin, Hmax.
  fold cost asked in Honce. rewrite Hmin, Hmax in Honce.
  assert (Hlv : requestedLevels io properties player st = [l1; l2; l3])
    by (unfold requestedLevels; rewrite Hr; reflexivity).
  assert (Hacc : forall wanted,
            (wanted = [2; 2; 3] \/ wanted = [2; 3; 3]) -> accepted wanted).
  { intros wanted Hw Hl Hc. rewrite Hlv in Hl.
    assert (Hcmp : (Z.max (Z.max (Z.max INT_MIN l1) l2) l3
                    - Z.min (Z.min (Z.min INT_MAX l1) l2) l3 >? 1) = false).
    { destruct Hw as [-> | ->]; injection Hl as -> -> ->; reflexivity. }
    rewrite Hcmp in Honce.
    destruct (Z.gtb_spec cost (getMoney st player)); [lia|].
    split; [|split].
    - cbn [buildOnProperties]. rewrite Honce. reflexivity.
    - intros Halloc. unfold built, commitBuildings.
      assert (Hfold : forall l s, getMoney (fold_left
                (fun st0 e => setNbBuildings (fst e) (snd e) st0) l s) player
                = getMoney s player).
      { induction l as [|e l IH]; intros s; [reflexivity|]. cbn [fold_left]. rewrite IH.
        reflexivity. }
      rewrite Hfold. change (getMoney st player) with (getMoney asked player).
      apply getMoney_pay; [exact Halloc | exact Hc].
    - intros Hnd Hall. unfold built. rewrite Hr, <- Hl.
      destruct (proj1 (Forall_cons _ _ _) Hall) as [H1 Hall1].
      destruct (proj1 (Forall_cons _ _ _) Hall1) as [H2 Hall2].
      destruct (proj1 (Forall_cons _ _ _) Hall2) as [H3 _].
      apply commitBuildings_three; try assumption;
        (eapply isProperty_same_board; [apply board_transferMoneyFromTo | assumption]). }
  split; [apply Hacc; left; reflexivity|].
  split; [apply Hacc; right; reflexivity|].
  intros Hl. rewrite Hlv in Hl. injection Hl as -> -> ->.
  cbn [buildOnProperties]. rewrite Honce. reflexivity.
Qed.

(** C4 as it is written fails: the request that leads to [2,2,3] is not
    rejected.  Alice, who has two houses on each light blue property, asks
    for one more house on the third: the house is built and paid. *)
Lemma levels_2_2_3_are_accepted :
  let io := typed [0; 0; 1] in
  requestedLevels io lightBlue 0%nat build_example = [2; 2; 3]
  /\ (forall st', buildOnProperties_once io lightBlue 0%nat 0 build_example
                  <> Some (BuildRetry st'))
  /\ exists st',
       buildOnProperties_once io lightBlue 0%nat 0 build_example = Some (BuildCommitted st')
       /\ buildOnProperties io 1 lightBlue 0%nat 0 build_example = Some st'
       /\ levels st' = [2; 2; 3]
       /\ getMoney st' 0%nat = 1450.
Proof.
  cbv zeta. split; [vm_compute; reflexivity|]. split.
  - intros st'. vm_compute. discriminate.
  - eexists. split; [vm_compute; reflexivity|].
    split; [vm_compute; reflexivity|]. split; vm_compute; reflexivity.
Qed.

(** ** Drawing a card *)

(** What a draw does once the deck is shuffled: both draws look at the
    flag of the chance deck. *)
Lemma drawChanceCard_shuffled io fuel st card rest :
  chanceDeck st <> [] ->
  shuffle io (tick st) (chanceDeck st) = card :: rest ->
  drawChanceCard io (S fuel) st =
    let st' := next_tick (set_chanceDeck (card :: rest) st) in
    if isGOJFC card && chanceGOJFCTaken st
    then drawChanceCard io fuel st'
    else Card_action io fuel card st'.
Proof.
  intros Hne Hsh. cbn [drawChanceCard].
  destruct (chanceDeck st) as [|c0 deck] eqn:Hdeck; [congruence|].
  cbn. rewrite Hsh. reflexivity.
Qed.

Lemma drawCommunityChestCard_shuffled io fuel st card rest :
  communityChestDeck st <> [] ->
  shuffle io (tick st) (communityChestDeck st) = card :: rest ->
  drawCommunityChestCard io (S fuel) st =
    let st' := next_tick (set_communityChestDeck (card :: rest) st) in
    if isGOJFC card && chanceGOJFCTaken st
    then drawCommunityChestCard io fuel st'
    else Card_action io fuel card st'.
Proof.
  intros Hne Hsh. cbn [drawCommunityChestCard].
  destruct (communityChestDeck st) as [|c0 deck] eqn:Hdeck; [congruence|].
  cbn. rewrite Hsh. reflexivity.
Qed.

(** The chance draw draws again when the card it recognises is held. *)
Lemma drawChanceCard_redraws io fuel st card rest :
  chanceGOJFCTaken st = true ->
  chanceDeck st <> [] ->
  shuffle io (tick st) (chanceDeck st) = card :: rest ->
  isGOJFC card = true ->
  drawChanceCard io (S fuel) st
  = drawChanceCard io fuel (next_tick (set_chanceDeck (card :: rest) st)).
Proof.
  intros Htaken Hne Hsh Hcard.
  rewrite (drawChanceCard_shuffled io fuel st card rest Hne Hsh), Hcard, Htaken.
  reflexivity.
Qed.

(** C1 fails on the community-chest deck.  Alice holds the community-chest
    token (the flag of the deck is set, the flag of the chance deck is not)
    and Bob draws the get-out-of-jail-free card: the card is not drawn
    again, its effect runs and Bob holds the token as well. *)
Theorem drawCommunityChestCard_hands_out_held_token :
  let io := scripted true 1 2 (fun deck => deck) in
  communityChestGOJFCTaken gojfc_example = true
  /\ chanceGOJFCTaken gojfc_example = false
  /\ List.map isGOJFC (communityChestDeck gojfc_example) = [true; false]
  /\ List.map (getHasCommunityChestGOJFC gojfc_example) [0; 1]%nat = [true; false]
  /\ exists st',
       drawCommunityChestCard io 2 gojfc_example = Some st'
       /\ List.map (getHasCommunityChestGOJFC st') [0; 1]%nat = [true; true].
Proof.
  cbv zeta. repeat split; try (vm_compute; reflexivity).
  eexists. split; vm_compute; reflexivity.
Qed.

(** The cards of [main.cc] read "Get out of Jail Free": neither draw
    recognises them. *)
Lemma shipped_cards_are_not_recognised :
  forallb (fun c => negb (isGOJFC c)) (createChanceDeck ++ createCommunityChestDeck) = true.
Proof. vm_compute. reflexivity. Qed.

(** With the chance deck of [main.cc], the chance token held by Alice is
    handed to Bob too. *)
Lemma drawChanceCard_shipped_deck_hands_out_held_token :
  let io := scripted true 1 2 cutAtNinth in
  chanceGOJFCTaken chance_held_example = true
  /\ List.map (getHasChanceGOJFC chance_held_example) [0; 1]%nat = [true; false]
  /\ exists st',
       drawChanceCard io 2 chance_held_example = Some st'
       /\ option_map _actionFunction (head (chanceDeck st')) = Some (Some KeepChanceGOJFC)
       /\ List.map (getHasChanceGOJFC st') [0; 1]%nat = [true; true].
Proof.
  cbv zeta. repeat split; try (vm_compute; reflexivity).
  eexists. split; [vm_compute; reflexivity|]. split; vm_compute; reflexivity.
Qed.

(** ** The end of a turn *)

(** C5 fails when two bankrupt players follow each other in the list.
    Charlie rolls 1 and 2, lands on the community chest of index 17 and
    draws the birthday card; Alice and Bob, who had 10 and 5, are left with
    0.  The check removes Alice and steps over Bob, who is still active,
    with no money, when the turn is over (and is the next to play). *)
Theorem playTurn_leaves_bankrupt_player :
  let io := scripted false 1 2 reverse in
  players birthday_example = [0; 1; 2]%nat
  /\ exists st',
       playTurn io 5 birthday_example = Some st'
       /\ List.map (getMoney st') [0; 1; 2]%nat = [0; 0; 1520]
       /\ players st' = [1; 2]%nat
       /\ currentPlayer st' = Some 1%nat.
Proof.
  cbv zeta. split; [reflexivity|].
  eexists. split; [vm_compute; reflexivity|]. repeat split; vm_compute; reflexivity.
Qed.

(** The loop alone: with 0 for the first two players of three, the second
    is never looked at. *)
Lemma checkBankruptcy_skips_the_next_player :
  let st := setMoney 1%nat 0 (setMoney 0%nat 0 threePlayers) in
  let st' := checkBankruptcy (getNbPlayers st) 0 st in
  players st' = [1; 2]%nat /\ getMoney st' 1%nat = 0.
Proof. cbv zeta. split; vm_compute; reflexivity. Qed.

(** The turn of a jailed player returns before the check: Alice pays the
    fine of 50 with her last 50 and stays in the list. *)
Lemma playTurn_in_jail_skips_the_check :
  let io := scripted true 1 2 (fun deck => deck) in
  exists st',
    playTurn io 2 jail_example = Some st'
    /\ getMoney st' 0%nat = 0
    /\ players st' = [0; 1; 2]%nat
    /\ currentPlayer st' = Some 1%nat.
Proof.
  cbv zeta. eexists. split; [vm_compute; reflexivity|]. repeat split; vm_compute; reflexivity.
Qed.

(** ** Instances *)

Lemma threePlayers_board_size : 0 < board_size threePlayers <= INT_MAX.
Proof. vm_compute. split; [reflexivity | discriminate]. Qed.

(** From "Compagnie des eaux" (28), a move of 15 wraps to "Rue Lecourbe"
    (3) and pays the bonus; a move of -3 pays nothing. *)
Lemma movePlayer_position_and_bonus_witness :
  let st := setPosition 0%nat 28 threePlayers in
  (exists st', movePlayer_pre 15 st = MoveLanded st'
               /\ getPosition st' 0%nat = 3 /\ getMoney st' 0%nat = 1700)
  /\ (exists st', movePlayer_pre (-3) st = MoveLanded st' /\ getMoney st' 0%nat = 1500).
Proof.
  cbv zeta.
  assert (Hcur : getCurrentPlayer (setPosition 0%nat 28 threePlayers) = Some 0%nat)
    by reflexivity.
  assert (Halloc : allocated (setPosition 0%nat 28 threePlayers) 0%nat)
    by (unfold allocated; simpl; lia).
  assert (Hpos : 0 <= getPosition (setPosition 0%nat 28 threePlayers) 0%nat
                 < board_size (setPosition 0%nat 28 threePlayers))
    by (vm_compute; split; [discriminate | reflexivity]).
  assert (Hm : is_int (getMoney (setPosition 0%nat 28 threePlayers) 0%nat))
    by (vm_compute; split; discriminate).
  assert (Hm' : is_int (getMoney (setPosition 0%nat 28 threePlayers) 0%nat + 200))
    by (vm_compute; split; discriminate).
  split.
  - destruct (movePlayer_position_and_bonus _ 0%nat 15 Hcur Halloc
                threePlayers_board_size Hpos) as (st' & Hpre & _ & Hfwd & _);
      try assumption; try (vm_compute; split; discriminate).
    exists st'. split; [exact Hpre|].
    destruct Hfwd as (Hp & Hbonus & _); [lia|].
    split; [exact Hp|]. apply Hbonus. vm_compute. split; reflexivity.
  - destruct (movePlayer_position_and_bonus _ 0%nat (-3) Hcur Halloc
                threePlayers_board_size Hpos) as (st' & Hpre & _ & _ & Hback);
      try assumption; try (vm_compute; split; discriminate).
    exists st'. split; [exact Hpre|]. apply Hback. lia.
Defined.

Lemma movePlayer_never_out_of_bounds_witness :
  (forall player, 0 <= newPositionOf threePlayers player (-3) < board_size threePlayers)
  /\ movePlayer_pre (-3) threePlayers <> MoveOutOfBounds
  /\ (forall player, getCurrentPlayer threePlayers = Some player ->
        exists st', movePlayer_pre (-3) threePlayers = MoveLanded st').
Proof. apply (movePlayer_never_out_of_bounds threePlayers (-3) threePlayers_board_size). Defined.

(** The sum is taken modulo the board size after its conversion to an
    unsigned integer: three steps back from the community chest of index 2
    lead to index 15, inside the board. *)
Example move_back_three_from_2 :
  newPositionOf (setPosition 0%nat 2 threePlayers) 0%nat (-3) = 15.
Proof. vm_compute. reflexivity. Qed.

(** Alice, with 40, has to pay 100 to Bob. *)
Lemma transferMoneyFromTo_bankrupt_witness :
  let st' := transferMoneyFromTo (Some 0%nat) (Some 1%nat) 100 auction_example in
  getMoney st' 0%nat = 0 /\ getMoney st' 1%nat = 200.
Proof.
  cbv zeta.
  assert (Ha0 : allocated auction_example 0%nat) by (unfold allocated; simpl; lia).
  assert (Ha1 : allocated auction_example 1%nat) by (unfold allocated; simpl; lia).
  assert (Hlt : 0 <= getMoney auction_example 0%nat < 100)
    by (vm_compute; split; [discriminate | reflexivity]).
  assert (Hmax : 100 <= INT_MAX) by (unfold INT_MAX; lia).
  assert (Hint : forall q, Some 1%nat = Some q -> q <> 0%nat ->
            is_int (getMoney auction_example q) /\ is_int (getMoney auction_example q + 100)).
  { intros q Hq _. injection Hq as <-. vm_compute. repeat split; discriminate. }
  destruct (transferMoneyFromTo_bankrupt auction_example 0%nat (Some 1%nat) 100
              Ha0 Hlt Hmax Hint) as (H0 & _ & Hto & _).
  split; [apply H0; discriminate|].
  rewrite (Hto 1%nat eq_refl ltac:(discriminate) Ha1). vm_compute. reflexivity.
Defined.

Lemma auction_one_winner_witness :
  exists fuel winner bid st1 st',
    auction_loop auction_example_io fuel (players auction_example) 0 auction_example
    = Some ([winner], bid, st1)
    /\ auction_settle auction_example_io fuel 1 auction_example = Some (winner, bid, st')
    /\ In winner (players auction_example)
    /\ getMoney st' winner = getMoney auction_example winner - bid
    /\ getOwner st' 1 = Some winner.
Proof.
  destruct (proj1 auction_one_winner auction_example_io auction_example 1%nat)
    as (fuel & winner & bid & st1 & st' & Hloop & Hsettle & _ & Hin & _ & Hpay & Hown & _).
  - exact auction_example_io_in_range.
  - discriminate.
  - intros p Hp. unfold allocated. simpl in Hp.
    destruct Hp as [<-|[<-|[<-|[]]]]; (split; [simpl; lia | vm_compute; discriminate]).
  - exists fuel, winner, bid, st1, st'. repeat split; try assumption.
    eapply Hown. vm_compute. reflexivity.
Defined.

(** From "Gare Saint-Lazare" (35), a move of 5 lands on Go. *)
Lemma movePlayer_lands_on_Go_witness :
  let st := setPosition 0%nat 35 threePlayers in
  exists st',
    movePlayer (scripted false 1 2 (fun deck => deck)) 2 5 st = Some st'
    /\ getPosition st' 0%nat = 0
    /\ getMoney st' 0%nat = getMoney st 0%nat + 400.
Proof.
  cbv zeta.
  apply (movePlayer_lands_on_Go (scripted false 1 2 (fun deck => deck)) 0
           (setPosition 0%nat 35 threePlayers) 0%nat 5).
  - reflexivity.
  - unfold allocated; simpl; lia.
  - reflexivity.
  - vm_compute. discriminate.
  - vm_compute. split; reflexivity.
  - reflexivity.
  - unfold INT_MAX; lia.
  - vm_compute. split; discriminate.
  - vm_compute. split; discriminate.
  - vm_compute. split; discriminate.
  - vm_compute. reflexivity.
Defined.

Lemma Jail_useCard_prefers_chance_witness :
  exists st',
    Jail_action (scripted true 1 2 (fun deck => deck)) both_tokens_example = Some st'
    /\ getRemainingTurnsInJail st' 0%nat = 0
    /\ getHasChanceGOJFC st' 0%nat = false
    /\ chanceGOJFCTaken st' = false
    /\ getHasCommunityChestGOJFC st' 0%nat = true
    /\ communityChestGOJFCTaken st' = true.
Proof.
  destruct (Jail_useCard_prefers_chance (scripted true 1 2 (fun deck => deck))
              both_tokens_example 0%nat) as (st' & Hrun & Hfree & Hchance & _).
  - reflexivity.
  - unfold allocated; simpl; lia.
  - vm_compute. reflexivity.
  - reflexivity.
  - reflexivity.
  - exists st'. split; [exact Hrun|]. split; [exact Hfree|].
    destruct (Hchance eq_refl) as (H1 & H2 & H3 & H4).
    rewrite H1, H2, H3, H4. repeat split.
Defined.

(** Alice asks for [2,2,3], then for [2,3,3], then for [2,2,4] followed by
    [2,3,3]. *)
Lemma buildOnProperties_three_witness :
  (exists st', buildOnProperties (typed [0; 0; 1]) 1 lightBlue 0%nat 0 build_example = Some st'
               /\ levels st' = [2; 2; 3] /\ getMoney st' 0%nat = 1450)
  /\ (exists st', buildOnProperties (typed [0; 1; 1]) 1 lightBlue 0%nat 0 build_example = Some st'
                  /\ levels st' = [2; 3; 3] /\ getMoney st' 0%nat = 1400)
  /\ buildOnProperties (typed [0; 0; 2; 0; 1; 1]) 2 lightBlue 0%nat 0 build_example
     = buildOnProperties (typed [0; 0; 2; 0; 1; 1]) 1 lightBlue 0%nat 1
         (set_tick 3 build_example).
Proof.
  assert (Hatt : 0 <= 50) by lia.
  assert (Hhp : getHousePrice build_example 6 <> 0) by (vm_compute; discriminate).
  assert (Halloc : allocated build_example 0%nat) by (unfold allocated; simpl; lia).
  assert (Hnd : NoDup lightBlue) by (apply (bool_decide_unpack _); vm_compute; exact I).
  assert (Hprop : Forall (isProperty build_example) lightBlue)
    by (repeat constructor).
  split; [|split].
  - destruct (buildOnProperties_three (typed [0; 0; 1]) 0 build_example 6 8 9 0%nat 0
                Hatt Hhp) as (Hacc & _ & _).
    destruct Hacc as (Hrun & Hmoney & Hlevels);
      [vm_compute; reflexivity | vm_compute; discriminate |].
    eexists. split; [exact Hrun|]. split.
    + exact (Hlevels Hnd Hprop).
    + rewrite (Hmoney Halloc). vm_compute. reflexivity.
  - destruct (buildOnProperties_three (typed [0; 1; 1]) 0 build_example 6 8 9 0%nat 0
                Hatt Hhp) as (_ & Hacc & _).
    destruct Hacc as (Hrun & Hmoney & Hlevels);
      [vm_compute; reflexivity | vm_compute; discriminate |].
    eexists. split; [exact Hrun|]. split.
    + exact (Hlevels Hnd Hprop).
    + rewrite (Hmoney Halloc). vm_compute. reflexivity.
  - destruct (buildOnProperties_three (typed [0; 0; 2; 0; 1; 1]) 1 build_example 6 8 9 0%nat 0
                Hatt Hhp) as (_ & _ & Hrej).
    apply Hrej. vm_compute. reflexivity.
Defined.

(** * More of the engine *)

(** ** PlayerManager *)

Lemma find_index_lookup (l : list nat) i p :
  NoDup l -> l !! i = Some p -> find_index (Some p) l = i.
Proof.
  revert i. induction l as [|x l IH]; intros i Hnd Hi; [discriminate|].
  destruct (proj1 (NoDup_cons _ _) Hnd) as [Hx Hnd'].
  destruct i as [|i]; simpl in *.
  - injection Hi as ->. rewrite Nat.eqb_refl. reflexivity.
  - destruct (Nat.eqb_spec x p) as [->|_].
    + exfalso. apply Hx. eapply list_elem_of_lookup_2. exact Hi.
    + f_equal. apply IH; assumption.
Qed.

Lemma find_index_absent (l : list nat) c :
  (forall p, c = Some p -> p ∉ l) -> find_index c l = length l.
Proof.
  intros Hc. induction l as [|x l IH]; [reflexivity|].
  simpl. destruct c as [p|].
  - destruct (Nat.eqb_spec x p) as [->|_].
    + exfalso. apply (Hc p eq_refl). left.
    + f_equal. apply IH. intros q Hq Hin. apply (Hc q Hq). right. exact Hin.
  - f_equal. apply IH. intros q Hq. discriminate.
Qed.

Lemma setNextPlayer_unfold st :
  players st <> [] ->
  setNextPlayer st =
    Some (setCurrentPlayer
            (players st !! ((find_index (currentPlayer st) (players st) + 1)
                            mod length (players st))%nat) st).
Proof. unfold setNextPlayer. destruct (players st); [congruence | reflexivity]. Qed.

Lemma setNextPlayer_next st i p :
  NoDup (players st) ->
  players st !! i = Some p ->
  currentPlayer st = Some p ->
  exists q,
    players st !! ((i + 1) mod length (players st))%nat = Some q
    /\ setNextPlayer st = Some (setCurrentPlayer (Some q) st).
Proof.
  intros Hnd Hi Hcur.
  assert (Hne : players st <> []) by (intros E; rewrite E in Hi; discriminate).
  assert (Hlen : (0 < length (players st))%nat).
  { destruct (players st); [congruence | simpl; lia]. }
  destruct (lookup_lt_is_Some_2 (players st) ((i + 1) mod length (players st))%nat)
    as [q Hq].
  { apply Nat.mod_upper_bound. lia. }
  exists q. split; [exact Hq|].
  rewrite setNextPlayer_unfold by assumption.
  rewrite Hcur, (find_index_lookup _ i p Hnd Hi), Hq. reflexivity.
Qed.

(** X1. When the player to move is the [i]-th of the active players,
    [setNextPlayer] gives the move to the next one in the list, to the first
    one after the last. *)
Theorem setNextPlayer_rotates st i p :
  NoDup (players st) ->
  players st !! i = Some p ->
  currentPlayer st = Some p ->
  exists q,
    players st !! ((i + 1) mod length (players st))%nat = Some q
    /\ setNextPlayer st = Some (setCurrentPlayer (Some q) st).
Proof. apply setNextPlayer_next. Qed.

(** X2. When the player to move is not in the list any more (or there is none),
    the search returns the end of the list and the move goes to the player
    at index 1, at index 0 when one player is left: with two players or
    more the first of the list is passed over. *)
Theorem setNextPlayer_after_removal st :
  players st <> [] ->
  (forall p, currentPlayer st = Some p -> p ∉ players st) ->
  exists q,
    players st !! (1 mod length (players st))%nat = Some q
    /\ setNextPlayer st = Some (setCurrentPlayer (Some q) st).
Proof.
  intros Hne Hgone.
  assert (Hlen : (0 < length (players st))%nat).
  { destruct (players st); [congruence | simpl; lia]. }
  destruct (lookup_lt_is_Some_2 (players st) (1 mod length (players st))%nat) as [q Hq].
  { apply Nat.mod_upper_bound. lia. }
  exists q. split; [exact Hq|].
  rewrite setNextPlayer_unfold by assumption.
  rewrite (find_index_absent _ _ Hgone).
  replace ((length (players st) + 1) mod length (players st))%nat
    with (1 mod length (players st))%nat.
  - rewrite Hq. reflexivity.
  - rewrite <- (Nat.Div0.add_mod_idemp_l (length (players st)) 1).
    rewrite Nat.Div0.mod_same. reflexivity.
Qed.

Lemma setCurrentPlayer_same st c : currentPlayer st = c -> setCurrentPlayer c st = st.
Proof. intros <-. destruct st; reflexivity. Qed.

Lemma setNextPlayer_times_spec st n i p k :
  NoDup (players st) ->
  length (players st) = n ->
  players st !! i = Some p ->
  currentPlayer st = Some p ->
  setNextPlayer_times k st
  = Some (setCurrentPlayer (players st !! ((i + k) mod n)%nat) st).
Proof.
  intros Hnd Hn. revert st i p Hnd Hn.
  induction k as [|k IH]; intros st i p Hnd Hn Hi Hcur.
  - simpl. rewrite Nat.add_0_r.
    assert (i < n)%nat by (rewrite <- Hn; eapply lookup_lt_Some; exact Hi).
    rewrite Nat.mod_small by assumption. rewrite Hi.
    rewrite setCurrentPlayer_same by assumption. reflexivity.
  - destruct (setNextPlayer_next st i p Hnd Hi Hcur) as (q & Hq & Hnext).
    cbn [setNextPlayer_times]. rewrite Hnext.
    rewrite (IH (setCurrentPlayer (Some q) st) ((i + 1) mod n)%nat q); try assumption.
    + cbn [players setCurrentPlayer]. f_equal.
      replace ((i + 1) mod n + k)%nat with (k + (i + 1) mod n)%nat by lia.
      rewrite Nat.Div0.add_mod_idemp_r.
      replace (k + (i + 1))%nat with (i + S k)%nat by lia.
      destruct st; reflexivity.
    + rewrite <- Hn. exact Hq.
    + reflexivity.
Qed.

(** X3. As many calls of [setNextPlayer] as there are active players bring the
    move back to the same player and change nothing else. *)
Theorem setNextPlayer_full_round st p :
  NoDup (players st) ->
  p ∈ players st ->
  currentPlayer st = Some p ->
  setNextPlayer_times (length (players st)) st = Some st.
Proof.
  intros Hnd Hin Hcur.
  apply list_elem_of_lookup_1 in Hin as [i Hi].
  rewrite (setNextPlayer_times_spec st (length (players st)) i p _ Hnd eq_refl Hi Hcur).
  assert (i < length (players st))%nat by (eapply lookup_lt_Some; exact Hi).
  replace ((i + length (players st)) mod length (players st))%nat with i.
  - rewrite Hi, setCurrentPlayer_same by assumption. reflexivity.
  - rewrite <- Nat.Div0.add_mod_idemp_r, Nat.Div0.mod_same, Nat.add_0_r.
    symmetry. apply Nat.mod_small. assumption.
Qed.

Lemma erase_first_absent (l : list nat) p : p ∉ l -> erase_first p l = l.
Proof.
  induction l as [|x l IH]; intros Hp; [reflexivity|].
  apply not_elem_of_cons in Hp as [Hne Hp]. simpl.
  destruct (Nat.eqb_spec x p); [congruence|]. rewrite IH by assumption. reflexivity.
Qed.


Lemma erase_first_elem_of (l : list nat) p q :
  q <> p -> (q ∈ erase_first p l <-> q ∈ l).
Proof.
  intros Hq. induction l as [|x l IH]; [reflexivity|]. simpl.
  destruct (Nat.eqb_spec x p) as [->|Hx].
  - rewrite elem_of_cons. tauto.
  - rewrite !elem_of_cons, IH. reflexivity.
Qed.

Lemma erase_first_NoDup (l : list nat) p :
  NoDup l -> NoDup (erase_first p l) /\ p ∉ erase_first p l.
Proof.
  induction l as [|x l IH]; intros Hnd; simpl.
  - split; [constructor | apply not_elem_of_nil].
  - destruct (proj1 (NoDup_cons _ _) Hnd) as [Hx Hnd'].
    destruct (Nat.eqb_spec x p) as [->|Hne].
    + split; assumption.
    + destruct (IH Hnd') as [IH1 IH2]. split.
      * apply NoDup_cons. split; [|assumption].
        rewrite erase_first_elem_of by assumption. assumption.
      * apply not_elem_of_cons. split; [congruence | assumption].
Qed.

Lemma erase_first_length (l : list nat) p :
  p ∈ l -> S (length (erase_first p l)) = length l.
Proof.
  induction l as [|x l IH]; intros Hp; [inversion Hp|]. simpl.
  destruct (Nat.eqb_spec x p) as [->|Hne]; [reflexivity|].
  apply elem_of_cons in Hp as [Hp|Hp]; [congruence|]. simpl. f_equal. apply IH. assumption.
Qed.



(** X5. [removePlayer] takes the player out of a list without repetition, and
    nobody else; it changes nothing when the player is not in the list, and
    it never changes the player to move, also when that is the player
    removed. *)
Theorem removePlayer_spec st p :
  NoDup (players st) ->
  let st' := removePlayer p st in
  (p ∉ players st')
  /\ NoDup (players st')
  /\ (forall q, q <> p -> (q ∈ players st' <-> q ∈ players st))
  /\ (p ∈ players st -> S (length (players st')) = length (players st))
  /\ (p ∉ players st -> st' = st)
  /\ currentPlayer st' = currentPlayer st
  /\ heap st' = heap st.
Proof.
  intros Hnd st'. unfold st', removePlayer. cbn.
  destruct (erase_first_NoDup (players st) p Hnd) as [H1 H2].
  repeat split; try assumption.
  - apply erase_first_elem_of; assumption.
  - apply erase_first_elem_of; assumption.
  - apply erase_first_length.
  - intros Hp. rewrite erase_first_absent by assumption. destruct st; reflexivity.
Qed.

(** ** transferMoneyFromTo *)

Lemma transferMoneyFromTo_debit st p1 a :
  transferMoneyFromTo (Some p1) None a st
  = setMoney p1 (Z.max 0 (getMoney st p1 - a)) st \/ ~ allocated st p1.
Proof.
  destruct (Nat.lt_ge_cases p1 (length (heap st))) as [Hlt|Hge]; [left|right; unfold allocated; lia].
  unfold transferMoneyFromTo.
  assert (Hd : getMoney (setMoney p1 (getMoney st p1 - a) st) p1 = getMoney st p1 - a).
  { unfold getMoney at 1, setMoney. rewrite deref_updPlayer_eq by exact Hlt. reflexivity. }
  rewrite Hd. unfold setMoney, updPlayer, set_heap. cbn.
  destruct (Z.ltb_spec (getMoney st p1 - a) 0).
  - rewrite Z.max_l by lia. f_equal. rewrite list_alter_alter_eq.
    apply list_alter_ext; [|reflexivity]. intros x _. reflexivity.
  - rewrite Z.max_r by lia. reflexivity.
Qed.

Lemma transferMoneyFromTo_pays st p1 p2 a :
  allocated st p1 -> allocated st p2 -> p1 <> p2 ->
  let st' := transferMoneyFromTo (Some p1) (Some p2) a st in
  getMoney st' p1 = Z.max 0 (getMoney st p1 - a)
  /\ getMoney st' p2 = getMoney st p2 + a
  /\ getMoney st' p1 + getMoney st' p2
     = getMoney st p1 + getMoney st p2 + Z.max 0 (a - getMoney st p1)
  /\ (forall q, q <> p1 -> q <> p2 -> deref st' q = deref st q)
  /\ (forall q, setMoney_ 0 (deref st' q) = setMoney_ 0 (deref st q))
  /\ board st' = board st /\ players st' = players st
  /\ currentPlayer st' = currentPlayer st.
Proof.
  intros H1 H2 Hne st'.
  assert (Hst' : st' = setMoney p2 (getMoney st p2 + a)
                         (setMoney p1 (Z.max 0 (getMoney st p1 - a)) st)).
  { unfold st'. change (transferMoneyFromTo (Some p1) (Some p2) a st)
      with (let s := transferMoneyFromTo (Some p1) None a st in
            setMoney p2 (getMoney s p2 + a) s).
    cbv zeta. destruct (transferMoneyFromTo_debit st p1 a) as [-> | Hno]; [|contradiction].
    f_equal. unfold getMoney, setMoney. rewrite deref_updPlayer_ne by assumption.
    reflexivity. }
  assert (Hm1 : getMoney st' p1 = Z.max 0 (getMoney st p1 - a)).
  { rewrite Hst'. unfold getMoney, setMoney.
    rewrite deref_updPlayer_ne by congruence.
    rewrite deref_updPlayer_eq by assumption. reflexivity. }
  assert (Hm2 : getMoney st' p2 = getMoney st p2 + a).
  { rewrite Hst'. unfold getMoney, setMoney.
    rewrite deref_updPlayer_eq by (apply allocated_updPlayer; assumption). reflexivity. }
  split; [exact Hm1|]. split; [exact Hm2|]. split; [lia|].
  split; [|split].
  - intros q Hq1 Hq2. rewrite Hst'. unfold setMoney.
    rewrite !deref_updPlayer_ne by congruence. reflexivity.
  - intros q. rewrite Hst'. unfold setMoney, deref, updPlayer. cbn.
    destruct (Nat.eq_dec p2 q) as [->|Hq2].
    + rewrite list_lookup_alter_eq, list_lookup_alter_ne by assumption.
      destruct (heap st !! q); reflexivity.
    + rewrite list_lookup_alter_ne by assumption.
      destruct (Nat.eq_dec p1 q) as [->|Hq1].
      * rewrite list_lookup_alter_eq. destruct (heap st !! q); reflexivity.
      * rewrite list_lookup_alter_ne by assumption. reflexivity.
  - rewrite Hst'. repeat split.
Qed.

(** X6. Between two distinct players the payer is left with what remains, 0 at
    least, and the payee receives the whole amount, also when the payer had
    less: what is missing is created.  Nobody else and nothing else
    changes.  The amount and the two balances are [int]s, and so are the
    difference and the sum that the function computes. *)
Theorem transferMoneyFromTo_between st p1 p2 a :
  allocated st p1 -> allocated st p2 -> p1 <> p2 ->
  is_int a -> is_int (getMoney st p1) -> is_int (getMoney st p2) ->
  is_int (getMoney st p1 - a) -> is_int (getMoney st p2 + a) ->
  let st' := transferMoneyFromTo (Some p1) (Some p2) a st in
  getMoney st' p1 = Z.max 0 (getMoney st p1 - a)
  /\ getMoney st' p2 = getMoney st p2 + a
  /\ getMoney st' p1 + getMoney st' p2
     = getMoney st p1 + getMoney st p2 + Z.max 0 (a - getMoney st p1)
  /\ (forall q, q <> p1 -> q <> p2 -> deref st' q = deref st q)
  /\ (forall q, setMoney_ 0 (deref st' q) = setMoney_ 0 (deref st q))
  /\ board st' = board st /\ players st' = players st
  /\ currentPlayer st' = currentPlayer st
  /\ is_int (getMoney st' p1) /\ is_int (getMoney st' p2).
Proof.
  intros H1 H2 Hne Ha Hm1 Hm2 Hd Hc st'.
  destruct (transferMoneyFromTo_pays st p1 p2 a H1 H2 Hne)
    as (A & B & C & D & E & F & G & H).
  fold st' in A, B, C, D, E, F, G, H.
  repeat (split; [assumption|]).
  rewrite A, B. split; [|exact Hc].
  unfold is_int, INT_MIN, INT_MAX in *. lia.
Qed.

Lemma getMoney_setMoney_cases s p v q :
  getMoney (setMoney p v s) q = v \/ getMoney (setMoney p v s) q = getMoney s q.
Proof.
  unfold getMoney, setMoney, deref, updPlayer. cbn.
  destruct (Nat.eq_dec p q) as [->|Hq].
  - rewrite list_lookup_alter_eq. destruct (heap s !! q); cbn; [left|right]; reflexivity.
  - rewrite list_lookup_alter_ne by assumption. right. reflexivity.
Qed.

Lemma getMoney_setMoney_unallocated s p v q :
  ~ allocated s p -> getMoney (setMoney p v s) q = getMoney s q.
Proof.
  unfold allocated, getMoney, setMoney, deref, updPlayer. cbn. intros Hp.
  destruct (Nat.eq_dec p q) as [->|Hq].
  - rewrite list_lookup_alter_eq. rewrite (lookup_ge_None_2 (heap s) q) by lia. reflexivity.
  - rewrite list_lookup_alter_ne by assumption. reflexivity.
Qed.

Lemma transferMoneyFromTo_nonneg st player1 player2 a :
  player2 = None \/ 0 <= a ->
  (forall q, 0 <= getMoney st q) ->
  forall q, 0 <= getMoney (transferMoneyFromTo player1 player2 a st) q.
Proof.
  intros Ha Hst.
  assert (Hset : forall s p v, 0 <= v -> (forall q, 0 <= getMoney s q) ->
                   forall q, 0 <= getMoney (setMoney p v s) q).
  { intros s p v Hv Hs q.
    destruct (getMoney_setMoney_cases s p v q) as [-> | ->]; [assumption | apply Hs]. }
  assert (Hdebit : forall p1 q, 0 <= getMoney (transferMoneyFromTo (Some p1) None a st) q).
  { intros p1 q. destruct (transferMoneyFromTo_debit st p1 a) as [-> | Hno].
    - apply Hset; [lia | exact Hst].
    - unfold transferMoneyFromTo.
      rewrite (getMoney_setMoney_unallocated st p1 _ p1 Hno).
      destruct (Z.ltb_spec (getMoney st p1) 0) as [Hneg|_].
      + specialize (Hst p1). lia.
      + rewrite getMoney_setMoney_unallocated by assumption. apply Hst. }
  destruct player1 as [p1|], player2 as [p2|].
  - destruct Ha as [Ha | Ha]; [discriminate|].
    change (transferMoneyFromTo (Some p1) (Some p2) a st)
      with (let s := transferMoneyFromTo (Some p1) None a st in
            setMoney p2 (getMoney s p2 + a) s).
    cbv zeta. apply Hset; [|apply Hdebit]. specialize (Hdebit p1 p2). lia.
  - apply Hdebit.
  - destruct Ha as [Ha | Ha]; [discriminate|].
    unfold transferMoneyFromTo. apply Hset; [|exact Hst]. specialize (Hst p2). lia.
  - exact Hst.
Qed.

Lemma transferMoneyFromTo_capped st player1 player2 a :
  0 <= a <= INT_MAX ->
  (forall q, getMoney st q <= INT_MAX) ->
  (forall p2, player2 = Some p2 -> getMoney st p2 + a <= INT_MAX) ->
  forall q, getMoney (transferMoneyFromTo player1 player2 a st) q <= INT_MAX.
Proof.
  intros Ha Hst Hfit.
  assert (Hset : forall s p v, v <= INT_MAX -> (forall q, getMoney s q <= INT_MAX) ->
                   forall q, getMoney (setMoney p v s) q <= INT_MAX).
  { intros s p v Hv Hs q.
    destruct (getMoney_setMoney_cases s p v q) as [-> | ->]; [assumption | apply Hs]. }
  assert (Hdebit : forall p1 q,
             getMoney (transferMoneyFromTo (Some p1) None a st) q <= INT_MAX
             /\ (getMoney (transferMoneyFromTo (Some p1) None a st) q = getMoney st q
                 \/ getMoney (transferMoneyFromTo (Some p1) None a st) q + a <= INT_MAX)).
  { intros p1 q. destruct (transferMoneyFromTo_debit st p1 a) as [-> | Hno].
    - split.
      + apply Hset; [|exact Hst]. specialize (Hst p1). unfold INT_MAX in *. lia.
      + destruct (getMoney_setMoney_cases st p1 (Z.max 0 (getMoney st p1 - a)) q)
          as [-> | ->]; [right | left; reflexivity].
        specialize (Hst p1). unfold INT_MAX in *. lia.
    - assert (Hsame : forall r, getMoney (transferMoneyFromTo (Some p1) None a st) r
                                = getMoney st r).
      { intros r. unfold transferMoneyFromTo.
        rewrite (getMoney_setMoney_unallocated st p1 _ p1 Hno).
        destruct (getMoney st p1 <? 0);
          rewrite ?getMoney_setMoney_unallocated; try reflexivity; try assumption.
        unfold allocated, setMoney, updPlayer in *. cbn. rewrite length_alter. exact Hno. }
      rewrite !Hsame. split; [apply Hst | left; reflexivity]. }
  destruct player1 as [p1|], player2 as [p2|].
  - change (transferMoneyFromTo (Some p1) (Some p2) a st)
      with (let s := transferMoneyFromTo (Some p1) None a st in
            setMoney p2 (getMoney s p2 + a) s).
    cbv zeta. apply Hset; [|intros q; apply (Hdebit p1 q)].
    destruct (Hdebit p1 p2) as (_ & [-> | H]); [|exact H].
    apply Hfit. reflexivity.
  - intros q. apply (Hdebit p1 q).
  - unfold transferMoneyFromTo. apply Hset; [|exact Hst]. apply Hfit. reflexivity.
  - exact Hst.
Qed.

(** X7. A transfer of an amount that is not negative, between balances that
    are not negative, leaves every balance between 0 and [INT_MAX], whoever
    pays and whoever receives: the bank, a player, or the payer itself.
    The balance of the player who receives, with the amount added, is an
    [int]. *)
Theorem transferMoneyFromTo_never_negative st player1 player2 a :
  0 <= a <= INT_MAX ->
  (forall q, 0 <= getMoney st q <= INT_MAX) ->
  (forall p2, player2 = Some p2 -> getMoney st p2 + a <= INT_MAX) ->
  forall q, 0 <= getMoney (transferMoneyFromTo player1 player2 a st) q <= INT_MAX.
Proof.
  intros Ha Hst Hfit q. split.
  - apply transferMoneyFromTo_nonneg; [right; apply Ha|]. intros r. apply Hst.
  - apply transferMoneyFromTo_capped; [assumption | intros r; apply Hst | exact Hfit].
Qed.

(** ** Moving backwards *)

(** X8. A move that takes position plus distance below 0 goes through the
    conversion to the unsigned 64-bit [size_t]: the new position is the
    circular one shifted by [2^64 mod L], which is 16 on a board of 40
    spaces; it is the circular one only when [L] divides [2^64]. *)
Theorem newPositionOf_backward st player d :
  0 < board_size st <= INT_MAX ->
  - 2 ^ 64 <= getPosition st player + d < 0 ->
  newPositionOf st player d
  = ((getPosition st player + d) mod board_size st + 2 ^ 64 mod board_size st)
    mod board_size st
  /\ (2 ^ 64 mod board_size st = 0 ->
        newPositionOf st player d = (getPosition st player + d) mod board_size st)
  /\ (board_size st = 40 ->
        newPositionOf st player d = ((getPosition st player + d) mod 40 + 16) mod 40).
Proof.
  intros HL Hsum.
  assert (Hmain : newPositionOf st player d
                  = ((getPosition st player + d) mod board_size st
                     + 2 ^ 64 mod board_size st) mod board_size st).
  { unfold newPositionOf, to_size_t.
    replace ((getPosition st player + d) mod 2 ^ 64)
      with (getPosition st player + d + 2 ^ 64).
    - rewrite <- Z.add_mod by lia.
      apply to_int_small.
      pose proof (Z.mod_pos_bound (getPosition st player + d + 2 ^ 64) (board_size st)
                    ltac:(lia)).
      unfold INT_MIN, INT_MAX in *. lia.
    - apply Z.mod_unique with (q := -1); lia. }
  split; [exact Hmain|]. split.
  - intros H0. rewrite Hmain, H0, Z.add_0_r. apply Z.mod_mod. lia.
  - intros H40. rewrite Hmain, H40. reflexivity.
Qed.

(** ** The cards that send the player to a space *)

(** X9. A card that advances to a space puts the current player on that space,
    credits 200 exactly when the space has a lower index than the one the
    player leaves and the player is not in jail, and then runs the landing
    on that space. *)
Theorem AdvanceTo_lands_on_target io fuel st player description index :
  getCurrentPlayer st = Some player ->
  allocated st player ->
  0 < board_size st ->
  0 <= getPosition st player < board_size st ->
  0 <= index < board_size st ->
  board_size st + index <= INT_MAX ->
  let bonus :=
    (index <? getPosition st player) && (getRemainingTurnsInJail st player =? 0) in
  let st' :=
    setPosition player index
      (if bonus then transferMoneyFromTo None (Some player) 200 st else st) in
  Card_action io (S (S fuel)) (mkCard description (Some (AdvanceTo index))) st
  = handleSpace io fuel st'
  /\ getPosition st' player = index
  /\ getMoney st' player = getMoney st player + (if bonus then 200 else 0).
Proof.
  intros Hcur Halloc HL Hp Hi Hmax bonus st'.
  set (d := board_size st + index - getPosition st player).
  assert (Hd : 0 < d <= INT_MAX) by (unfold d; lia).
  assert (Hdist : to_int (to_size_t d) = d).
  { rewrite to_size_t_small by (unfold INT_MAX in *; lia).
    apply to_int_small. unfold INT_MIN, INT_MAX in *. lia. }
  assert (HL' : 0 < board_size st <= INT_MAX) by lia.
  assert (Hnew : newPositionOf st player d = index).
  { rewrite newPositionOf_forward by assumption. unfold d.
    replace (getPosition st player + (board_size st + index - getPosition st player))
      with (index + 1 * board_size st) by lia.
    rewrite Z.mod_add by lia. apply Z.mod_small. lia. }
  assert (Hpass : passesGo st player d = bonus).
  { unfold passesGo, bonus. rewrite Hnew.
    destruct (Z.gtb_spec d 0); [|lia]. rewrite andb_true_r. reflexivity. }
  split; [|split].
  - cbn [Card_action _actionFunction]. rewrite Hcur. fold d. rewrite Hdist.
    cbn [movePlayer]. rewrite (movePlayer_pre_lands st player d Hcur HL'), Hnew, Hpass.
    reflexivity.
  - unfold st'. apply getPosition_setPosition.
    destruct bonus; [apply allocated_credit|]; assumption.
  - unfold st'. rewrite getMoney_setPosition. destruct bonus.
    + apply getMoney_credit. assumption.
    + lia.
Qed.

(** ** Jail *)



Lemma only_player_refl p st : only_player p st st.
Proof. repeat split. Qed.

Lemma only_player_trans p st1 st2 st3 :
  only_player p st1 st2 -> only_player p st2 st3 -> only_player p st1 st3.
Proof.
  intros (A1 & A2 & A3 & A4 & A5) (B1 & B2 & B3 & B4 & B5).
  repeat split; try congruence. intros q Hq. rewrite B5, A5 by assumption. reflexivity.
Qed.

Lemma only_player_updPlayer p f st : only_player p st (updPlayer p f st).
Proof.
  repeat split.
  - unfold updPlayer. cbn. apply length_alter.
  - intros q Hq. apply deref_updPlayer_ne. congruence.
Qed.

Lemma only_player_pay p a st : only_player p st (transferMoneyFromTo (Some p) None a st).
Proof.
  unfold transferMoneyFromTo.
  destruct (getMoney (setMoney p (getMoney st p - a) st) p <? 0).
  - eapply only_player_trans; apply only_player_updPlayer.
  - apply only_player_updPlayer.
Qed.

Lemma only_player_credit p a st : only_player p st (transferMoneyFromTo None (Some p) a st).
Proof. apply only_player_updPlayer. Qed.

Lemma only_player_rollDice io p st : only_player p st (rollDice io st).
Proof. repeat split. Qed.

Lemma only_player_next_tick p st : only_player p st (next_tick st).
Proof. repeat split. Qed.

Lemma only_player_allocated p st st' q :
  only_player p st st' -> allocated st q -> allocated st' q.
Proof. intros (_ & _ & _ & Hlen & _). unfold allocated. rewrite Hlen. tauto. Qed.

Lemma Jail_payOrRoll_cases io st p :
  allocated st p ->
  let st' := Jail_payOrRoll io p st in
  (getRemainingTurnsInJail st' p = 0
   \/ getRemainingTurnsInJail st' p = getRemainingTurnsInJail st p - 1)
  /\ (getMoney st' p = getMoney st p
      \/ (50 <= getMoney st p /\ getMoney st' p = getMoney st p - 50
          /\ getRemainingTurnsInJail st' p = 0))
  /\ getPosition st' p = getPosition st p
  /\ only_player p st st'.
Proof.
  intros Halloc st'. unfold st', Jail_payOrRoll.
  destruct (getYesNo io (tick st)).
  - change (getMoney (next_tick st) p) with (getMoney st p).
    destruct (Z.ltb_spec (getMoney st p) 50) as [Hpoor|Hrich].
    + unfold getRemainingTurnsInJail, getMoney, getPosition, setRemainingTurnsInJail.
      rewrite deref_updPlayer_eq by exact Halloc.
      split; [right; reflexivity|]. split; [left; reflexivity|]. split; [reflexivity|].
      eapply only_player_trans; [apply only_player_next_tick | apply only_player_updPlayer].
    + assert (Hpaid : allocated (transferMoneyFromTo (Some p) None 50 (next_tick st)) p).
      { eapply only_player_allocated; [apply only_player_pay | exact Halloc]. }
      assert (Hm : getMoney (transferMoneyFromTo (Some p) None 50 (next_tick st)) p
                   = getMoney st p - 50).
      { rewrite getMoney_pay; [reflexivity | exact Halloc | exact Hrich]. }
      assert (Hpos : getPosition (transferMoneyFromTo (Some p) None 50 (next_tick st)) p
                     = getPosition st p).
      { destruct (transferMoneyFromTo_debit (next_tick st) p 50) as [-> | Hno];
          [|contradiction].
        unfold getPosition, setMoney. rewrite deref_updPlayer_eq by exact Halloc.
        reflexivity. }
      unfold getRemainingTurnsInJail, getMoney, getPosition, setRemainingTurnsInJail in *.
      rewrite deref_updPlayer_eq by exact Hpaid. cbn.
      split; [left; reflexivity|]. split; [right; repeat split; assumption|].
      split; [exact Hpos|].
      eapply only_player_trans; [|apply only_player_updPlayer].
      eapply only_player_trans; [apply only_player_next_tick | apply only_player_pay].
  - set (st1 := rollDice io (next_tick st)).
    assert (H1 : allocated st1 p) by exact Halloc.
    destruct (fst (currentDicesValue st1) =? snd (currentDicesValue st1));
      unfold getRemainingTurnsInJail, getMoney, getPosition, setRemainingTurnsInJail;
      rewrite deref_updPlayer_eq by exact H1; cbn;
      (split; [first [left; reflexivity | right; reflexivity]|]);
      (split; [left; reflexivity|]); (split; [reflexivity|]);
      (eapply only_player_trans; [|apply only_player_updPlayer]);
      repeat split.
Qed.

Lemma Jail_useCard_cases st p :
  allocated st p ->
  let st' := Jail_useCard p st in
  getRemainingTurnsInJail st' p = 0
  /\ getMoney st' p = getMoney st p
  /\ getPosition st' p = getPosition st p
  /\ only_player p st st'.
Proof.
  intros Halloc st'. unfold st', Jail_useCard.
  set (st1 := setRemainingTurnsInJail p 0 st).
  assert (H1 : allocated st1 p) by (apply allocated_updPlayer; exact Halloc).
  assert (Hd1 : deref st1 p = setRemainingTurnsInJail_ 0 (deref st p))
    by (apply deref_updPlayer_eq; exact Halloc).
  assert (Ho1 : only_player p st st1) by apply only_player_updPlayer.
  destruct (getHasChanceGOJFC st1 p);
    unfold getRemainingTurnsInJail, getMoney, getPosition,
      setHasChanceGOJFC, setHasCommunityChestGOJFC;
    [ change (deref (setChanceGOJFCTaken false (updPlayer p (setHasChanceGOJFC_ false) st1)) p)
        with (deref (updPlayer p (setHasChanceGOJFC_ false) st1) p)
    | change (deref (setCommunityChestGOJFCTaken false
                       (updPlayer p (setHasCommunityChestGOJFC_ false) st1)) p)
        with (deref (updPlayer p (setHasCommunityChestGOJFC_ false) st1) p) ];
    rewrite deref_updPlayer_eq by exact H1; rewrite Hd1; cbn;
    (split; [reflexivity|]); (split; [reflexivity|]); (split; [reflexivity|]);
    (eapply only_player_trans; [exact Ho1|]);
    (eapply only_player_trans; [apply only_player_updPlayer|]); repeat split.
Qed.

Lemma Jail_action_cases io st p :
  getCurrentPlayer st = Some p ->
  allocated st p ->
  exists st',
    Jail_action io st = Some st'
    /\ (getRemainingTurnsInJail st p <= 0 -> st' = st)
    /\ (0 < getRemainingTurnsInJail st p ->
          getRemainingTurnsInJail st' p = 0
          \/ getRemainingTurnsInJail st' p = getRemainingTurnsInJail st p - 1)
    /\ (getMoney st' p = getMoney st p
        \/ (50 <= getMoney st p /\ getMoney st' p = getMoney st p - 50
            /\ getRemainingTurnsInJail st' p = 0))
    /\ getPosition st' p = getPosition st p
    /\ only_player p st st'.
Proof.
  intros Hcur Halloc. unfold Jail_action. rewrite Hcur.
  destruct (Z.gtb_spec (getRemainingTurnsInJail st p) 0) as [Hin|Hout].
  - assert (Hpay : forall s, s = st \/ s = next_tick st ->
              (getRemainingTurnsInJail (Jail_payOrRoll io p s) p = 0
               \/ getRemainingTurnsInJail (Jail_payOrRoll io p s) p
                  = getRemainingTurnsInJail st p - 1)
              /\ (getMoney (Jail_payOrRoll io p s) p = getMoney st p
                  \/ (50 <= getMoney st p
                      /\ getMoney (Jail_payOrRoll io p s) p = getMoney st p - 50
                      /\ getRemainingTurnsInJail (Jail_payOrRoll io p s) p = 0))
              /\ getPosition (Jail_payOrRoll io p s) p = getPosition st p
              /\ only_player p st (Jail_payOrRoll io p s)).
    { intros s Hs.
      assert (Hs' : allocated s p /\ only_player p st s
                    /\ deref s p = deref st p).
      { destruct Hs as [-> | ->]; repeat split; assumption. }
      destruct Hs' as (Ha & Ho & Hd).
      destruct (Jail_payOrRoll_cases io s p Ha) as (A & B & C & D).
      unfold getRemainingTurnsInJail, getMoney, getPosition in *. rewrite Hd in *.
      split; [exact A|]. split; [exact B|]. split; [exact C|].
      eapply only_player_trans; eassumption. }
    destruct (getHasChanceGOJFC st p || getHasCommunityChestGOJFC st p).
    + destruct (getYesNo io (tick st)).
      * destruct (Jail_useCard_cases (next_tick st) p Halloc) as (A & B & C & D).
        eexists. split; [reflexivity|]. split; [lia|].
        split; [intros _; left; exact A|]. split; [left; exact B|]. split; [exact C|].
        eapply only_player_trans; [apply only_player_next_tick | exact D].
      * destruct (Hpay (next_tick st) (or_intror eq_refl)) as (A & B & C & D).
        eexists. split; [reflexivity|]. split; [lia|]. tauto.
    + destruct (Hpay st (or_introl eq_refl)) as (A & B & C & D).
      eexists. split; [reflexivity|]. split; [lia|]. tauto.
  - exists st. split; [reflexivity|]. split; [reflexivity|]. split; [lia|].
    split; [left; reflexivity|]. split; [reflexivity|]. apply only_player_refl.
Qed.

(** X10. A jailed player's sentence gets shorter at every visit of the jail, the
    fine is 50 and is taken only from a player who has it, and a player who
    is just visiting is left alone. *)
Theorem Jail_action_shortens_the_sentence io st p :
  getCurrentPlayer st = Some p ->
  allocated st p ->
  exists st',
    Jail_action io st = Some st'
    /\ (getRemainingTurnsInJail st p <= 0 -> st' = st)
    /\ (0 < getRemainingTurnsInJail st p ->
          getRemainingTurnsInJail st' p = 0
          \/ getRemainingTurnsInJail st' p = getRemainingTurnsInJail st p - 1)
    /\ (getMoney st' p = getMoney st p
        \/ (50 <= getMoney st p /\ getMoney st' p = getMoney st p - 50
            /\ getRemainingTurnsInJail st' p = 0))
    /\ getPosition st' p = getPosition st p
    /\ only_player p st st'.
Proof. apply Jail_action_cases. Qed.

(** ** Go to jail *)

(** X11. Landing on the go-to-jail space moves the player 20 spaces on, to the
    jail, with a sentence of 3 turns and without the bonus for passing Go,
    and runs the jail at once: the player has paid the fine of 50 or
    nothing and is left with a sentence of 0 or 2 turns. *)
Theorem GoToJail_sends_to_jail_without_bonus io fuel st p :
  getCurrentPlayer st = Some p ->
  allocated st p ->
  0 < board_size st <= INT_MAX ->
  0 <= getPosition st p < board_size st ->
  at_index (board st) (getPosition st p) = Some GoToJail ->
  at_index (board st) ((getPosition st p + 20) mod board_size st) = Some Jail ->
  exists st',
    handleSpace io (S (S (S fuel))) st = Some st'
    /\ getPosition st' p = (getPosition st p + 20) mod board_size st
    /\ (getRemainingTurnsInJail st' p = 0 \/ getRemainingTurnsInJail st' p = 2)
    /\ (getMoney st' p = getMoney st p
        \/ (50 <= getMoney st p /\ getMoney st' p = getMoney st p - 50))
    /\ only_player p st st'.
Proof.
  intros Hcur Halloc HL Hp Hhere Hjail.
  set (st1 := setRemainingTurnsInJail p 3 st).
  assert (Hd1 : deref st1 p = setRemainingTurnsInJail_ 3 (deref st p))
    by (apply deref_updPlayer_eq; exact Halloc).
  assert (Hpos1 : getPosition st1 p = getPosition st p)
    by (unfold getPosition; rewrite Hd1; reflexivity).
  assert (Hnew : newPositionOf st1 p 20 = (getPosition st p + 20) mod board_size st).
  { rewrite newPositionOf_forward; [rewrite Hpos1; reflexivity | exact HL | |].
    - rewrite Hpos1. exact Hp.
    - unfold INT_MAX. lia. }
  assert (Hpass : passesGo st1 p 20 = false).
  { unfold passesGo, getRemainingTurnsInJail. rewrite Hd1. cbn.
    rewrite andb_false_r. reflexivity. }
  set (st2 := setPosition p ((getPosition st p + 20) mod board_size st) st1).
  assert (Ha1 : allocated st1 p) by (apply allocated_updPlayer; exact Halloc).
  assert (Ha2 : allocated st2 p) by (apply allocated_updPlayer; exact Ha1).
  assert (Hd2 : deref st2 p
                = setPosition_ ((getPosition st p + 20) mod board_size st) (deref st1 p))
    by (apply deref_updPlayer_eq; exact Ha1).
  destruct (Jail_action_cases io st2 p Hcur Ha2) as (st' & Hrun & _ & Hturns & Hmoney & Hpos & Honly).
  exists st'. split.
  - cbn [handleSpace]. rewrite Hcur, Hhere. cbn [movePlayer]. fold st1.
    rewrite (movePlayer_pre_lands st1 p 20 Hcur HL), Hnew, Hpass. fold st2.
    cbn [handleSpace].
    replace (getCurrentPlayer st2) with (Some p) by (symmetry; exact Hcur).
    replace (getPosition st2 p) with ((getPosition st p + 20) mod board_size st)
      by (unfold getPosition; rewrite Hd2; reflexivity).
    change (board st2) with (board st). rewrite Hjail. exact Hrun.
  - unfold getPosition, getRemainingTurnsInJail, getMoney in *.
    rewrite Hd2, Hd1 in *. cbn in *.
    split; [exact Hpos|]. split; [destruct Hturns as [H|H]; [lia | left; exact H | right; exact H]|].
    split; [destruct Hmoney as [H|(H1 & H2 & _)]; [left; exact H | right; split; assumption]|].
    eapply only_player_trans; [|exact Honly].
    eapply only_player_trans; apply only_player_updPlayer.
Qed.

(** ** getOwnedGroups *)



Lemma upgradeToFullGroup_board s i : upgradeToFullGroup s i = set_board (board (upgradeToFullGroup s i)) s.
Proof.
  unfold upgradeToFullGroup. destruct (getNbBuildings s i =? BASE_RENT).
  - reflexivity.
  - destruct s; reflexivity.
Qed.

Lemma same_but_board_trans s s1 s2 :
  s1 = set_board (board s1) s -> s2 = set_board (board s2) s1 ->
  s2 = set_board (board s2) s.
Proof.
  intros H1 H2. destruct s, s1, s2. cbn in *.
  injection H1 as -> -> -> -> -> -> -> -> -> ->.
  injection H2 as -> -> -> -> -> -> -> -> -> ->. reflexivity.
Qed.

Lemma upgradeToFullGroup_skip s i :
  getNbBuildings s i <> BASE_RENT -> upgradeToFullGroup s i = s.
Proof.
  intros H. unfold upgradeToFullGroup.
  destruct (Z.eqb_spec (getNbBuildings s i) BASE_RENT); [contradiction | reflexivity].
Qed.

Lemma lookup_setNbBuildings_static s i n j :
  match board (setNbBuildings i n s) !! j, board s !! j with
  | Some x, Some y => asBuyable x = asBuyable y
                      /\ match x, y with
                         | Property _ c _ _, Property _ c' _ _ => c = c'
                         | Property _ _ _ _, _ | _, Property _ _ _ _ => False
                         | _, _ => True
                         end
  | None, None => True
  | _, _ => False
  end.
Proof.
  unfold setNbBuildings, updSpace. cbn.
  destruct (Nat.eq_dec i j) as [->|Hne].
  - rewrite list_lookup_alter_eq. destruct (board s !! j) as [[]|]; cbn; auto.
  - rewrite list_lookup_alter_ne by assumption.
    destruct (board s !! j) as [[]|]; cbn; auto.
Qed.

Lemma getOwner_setNbBuildings s i n j : getOwner (setNbBuildings i n s) j = getOwner s j.
Proof.
  pose proof (lookup_setNbBuildings_static s i n j) as H. unfold getOwner.
  destruct (board (setNbBuildings i n s) !! j), (board s !! j); try tauto.
  destruct H as [-> _]. reflexivity.
Qed.

Lemma getColor_setNbBuildings s i n j : getColor (setNbBuildings i n s) j = getColor s j.
Proof.
  pose proof (lookup_setNbBuildings_static s i n j) as H. unfold getColor.
  destruct (board (setNbBuildings i n s) !! j) as [x|], (board s !! j) as [y|]; try tauto.
  destruct H as [_ H]. destruct x, y; try tauto; congruence.
Qed.

Lemma getNbBuildings_setNbBuildings s i n j :
  getNbBuildings (setNbBuildings i n s) j
  = if Nat.eqb j i
    then match board s !! i with Some (Property _ _ _ _) => n | _ => 0 end
    else getNbBuildings s j.
Proof.
  unfold getNbBuildings, setNbBuildings, updSpace. cbn.
  destruct (Nat.eqb_spec j i) as [->|Hne].
  - rewrite list_lookup_alter_eq. destruct (board s !! i) as [[]|]; reflexivity.
  - rewrite list_lookup_alter_ne by congruence. reflexivity.
Qed.

Lemma getNbBuildings_BASE_RENT_isProperty s i :
  getNbBuildings s i = BASE_RENT -> isProperty s i.
Proof.
  unfold getNbBuildings, isProperty.
  destruct (board s !! i) as [[]|]; try discriminate; tauto.
Qed.

Lemma upgradeToFullGroup_facts s i j :
  getOwner (upgradeToFullGroup s i) j = getOwner s j
  /\ getColor (upgradeToFullGroup s i) j = getColor s j
  /\ length (board (upgradeToFullGroup s i)) = length (board s)
  /\ getNbBuildings (upgradeToFullGroup s i) j
     = if Nat.eqb j i && (getNbBuildings s j =? BASE_RENT)
       then FULL_GROUP else getNbBuildings s j.
Proof.
  unfold upgradeToFullGroup.
  destruct (Z.eqb_spec (getNbBuildings s i) BASE_RENT) as [Hb|Hb].
  - split; [apply getOwner_setNbBuildings|]. split; [apply getColor_setNbBuildings|].
    split; [unfold setNbBuildings, updSpace; cbn; apply length_alter|].
    rewrite getNbBuildings_setNbBuildings.
    destruct (Nat.eqb_spec j i) as [->|Hne]; [|reflexivity].
    rewrite Hb. cbn. pose proof (getNbBuildings_BASE_RENT_isProperty s i Hb) as Hp.
    unfold isProperty in Hp. destruct (board s !! i) as [[]|]; tauto.
  - repeat split. destruct (Nat.eqb_spec j i) as [->|Hne]; [|reflexivity].
    destruct (Z.eqb_spec (getNbBuildings s i) BASE_RENT); [contradiction | reflexivity].
Qed.



Lemma upgrade_group_facts l : forall s,
  let s' := fold_left upgradeToFullGroup l s in
  s' = set_board (board s') s
  /\ length (board s') = length (board s)
  /\ forall j,
       getOwner s' j = getOwner s j
       /\ getColor s' j = getColor s j
       /\ getNbBuildings s' j
          = if appears j l && (getNbBuildings s j =? BASE_RENT)
            then FULL_GROUP else getNbBuildings s j.
Proof.
  induction l as [|i l IH]; intros s; cbn [fold_left].
  - split; [destruct s; reflexivity|]. split; [reflexivity|]. intros j. repeat split.
  - destruct (IH (upgradeToFullGroup s i)) as (Hb & Hlen & Hj). cbv zeta in *.
    split; [|split].
    + eapply same_but_board_trans; [apply (upgradeToFullGroup_board s i) | exact Hb].
    + rewrite Hlen. apply (upgradeToFullGroup_facts s i 0).
    + intros j. destruct (Hj j) as (Ho & Hc & Hn).
      destruct (upgradeToFullGroup_facts s i j) as (Ho' & Hc' & _ & Hn').
      split; [congruence|]. split; [congruence|].
      rewrite Hn, Hn'.
      change (appears j (i :: l)) with (Nat.eqb j i || appears j l).
      destruct (Nat.eqb j i), (appears j l), (getNbBuildings s j =? BASE_RENT) eqn:E;
        cbn; rewrite ?E; reflexivity.
Qed.

Lemma properties_ext s s' :
  length (board s') = length (board s) ->
  (forall j, getColor s' j = getColor s j) ->
  properties s' = properties s.
Proof.
  intros Hlen Hc. unfold properties. rewrite Hlen. f_equal.
  apply List.map_ext. intros c. f_equal.
  apply List.filter_ext. intros j. unfold hasColor. rewrite Hc. reflexivity.
Qed.

Lemma whollyOwned_ext s s' player e :
  (forall j, getOwner s' j = getOwner s j) -> whollyOwned s' player e = whollyOwned s player e.
Proof.
  intros Ho. unfold whollyOwned. induction (snd e) as [|j l IH]; [reflexivity|].
  cbn. rewrite Ho, IH. reflexivity.
Qed.

(** The fold of [getOwnedGroups] over the groups [gs]. *)
Lemma getOwnedGroups_fold player gs : forall acc s,
  let W := concat (List.map snd (List.filter (whollyOwned s player) gs)) in
  exists s',
    fold_left
      (fun (acc : list nat * GameState) (entry : Color * list nat) =>
         let '(owned_properties, st) := acc in
         let propertyList := snd entry in
         let sameOwner := forallb (fun i => ptr_eqb (getOwner st i) player) propertyList in
         if sameOwner
         then (owned_properties ++ propertyList, fold_left upgradeToFullGroup propertyList st)
         else (owned_properties, st))
      gs (acc, s) = (acc ++ W, s')
    /\ s' = set_board (board s') s
    /\ length (board s') = length (board s)
    /\ forall j,
         getOwner s' j = getOwner s j
         /\ getColor s' j = getColor s j
         /\ getNbBuildings s' j
            = if appears j W && (getNbBuildings s j =? BASE_RENT)
              then FULL_GROUP else getNbBuildings s j.
Proof.
  induction gs as [|e gs IH]; intros acc s W.
  - exists s. unfold W. cbn. rewrite app_nil_r. split; [reflexivity|].
    split; [destruct s; reflexivity|]. split; [reflexivity|]. intros j. repeat split.
  - cbn [fold_left]. unfold W. cbn [List.filter].
    change (forallb (fun i => ptr_eqb (getOwner s i) player) (snd e))
      with (whollyOwned s player e).
    destruct (whollyOwned s player e) eqn:Hsame.
    + destruct (upgrade_group_facts (snd e) s) as (Hb1 & Hl1 & Hj1). cbv zeta in *.
      set (s1 := fold_left upgradeToFullGroup (snd e) s) in *.
      destruct (IH (acc ++ snd e) s1) as (s' & Hrun & Hb & Hl & Hj).
      assert (HW : List.filter (whollyOwned s1 player) gs
                   = List.filter (whollyOwned s player) gs).
      { apply List.filter_ext. intros x. apply whollyOwned_ext. intros j. apply Hj1. }
      rewrite HW in Hrun, Hj.
      exists s'. split; [|split; [|split]].
      * rewrite Hrun. cbn [List.map concat]. rewrite <- app_assoc. reflexivity.
      * eapply same_but_board_trans; [exact Hb1 | exact Hb].
      * congruence.
      * intros j. destruct (Hj j) as (Ho & Hc & Hn). destruct (Hj1 j) as (Ho1 & Hc1 & Hn1).
        split; [congruence|]. split; [congruence|].
        rewrite Hn, Hn1. cbn [List.map concat].
        unfold appears. rewrite existsb_app.
        destruct (existsb (Nat.eqb j) (snd e)), (existsb (Nat.eqb j) _),
          (getNbBuildings s j =? BASE_RENT) eqn:E; cbn; rewrite ?E; reflexivity.
    + destruct (IH acc s) as (s' & Hrun & Hrest). exists s'. split; [exact Hrun | exact Hrest].
Qed.

Lemma getOwnedGroups_fold_again player gs : forall acc s,
  (forall e j, In e gs -> whollyOwned s player e = true -> In j (snd e) ->
               getNbBuildings s j <> BASE_RENT) ->
  fold_left
    (fun (acc : list nat * GameState) (entry : Color * list nat) =>
       let '(owned_properties, st) := acc in
       let propertyList := snd entry in
       let sameOwner := forallb (fun i => ptr_eqb (getOwner st i) player) propertyList in
       if sameOwner
       then (owned_properties ++ propertyList, fold_left upgradeToFullGroup propertyList st)
       else (owned_properties, st))
    gs (acc, s)
  = (acc ++ concat (List.map snd (List.filter (whollyOwned s player) gs)), s).
Proof.
  induction gs as [|e gs IH]; intros acc s Hdone.
  - cbn. rewrite app_nil_r. reflexivity.
  - cbn [fold_left List.filter].
    change (forallb (fun i => ptr_eqb (getOwner s i) player) (snd e))
      with (whollyOwned s player e).
    destruct (whollyOwned s player e) eqn:Hsame.
    + assert (Hskip : forall l, (forall j, In j l -> getNbBuildings s j <> BASE_RENT) ->
                fold_left upgradeToFullGroup l s = s).
      { induction l as [|i l IHl]; intros Hl; [reflexivity|]. cbn [fold_left].
        rewrite upgradeToFullGroup_skip by (apply Hl; left; reflexivity).
        apply IHl. intros j Hj. apply Hl. right. exact Hj. }
      rewrite Hskip by (intros j Hj; apply (Hdone e j); [left; reflexivity | exact Hsame | exact Hj]).
      rewrite IH by (intros e' j He'; apply Hdone; right; exact He').
      cbn [List.map concat]. rewrite <- app_assoc. reflexivity.
    + apply IH. intros e' j He'. apply Hdone. right. exact He'.
Qed.

Lemma appears_In j l : appears j l = true <-> In j l.
Proof.
  unfold appears. rewrite existsb_exists. split.
  - intros (x & Hx & Heq). apply Nat.eqb_eq in Heq. subst. exact Hx.
  - intros Hj. exists j. split; [exact Hj | apply Nat.eqb_refl].
Qed.

Lemma getOwnedGroups_facts player st :
  let owned := ownedGroupsOf st player in
  exists st',
    getOwnedGroups player st = (owned, st')
    /\ st' = set_board (board st') st
    /\ (forall j, getOwner st' j = getOwner st j)
    /\ (forall j, In j owned -> ptr_eqb (getOwner st j) player = true)
    /\ (forall j, getNbBuildings st' j
                  = if appears j owned && (getNbBuildings st j =? BASE_RENT)
                    then FULL_GROUP else getNbBuildings st j)
    /\ getOwnedGroups player st' = (owned, st').
Proof.
  intros owned.
  destruct (getOwnedGroups_fold player (properties st) [] st) as (st' & Hrun & Hb & Hl & Hj).
  cbv zeta in Hrun. cbn [app] in Hrun. fold (ownedGroupsOf st player) in Hrun, Hj. fold owned in Hrun, Hj.
  exists st'. split; [exact Hrun|]. split; [exact Hb|]. split; [intros j; apply Hj|].
  assert (Hown : forall j, In j owned -> ptr_eqb (getOwner st j) player = true).
  { intros j Hin. unfold owned, ownedGroupsOf in Hin.
    apply in_concat in Hin as (l & Hl' & Hjl).
    apply in_map_iff in Hl' as (e & <- & He).
    apply filter_In in He as [_ Hw]. unfold whollyOwned in Hw.
    rewrite forallb_forall in Hw. apply Hw. exact Hjl. }
  split; [exact Hown|]. split; [intros j; apply Hj|].
  unfold getOwnedGroups.
  rewrite (properties_ext st st' Hl (fun j => proj1 (proj2 (Hj j)))).
  rewrite getOwnedGroups_fold_again.
  - cbn [app]. f_equal. unfold owned, ownedGroupsOf. do 2 f_equal.
    apply List.filter_ext. intros e. apply whollyOwned_ext. intros j. apply Hj.
  - intros e j He Hw Hje.
    destruct (Hj j) as (_ & _ & Hn). rewrite Hn.
    assert (Hin : In j owned).
    { unfold owned, ownedGroupsOf. apply in_concat. exists (snd e). split; [|exact Hje].
      apply in_map. apply filter_In. split; [exact He|].
      rewrite <- (whollyOwned_ext st st' player e) by (intros k; apply Hj). exact Hw. }
    apply appears_In in Hin. rewrite Hin. cbn.
    destruct (Z.eqb_spec (getNbBuildings st j) BASE_RENT) as [_|Hne];
      [discriminate | exact Hne].
Qed.

(** X12. [getOwnedGroups] returns the properties of the colour groups that the
    player owns entirely, group after group.  It changes building levels
    only: a returned property at base rent goes to the level of a full
    group; every other level and every owner stays.  A second call returns
    the same list and changes nothing. *)
Theorem getOwnedGroups_spec player st :
  let owned := ownedGroupsOf st player in
  exists st',
    getOwnedGroups player st = (owned, st')
    /\ st' = set_board (board st') st
    /\ (forall j, getOwner st' j = getOwner st j)
    /\ (forall j, In j owned -> ptr_eqb (getOwner st j) player = true)
    /\ (forall j, getNbBuildings st' j
                  = if appears j owned && (getNbBuildings st j =? BASE_RENT)
                    then FULL_GROUP else getNbBuildings st j)
    /\ getOwnedGroups player st' = (owned, st').
Proof. apply getOwnedGroups_facts. Qed.

(** ** buildOnProperties, for a group of any size *)



Lemma later_0 st : later 0 st = st.
Proof. destruct st; reflexivity. Qed.

Lemma later_S k st : later k (next_tick st) = later (S k) st.
Proof.
  unfold later, next_tick, set_tick. cbn.
  replace (k + S (tick st))%nat with (S (k + tick st)) by lia. reflexivity.
Qed.

Section Building.

Variable io : Oracle.
Variables (housePrice0 : Z) (player : ptr).

Lemma askBuildings_spec (properties : list nat) : forall r s,
  exists vs r',
    askBuildings io properties housePrice0 player r s = (r', later (length properties) s)
    /\ buildingsPerProperty r' = buildingsPerProperty r ++ combine properties vs
    /\ length vs = length properties
    /\ minBuildings r' <= minBuildings r
    /\ maxBuildings r <= maxBuildings r'
    /\ Forall (fun v => minBuildings r' <= v <= maxBuildings r') vs
    /\ totalNewBuildings r'
       = totalNewBuildings r + sumZ vs - sumZ (List.map (getNbBuildings s) properties)
    /\ (number_in_range io -> 0 < housePrice0 -> 0 <= getMoney s player ->
        (forall p, In p properties -> 0 <= getNbBuildings s p <= HOTEL) ->
        forall i p v, nth_error properties i = Some p -> nth_error vs i = Some v ->
          getNbBuildings s p <= v <= HOTEL).
Proof.
  induction properties as [|p properties IH]; intros r s.
  - exists [], r. cbn. rewrite later_0, app_nil_r.
    do 5 (split; [reflexivity || lia|]). split; [constructor|]. split; [lia|].
    intros _ _ _ _ [|i] q v Hq; discriminate Hq.
  - cbn [askBuildings].
    set (v := getNbBuildings s p
              + getNumber io (tick s) 0
                  (Z.min (5 - getNbBuildings s p) (Z.quot (getMoney s player) housePrice0))).
    set (r1 := mkRequest _ _ _ _).
    destruct (IH r1 (next_tick s))
      as (vs & r' & Hrun & Hbpp & Hlen & Hmin & Hmax & Hall & Htot & Hans).
    exists (v :: vs), r'. rewrite Hrun, later_S.
    split; [reflexivity|]. split.
    { rewrite Hbpp. unfold r1. cbn. rewrite <- app_assoc. reflexivity. }
    split; [cbn; lia|].
    unfold r1 in Hmin, Hmax, Htot. cbn in Hmin, Hmax, Htot.
    split; [lia|]. split; [lia|]. split.
    { constructor; [lia | exact Hall]. }
    split.
    { cbn [sumZ fold_right List.map]. fold (sumZ vs).
      change (List.map (getNbBuildings (next_tick s)) properties)
        with (List.map (getNbBuildings s) properties) in Htot.
      fold (sumZ (List.map (getNbBuildings s) properties)). unfold v. lia. }
    intros Hio Hprice Hmoney Hlevels [|i] q w Hq Hw.
    + cbn in Hq, Hw. injection Hq as <-. injection Hw as <-.
      assert (Hcur : 0 <= getNbBuildings s p <= HOTEL) by (apply Hlevels; left; reflexivity).
      assert (Hquot : 0 <= Z.quot (getMoney s player) housePrice0)
        by (apply Z.quot_pos; lia).
      pose proof (Hio (tick s) 0
                    (Z.min (5 - getNbBuildings s p)
                           (Z.quot (getMoney s player) housePrice0))) as Hn.
      unfold v, HOTEL in *. lia.
    + cbn in Hq, Hw.
      apply (Hans Hio Hprice Hmoney (fun x Hx => Hlevels x (or_intror Hx)) i q w Hq Hw).
Qed.

End Building.

Lemma commitBuildings_other l : forall s p,
  ~ In p (List.map fst l) ->
  getNbBuildings (commitBuildings l s) p = getNbBuildings s p.
Proof.
  induction l as [|[q v] l IH]; intros s p Hp; [reflexivity|].
  unfold commitBuildings in *. cbn [fold_left fst snd]. cbn in Hp.
  rewrite IH by tauto. apply getNbBuildings_setNbBuildings_ne. tauto.
Qed.

Lemma commitBuildings_heap l : forall s, heap (commitBuildings l s) = heap s.
Proof.
  induction l as [|e l IH]; intros s; [reflexivity|].
  unfold commitBuildings in *. cbn [fold_left]. rewrite IH. reflexivity.
Qed.

Lemma commitBuildings_frame l : forall s,
  players (commitBuildings l s) = players s
  /\ currentPlayer (commitBuildings l s) = currentPlayer s
  /\ length (board (commitBuildings l s)) = length (board s).
Proof.
  induction l as [|e l IH]; intros s; [repeat split|].
  unfold commitBuildings in *. cbn [fold_left].
  destruct (IH (setNbBuildings (fst e) (snd e) s)) as (A & B & C).
  rewrite A, B, C. repeat split. unfold setNbBuildings, updSpace. cbn. apply length_alter.
Qed.

Lemma commitBuildings_levels properties : forall vs s,
  length vs = length properties ->
  NoDup properties ->
  Forall (isProperty s) properties ->
  List.map (getNbBuildings (commitBuildings (combine properties vs) s)) properties = vs.
Proof.
  induction properties as [|p properties IH]; intros vs s Hlen Hnd Hall.
  - destruct vs; [reflexivity | discriminate].
  - destruct vs as [|v vs]; [discriminate|].
    destruct (proj1 (NoDup_cons _ _) Hnd) as [Hp Hnd'].
    destruct (proj1 (Forall_cons _ _ _) Hall) as [Hprop Hall'].
    cbn [combine List.map]. unfold commitBuildings. cbn [fold_left fst snd].
    fold (commitBuildings (combine properties vs) (setNbBuildings p v s)).
    f_equal.
    + rewrite commitBuildings_other.
      * apply getNbBuildings_setNbBuildings_eq. exact Hprop.
      * intros Hin. apply Hp. apply list_elem_of_In.
        apply in_map_iff in Hin as ([q w] & Hq & Hin). cbn in Hq. subst q.
        eapply in_combine_l. exact Hin.
    + apply IH; [cbn in Hlen; lia | exact Hnd' |].
      eapply Forall_impl; [exact Hall'|]. intros q Hq.
      apply isProperty_setNbBuildings. exact Hq.
Qed.



Lemma sumZ_map_sub (f g : nat -> Z) l :
  sumZ (List.map (fun p => f p - g p) l) = sumZ (List.map f l) - sumZ (List.map g l).
Proof. induction l as [|x l IH]; cbn; [reflexivity|]. unfold sumZ in *. lia. Qed.

Lemma sumZ_map_le (f : nat -> Z) (l : list nat) : forall vs,
  length vs = length l ->
  (forall i p v, nth_error l i = Some p -> nth_error vs i = Some v -> f p <= v) ->
  sumZ (List.map f l) <= sumZ vs.
Proof.
  induction l as [|x l IH]; intros [|v vs] Hlen H; try discriminate Hlen.
  { cbn. lia. }
  cbn [List.map sumZ fold_right]. fold (sumZ (List.map f l)). fold (sumZ vs).
  pose proof (H 0%nat x v eq_refl eq_refl).
  assert (sumZ (List.map f l) <= sumZ vs).
  { apply IH; [cbn in Hlen; lia|]. intros i p w Hp Hw. apply (H (S i) p w Hp Hw). }
  lia.
Qed.

Lemma commitBuildings_lookup_other l : forall s j,
  ~ In j (List.map fst l) -> board (commitBuildings l s) !! j = board s !! j.
Proof.
  induction l as [|[q v] l IH]; intros s j Hj; [reflexivity|].
  unfold commitBuildings in *. cbn [fold_left fst snd]. cbn in Hj.
  rewrite IH by tauto. unfold setNbBuildings, updSpace. cbn.
  apply list_lookup_alter_ne. tauto.
Qed.

Lemma buildOnProperties_once_outcome io properties player attempts st :
  allocated st player ->
  NoDup properties ->
  Forall (isProperty st) properties ->
  properties <> [] ->
  number_in_range io ->
  0 < getHousePrice st (hd 0%nat properties) ->
  0 <= getMoney st player ->
  (forall p, In p properties -> 0 <= getNbBuildings st p <= HOTEL) ->
  exists k,
    let asked := later k st in
    (attempts > 50 /\ buildOnProperties_once io properties player attempts st
                      = Some BuildTooManyAttempts)
    \/ (attempts <= 50 /\ buildOnProperties_once io properties player attempts st
                          = Some (BuildRetry asked))
    \/ (attempts <= 50 /\ buildOnProperties_once io properties player attempts st
                          = Some (BuildNotEnoughMoney asked))
    \/ (attempts <= 50 /\ exists st',
          buildOnProperties_once io properties player attempts st = Some (BuildCommitted st')
          /\ built_or_untouched properties player st st'
          /\ players st' = players st /\ currentPlayer st' = currentPlayer st).
Proof.
  intros Halloc Hnd Hall Hne Hio Hhp Hmoney Hlv.
  destruct properties as [|first rest]; [congruence|]. cbn [hd] in Hhp.
  destruct (askBuildings_spec io (getHousePrice st first) player (first :: rest)
              emptyRequest st)
    as (vs & r & Hask & Hbpp & Hlen & _ & _ & Hrange & Htot & Hans).
  specialize (Hans Hio Hhp Hmoney Hlv).
  exists (length (first :: rest)). cbv zeta.
  unfold buildOnProperties_once.
  destruct (Z.gtb_spec attempts 50) as [Hmany|Hfew]; [left; split; [lia | reflexivity]|].
  right.
  destruct (Z.eqb_spec (getHousePrice st first) 0); [lia|].
  rewrite Hask.
  destruct (Z.gtb_spec (maxBuildings r - minBuildings r) 1) as [Hwide|Hclose];
    [left; split; [lia | reflexivity]|].
  right.
  change (getMoney (later (length (first :: rest)) st) player) with (getMoney st player).
  destruct (Z.gtb_spec (totalNewBuildings r * getHousePrice st first) (getMoney st player))
    as [Hdear|Hcheap]; [left; split; [lia | reflexivity]|].
  right. split; [lia|]. eexists. split; [reflexivity|].
  cbn [buildingsPerProperty emptyRequest app] in Hbpp. rewrite Hbpp.
  set (asked := later (length (first :: rest)) st).
  set (cost := totalNewBuildings r * getHousePrice st first) in *.
  set (paid := transferMoneyFromTo (Some player) None cost asked).
  assert (Hboard : board paid = board st)
    by (unfold paid; rewrite board_transferMoneyFromTo; reflexivity).
  assert (Hlevels : List.map (getNbBuildings (commitBuildings (combine (first :: rest) vs) paid))
                      (first :: rest) = vs).
  { apply commitBuildings_levels; try assumption.
    eapply Forall_impl; [exact Hall|]. intros q Hq.
    eapply isProperty_same_board; [exact Hboard | exact Hq]. }
  split; [|split; apply commitBuildings_frame || idtac].
  - right. exists first, rest. split; [reflexivity|]. cbv zeta.
    rewrite sumZ_map_sub, Hlevels.
    cbn [totalNewBuildings emptyRequest] in Htot.
    replace (getHousePrice st first
             * (sumZ vs - sumZ (List.map (getNbBuildings st) (first :: rest))))
      with cost by (unfold cost; rewrite Htot; lia).
    split.
    { split; [|exact Hcheap]. unfold cost. rewrite Htot.
      assert (sumZ (List.map (getNbBuildings st) (first :: rest)) <= sumZ vs).
      { apply sumZ_map_le; [exact Hlen|]. intros i x v Hx Hv. apply (Hans i x v Hx Hv). }
      nia. }
    split.
    { unfold getMoney, deref. rewrite commitBuildings_heap. fold (deref paid player).
      fold (getMoney paid player). unfold paid.
      rewrite getMoney_pay; [reflexivity | exact Halloc | exact Hcheap]. }
    split.
    { intros p q Hp Hq.
      assert (Hin : forall x, In x (first :: rest) ->
                minBuildings r
                <= getNbBuildings (commitBuildings (combine (first :: rest) vs) paid) x
                <= maxBuildings r).
      { intros x Hx. apply In_nth_error in Hx as [i Hi].
        assert (Hv : nth_error vs i
                     = Some (getNbBuildings
                               (commitBuildings (combine (first :: rest) vs) paid) x)).
        { rewrite <- Hlevels at 1. rewrite nth_error_map, Hi. reflexivity. }
        apply nth_error_In in Hv. rewrite List.Forall_forall in Hrange.
        apply (Hrange _ Hv). }
      pose proof (Hin p Hp). pose proof (Hin q Hq). lia. }
    split.
    { intros x Hx. apply In_nth_error in Hx as [i Hi].
      apply (Hans i x); [exact Hi|].
      rewrite <- Hlevels at 1. rewrite nth_error_map, Hi. reflexivity. }
    split.
    { intros q Hq. unfold deref. rewrite commitBuildings_heap. fold (deref paid q).
      unfold paid. destruct (only_player_pay player cost asked) as (_ & _ & _ & _ & Ho).
      rewrite Ho by exact Hq. reflexivity. }
    intros j Hj. rewrite commitBuildings_lookup_other.
    + rewrite Hboard. reflexivity.
    + intros Hin. apply Hj. apply in_map_iff in Hin as ([q w] & Hq & Hin). cbn in Hq.
      subst q. eapply in_combine_l. exact Hin.
  - destruct (commitBuildings_frame (combine (first :: rest) vs) paid) as (A & _ & _).
    rewrite A. unfold paid.
    destruct (only_player_pay player cost asked) as (_ & Hp & _). rewrite Hp. reflexivity.
  - destruct (commitBuildings_frame (combine (first :: rest) vs) paid) as (_ & B & _).
    rewrite B. unfold paid.
    destruct (only_player_pay player cost asked) as (_ & _ & Hc & _). rewrite Hc. reflexivity.
Qed.

Lemma buildOnProperties_bounded io properties player :
  NoDup properties ->
  properties <> [] ->
  number_in_range io ->
  forall (n : nat) attempts st,
    allocated st player ->
    Forall (isProperty st) properties ->
    0 < getHousePrice st (hd 0%nat properties) ->
    0 <= getMoney st player ->
    (forall p, In p properties -> 0 <= getNbBuildings st p <= HOTEL) ->
    (1 <= n)%nat ->
    52 - attempts <= Z.of_nat n ->
    exists st',
      buildOnProperties io n properties player attempts st = Some st'
      /\ built_or_untouched properties player st st'
      /\ players st' = players st
      /\ currentPlayer st' = currentPlayer st.
Proof.
  intros Hnd Hne Hio.
  induction n as [|n IH]; intros attempts st Halloc Hall Hhp Hmoney Hlv Hn Hfuel; [lia|].
  cbn [buildOnProperties].
  destruct (buildOnProperties_once_outcome io properties player attempts st
              Halloc Hnd Hall Hne Hio Hhp Hmoney Hlv) as (k & Hcases). cbv zeta in Hcases.
  destruct Hcases as [(_ & ->) | [(Hfew & ->) | [(_ & ->) | (_ & st' & -> & Hbuilt & Hp & Hc)]]].
  - exists st. split; [reflexivity|]. split; [left; split; reflexivity|]. split; reflexivity.
  - destruct (IH (attempts + 1) (later k st)) as (st' & Hrun & Hbuilt & Hp & Hc);
      try assumption; try lia.
    exists st'. split; [exact Hrun|]. split; [exact Hbuilt|]. split; assumption.
  - exists (later k st). split; [reflexivity|]. split; [left; split; reflexivity|].
    split; reflexivity.
  - exists st'. split; [reflexivity|]. split; [exact Hbuilt|]. split; assumption.
Qed.

(** X13. When the prompts are answered in the range asked for, the house
    price is positive, the player has money that is not negative and every
    property of the group is at a level from 0 to [HOTEL], the build
    request ends after at most 52 rounds of prompts.  It either leaves the
    board and the players as they were, or sets levels in the group that
    are within one of each other, not below the former ones and not above
    [HOTEL], and takes from the player the house price of every level
    added, which the player could pay.  Five levels on every property of
    the group cost an [int], so that the cost computed in every round is
    one. *)
Theorem buildOnProperties_all_or_nothing io properties player attempts st :
  number_in_range io ->
  allocated st player ->
  NoDup properties ->
  Forall (isProperty st) properties ->
  properties <> [] ->
  0 < getHousePrice st (hd 0%nat properties) ->
  5 * Z.of_nat (length properties) * getHousePrice st (hd 0%nat properties) <= INT_MAX ->
  0 <= getMoney st player <= INT_MAX ->
  (forall p, In p properties -> 0 <= getNbBuildings st p <= HOTEL) ->
  exists st',
    buildOnProperties io (Z.to_nat (Z.max 1 (52 - attempts))) properties player attempts st
    = Some st'
    /\ built_or_untouched properties player st st'
    /\ players st' = players st
    /\ currentPlayer st' = currentPlayer st.
Proof.
  intros Hio Halloc Hnd Hall Hne Hhp _ [Hmoney _] Hlv.
  apply buildOnProperties_bounded; try assumption; lia.
Qed.

(** ** The bankruptcy check *)

Lemma lookup_map {A B} (f : A -> B) (l : list A) (j : nat) :
  List.map f l !! j = f <$> (l !! j).
Proof. revert j. induction l as [|x l IH]; intros [|j]; cbn; auto. Qed.

Lemma releaseSpaces_lookup p s j :
  getOwner s j <> Some p -> board (releaseSpaces p s) !! j = board s !! j.
Proof.
  unfold releaseSpaces, getOwner. cbn. rewrite lookup_map.
  destruct (board s !! j) as [x|]; [|reflexivity]. cbn. intros Ho. f_equal.
  unfold releaseSpace. destruct (asBuyable x) as [b|]; [|reflexivity].
  destruct (owner b) as [o|] eqn:Eo; [|reflexivity]. cbn.
  destruct (Nat.eqb_spec o p) as [->|Hne]; [contradiction | reflexivity].
Qed.

Lemma releaseSpaces_getOwner p s j :
  getOwner (releaseSpaces p s) j
  = if ptr_eqb (getOwner s j) (Some p) then None else getOwner s j.
Proof.
  unfold releaseSpaces, getOwner. cbn. rewrite lookup_map.
  destruct (board s !! j) as [x|]; [|reflexivity]. cbn.
  unfold releaseSpace. destruct x; cbn; try reflexivity;
    (destruct b as [bn bp br [o|]]; cbn; [destruct (Nat.eqb o p); reflexivity | reflexivity]).
Qed.

Lemma erase_first_sublist (l : list nat) p : sublist (erase_first p l) l.
Proof.
  induction l as [|x l IH]; cbn; [constructor|].
  destruct (Nat.eqb x p); [apply sublist_cons, reflexivity | apply sublist_skip, IH].
Qed.

Lemma checkBankruptcy_spec : forall (n i : nat) (st : GameState),
  NoDup (players st) ->
  let st' := checkBankruptcy n i st in
  heap st' = heap st
  /\ currentPlayer st' = currentPlayer st
  /\ sublist (players st') (players st)
  /\ (forall j q, getOwner st' j = Some q -> getOwner st j = Some q)
  /\ (forall q, q ∈ players st -> q ∉ players st' ->
        getMoney st q = 0 /\ forall j, getOwner st' j <> Some q)
  /\ (forall j, (forall q, getOwner st j = Some q -> q ∈ players st -> q ∈ players st') ->
        board st' !! j = board st !! j).
Proof.
  induction n as [|n IH]; intros i st Hnd; cbn [checkBankruptcy].
  - cbv zeta. repeat split; try reflexivity; try tauto.
  - destruct (getPlayer st i) as [player|] eqn:Hplayer.
    2: { cbv zeta. repeat split; try reflexivity; try tauto. }
    destruct (Z.eqb_spec (getMoney st player) 0) as [Hzero|Hpos]; [|apply IH; exact Hnd].
    set (st1 := removePlayer player (releaseSpaces player st)).
    assert (Hp1 : players st1 = erase_first player (players st)) by reflexivity.
    destruct (erase_first_NoDup (players st) player Hnd) as [Hnd1 Hgone].
    rewrite <- Hp1 in Hnd1, Hgone.
    destruct (IH (S i) st1 Hnd1) as (Hheap & Hcur & Hsub & Hown & Hrem & Hkeep).
    cbv zeta in *.
    set (st' := checkBankruptcy n (S i) st1) in *.
    assert (Hown1 : forall j, getOwner st1 j
                      = if ptr_eqb (getOwner st j) (Some player) then None else getOwner st j)
      by (intros j; apply releaseSpaces_getOwner).
    assert (Hgone' : player ∉ players st').
    { intros Hin. apply Hgone. eapply elem_of_sublist; eassumption. }
    split; [exact Hheap|]. split; [exact Hcur|]. split.
    { etransitivity; [exact Hsub|]. rewrite Hp1. apply erase_first_sublist. }
    split.
    { intros j q Hq. specialize (Hown j q Hq). rewrite Hown1 in Hown.
      destruct (ptr_eqb (getOwner st j) (Some player)); [discriminate | exact Hown]. }
    split.
    { intros q Hin Hout. destruct (Nat.eq_dec q player) as [->|Hne].
      - split; [exact Hzero|]. intros j Hj. specialize (Hown j player Hj).
        rewrite Hown1 in Hown.
        destruct (getOwner st j) as [o|]; cbn in Hown; [|discriminate].
        destruct (Nat.eqb_spec o player); [discriminate | congruence].
      - assert (Hin1 : q ∈ players st1)
          by (rewrite Hp1; apply erase_first_elem_of; assumption).
        destruct (Hrem q Hin1 Hout) as [Hm Ho]. split; [exact Hm | exact Ho]. }
    intros j Hj.
    assert (Hnot : getOwner st j <> Some player).
    { intros Ho. apply Hgone'. apply (Hj player Ho).
      apply list_elem_of_lookup. exists i. exact Hplayer. }
    rewrite Hkeep.
    + apply releaseSpaces_lookup. exact Hnot.
    + intros q Hq Hin1. rewrite Hown1 in Hq.
      destruct (ptr_eqb (getOwner st j) (Some player)); [discriminate|].
      apply (Hj q Hq). eapply elem_of_sublist; [exact Hin1|].
      rewrite Hp1. apply erase_first_sublist.
Qed.

(** X14. The bankruptcy scan removes only players that have no money; every
    space of a removed player goes back to the bank, no space is given to
    anyone, the spaces whose owner stays are left as they are, and neither
    the player objects nor the player to move change. *)
Theorem checkBankruptcy_removes_only_the_bankrupt n i st :
  NoDup (players st) ->
  let st' := checkBankruptcy n i st in
  heap st' = heap st
  /\ currentPlayer st' = currentPlayer st
  /\ sublist (players st') (players st)
  /\ (forall j q, getOwner st' j = Some q -> getOwner st j = Some q)
  /\ (forall q, q ∈ players st -> q ∉ players st' ->
        getMoney st q = 0 /\ forall j, getOwner st' j <> Some q)
  /\ (forall j, (forall q, getOwner st j = Some q -> q ∈ players st -> q ∈ players st') ->
        board st' !! j = board st !! j).
Proof. apply checkBankruptcy_spec. Qed.

(** ** What a landing is made of

    Every state change of the engine is one of a few elementary writes.  A
    relation closed under these writes holds between the state before and
    the state after [handleSpace], [movePlayer], a draw or a card. *)

Lemma ptr_eqb_eq a b : ptr_eqb a b = true -> a = b.
Proof.
  destruct a as [x|], b as [y|]; cbn; try discriminate; [|reflexivity].
  intros H. apply Nat.eqb_eq in H. congruence.
Qed.

Lemma at_index_lookup {A} (v : list A) (i : Z) (x : A) :
  at_index v i = Some x -> v !! Z.to_nat i = Some x /\ 0 <= i.
Proof.
  unfold at_index. destruct (i <? 0) eqn:E; [discriminate|].
  intros H. split; [exact H | lia].
Qed.

Lemma at_index_elem_of {A} (v : list A) (i : Z) (x : A) : at_index v i = Some x -> x ∈ v.
Proof. intros H. apply at_index_lookup in H as [H _]. eapply list_elem_of_lookup_2, H. Qed.

Lemma rollDice_as_writes io st :
  rollDice io st
  = next_tick (next_tick
      (set_currentDicesValue (roll io (tick st), roll io (S (tick st))) st)).
Proof. reflexivity. Qed.

Section Building.

Variable io : Oracle.
Variable R : GameState -> GameState -> Prop.

Hypothesis R_refl : forall st, R st st.
Hypothesis R_trans : forall st1 st2 st3, R st1 st2 -> R st2 st3 -> R st1 st3.
Hypothesis R_tick : forall st, R st (next_tick st).
Hypothesis R_level : forall st i n, R st (setNbBuildings i n st).
Hypothesis R_to_bank : forall st p a, R st (transferMoneyFromTo (Some p) None a st).

Lemma askBuildings_R housePrice0 player properties : forall r st,
  R st (snd (askBuildings io properties housePrice0 player r st)).
Proof.
  induction properties as [|property properties IH]; intros r st; cbn [askBuildings].
  - apply R_refl.
  - cbv zeta. eapply R_trans; [apply R_tick | apply IH].
Qed.

Lemma commitBuildings_R l : forall st, R st (commitBuildings l st).
Proof.
  unfold commitBuildings.
  induction l as [|e l IH]; intros st; cbn [fold_left]; [apply R_refl|].
  eapply R_trans; [apply R_level | apply IH].
Qed.

Lemma buildOnProperties_R : forall fuel properties player attempts st st',
  buildOnProperties io fuel properties player attempts st = Some st' -> R st st'.
Proof.
  induction fuel as [|fuel IH]; intros properties player attempts st st' H; [discriminate|].
  cbn [buildOnProperties] in H. unfold buildOnProperties_once in H.
  destruct (attempts >? 50); [inversion H; apply R_refl|].
  destruct properties as [|first rest]; [discriminate|].
  destruct (getHousePrice st first =? 0); [discriminate|].
  pose proof (askBuildings_R (getHousePrice st first) player (first :: rest) emptyRequest st)
    as Ra.
  destruct (askBuildings io (first :: rest) (getHousePrice st first) player emptyRequest st)
    as [r st1].
  cbn [snd] in Ra.
  destruct (maxBuildings r - minBuildings r >? 1).
  - eapply R_trans; [exact Ra | eapply IH, H].
  - destruct (_ >? getMoney st1 player); inversion H; subst.
    + exact Ra.
    + eapply R_trans; [exact Ra|].
      eapply R_trans; [apply R_to_bank | apply commitBuildings_R].
Qed.

End Building.

Lemma auction_loop_same_but_tick io : forall fuel q b st q' b' st',
  auction_loop io fuel q b st = Some (q', b', st') -> same_but_tick st st'.
Proof.
  induction fuel as [|fuel IH]; intros q b st q' b' st' H.
  - destruct q as [|x [|y q]]; cbn in H; inversion H; subst; apply same_but_tick_refl.
  - destruct q as [|x [|y q]]; cbn [auction_loop] in H;
      [inversion H; subst; apply same_but_tick_refl .. |].
    destruct (getMoney st x - 1 <=? b).
    + eapply IH, H.
    + destruct (getYesNo io (tick st)).
      * apply same_but_tick_next, same_but_tick_next. eapply IH, H.
      * apply same_but_tick_next. eapply IH, H.
Qed.

Lemma getOwner_same_board st st' i : board st' = board st -> getOwner st' i = getOwner st i.
Proof. unfold getOwner. intros ->. reflexivity. Qed.

Section Landing.

Variable io : Oracle.
Variable R : GameState -> GameState -> Prop.

Hypothesis R_refl : forall st, R st st.
Hypothesis R_trans : forall st1 st2 st3, R st1 st2 -> R st2 st3 -> R st1 st3.
Hypothesis R_tick : forall st, R st (next_tick st).
Hypothesis R_dice :
  forall st k, R st (set_currentDicesValue (roll io k, roll io (S k)) st).
Hypothesis R_player :
  forall st p f,
    (forall x, name (f x) = name x /\ money (f x) = money x /\ position (f x) = position x) ->
    R st (updPlayer p f st).
Hypothesis R_position :
  forall st p v, 0 <= v < to_int (board_size st) \/ v = 10 -> R st (setPosition p v st).
Hypothesis R_chanceTaken : forall st b, R st (setChanceGOJFCTaken b st).
Hypothesis R_communityChestTaken : forall st b, R st (setCommunityChestGOJFCTaken b st).
Hypothesis R_chanceDeck :
  forall st, R st (set_chanceDeck (shuffle io (tick st) (chanceDeck st)) st).
Hypothesis R_communityChestDeck :
  forall st, R st (set_communityChestDeck (shuffle io (tick st) (communityChestDeck st)) st).
Hypothesis R_owner :
  forall st p i, getOwner st i = None -> R st (affectOwnership p i st).
Hypothesis R_upgrade :
  forall st i p, getOwner st i = Some p -> R st (setNbBuildings i FULL_GROUP st).
Hypothesis R_to_bank : forall st p a, R st (transferMoneyFromTo (Some p) None a st).
Hypothesis R_bonus : forall st p, R st (transferMoneyFromTo None (Some p) 200 st).
Hypothesis R_receive :
  forall st card a p,
    card ∈ chanceDeck st \/ card ∈ communityChestDeck st ->
    _actionFunction card = Some (Receive a) ->
    R st (transferMoneyFromTo None (Some p) a st).
Hypothesis R_gift :
  forall st card g q p,
    card ∈ chanceDeck st \/ card ∈ communityChestDeck st ->
    _actionFunction card = Some (Birthday g) ->
    R st (transferMoneyFromTo (Some q) (Some p) g st).
Hypothesis R_rent :
  forall st i s b r p o,
    board st !! i = Some s -> asBuyable s = Some b -> r ∈ rent b ->
    R st (transferMoneyFromTo (Some p) (Some o) r st).
Hypothesis R_utility_rent :
  forall st p o k,
    0 <= k ->
    R st (transferMoneyFromTo (Some p) (Some o)
            ((fst (currentDicesValue st) + snd (currentDicesValue st)) * k) st).

Lemma rollDice_R st : R st (rollDice io st).
Proof.
  rewrite rollDice_as_writes.
  eapply R_trans; [apply R_dice|]. eapply R_trans; apply R_tick.
Qed.

Lemma auction_loop_R : forall fuel q b st q' b' st',
  auction_loop io fuel q b st = Some (q', b', st') -> R st st'.
Proof.
  induction fuel as [|fuel IH]; intros q b st q' b' st' H.
  - destruct q as [|x [|y q]]; cbn in H; inversion H; subst; apply R_refl.
  - destruct q as [|x [|y q]]; cbn [auction_loop] in H;
      [inversion H; subst; apply R_refl .. |].
    destruct (getMoney st x - 1 <=? b).
    + eapply IH, H.
    + destruct (getYesNo io (tick st)).
      * eapply R_trans; [apply R_tick|]. eapply R_trans; [apply R_tick|]. eapply IH, H.
      * eapply R_trans; [apply R_tick|]. eapply IH, H.
Qed.

Lemma auction_settle_R fuel this st w b st' :
  getOwner st this = None ->
  auction_settle io fuel this st = Some (w, b, st') -> R st st'.
Proof.
  intros Hfree. unfold auction_settle.
  destruct (auction_loop io fuel (players st) 0 st) as [[[q b1] st1]|] eqn:E; [|discriminate].
  destruct q as [|winner q]; [discriminate|].
  assert (Hfree1 : forall p a, getOwner (transferMoneyFromTo (Some p) None a st1) this = None).
  { intros p a. rewrite <- Hfree. apply getOwner_same_board.
    rewrite board_transferMoneyFromTo.
    pose proof (auction_loop_same_but_tick io _ _ _ _ _ _ _ E) as Hs.
    unfold same_but_tick in Hs. rewrite Hs. reflexivity. }
  intros H. inversion H; subst.
  eapply R_trans; [eapply auction_loop_R, E|].
  eapply R_trans; [apply R_to_bank | apply R_owner, Hfree1].
Qed.

Lemma Property_auction_R fuel this st st' :
  getOwner st this = None ->
  Property_auction io fuel this st = Some st' -> R st st'.
Proof.
  intros Hfree. unfold Property_auction.
  destruct (auction_settle io fuel this st) as [[[w b] st1]|] eqn:E; [|discriminate].
  intros H. inversion H; subst. eapply auction_settle_R; [exact Hfree | exact E].
Qed.

Lemma Station_auction_R fuel this st st' :
  getOwner st this = None ->
  Station_auction io fuel this st = Some st' -> R st st'.
Proof.
  intros Hfree. unfold Station_auction.
  destruct (auction_settle io fuel this st) as [[[w b] st1]|] eqn:E; [|discriminate].
  intros H. inversion H; subst.
  eapply R_trans; [eapply auction_settle_R; [exact Hfree | exact E]|].
  apply R_player. intros x. repeat split.
Qed.

Lemma Utility_auction_R fuel this st st' :
  getOwner st this = None ->
  Utility_auction io fuel this st = Some st' -> R st st'.
Proof.
  intros Hfree. unfold Utility_auction.
  destruct (auction_settle io fuel this st) as [[[w b] st1]|] eqn:E; [|discriminate].
  intros H. inversion H; subst.
  eapply R_trans; [eapply auction_settle_R; [exact Hfree | exact E]|].
  apply R_player. intros x. repeat split.
Qed.

Lemma Property_action_R fuel this b c h n st st' :
  board st !! this = Some (Property b c h n) ->
  Property_action io fuel this b n st = Some st' -> R st st'.
Proof.
  intros Hsp. unfold Property_action.
  destruct (getCurrentPlayer st) as [player|]; [|discriminate].
  assert (Hown : getOwner st this = owner b) by (unfold getOwner; rewrite Hsp; reflexivity).
  destruct (owner b) as [o|].
  - destruct (Nat.eqb o player).
    + intros H. inversion H. apply R_refl.
    + destruct (at_index (rent b) n) as [r|] eqn:Er; [|discriminate].
      intros H. inversion H.
      eapply R_rent; [exact Hsp | reflexivity | eapply at_index_elem_of, Er].
  - cbv zeta.
    destruct (getYesNo io (tick st)).
    + destruct (getMoney (next_tick st) player <? price b).
      * intros H. eapply R_trans; [apply R_tick|].
        eapply Property_auction_R; [exact Hown | exact H].
      * intros H. inversion H.
        eapply R_trans; [apply R_tick|]. eapply R_trans; [apply R_to_bank | apply R_owner].
        exact (eq_trans (getOwner_same_board st _ this
                           (board_transferMoneyFromTo (next_tick st) (Some player) None
                              (price b))) Hown).
    + intros H. eapply R_trans; [apply R_tick|].
      eapply Property_auction_R; [exact Hown | exact H].
Qed.

Lemma Station_action_R fuel this b st st' :
  board st !! this = Some (Station b) ->
  Station_action io fuel this b st = Some st' -> R st st'.
Proof.
  intros Hsp. unfold Station_action.
  destruct (getCurrentPlayer st) as [player|]; [|discriminate].
  assert (Hown : getOwner st this = owner b) by (unfold getOwner; rewrite Hsp; reflexivity).
  destruct (owner b) as [o|].
  - destruct (Nat.eqb o player).
    + intros H. inversion H. apply R_refl.
    + destruct (at_index (rent b) (getNbStationsOwned st o - 1)) as [r|] eqn:Er; [|discriminate].
      intros H. inversion H.
      eapply R_rent; [exact Hsp | reflexivity | eapply at_index_elem_of, Er].
  - cbv zeta.
    destruct (getYesNo io (tick st)).
    + destruct (getMoney (next_tick st) player <? price b).
      * intros H. eapply R_trans; [apply R_tick|].
        eapply Station_auction_R; [exact Hown | exact H].
      * intros H. inversion H.
        eapply R_trans; [apply R_tick|]. eapply R_trans; [apply R_to_bank|].
        eapply R_trans; [apply R_owner|apply R_player; intros x; repeat split].
        exact (eq_trans (getOwner_same_board st _ this
                           (board_transferMoneyFromTo (next_tick st) (Some player) None
                              (price b))) Hown).
    + intros H. eapply R_trans; [apply R_tick|].
      eapply Station_auction_R; [exact Hown | exact H].
Qed.

Lemma Utility_action_R fuel this b st st' :
  board st !! this = Some (Utility b) ->
  Utility_action io fuel this b st = Some st' -> R st st'.
Proof.
  intros Hsp. unfold Utility_action.
  destruct (getCurrentPlayer st) as [player|]; [|discriminate].
  assert (Hown : getOwner st this = owner b) by (unfold getOwner; rewrite Hsp; reflexivity).
  destruct (owner b) as [o|].
  - destruct (Nat.eqb o player).
    + intros H. inversion H. apply R_refl.
    + intros H. inversion H. apply R_utility_rent.
      destruct (getNbUtilitiesOwned st o =? 1); lia.
  - cbv zeta.
    destruct (getYesNo io (tick st)).
    + destruct (getMoney (next_tick st) player <? price b).
      * intros H. eapply R_trans; [apply R_tick|].
        eapply Utility_auction_R; [exact Hown | exact H].
      * intros H. inversion H.
        eapply R_trans; [apply R_tick|]. eapply R_trans; [apply R_to_bank|].
        eapply R_trans; [apply R_owner|apply R_player; intros x; repeat split].
        exact (eq_trans (getOwner_same_board st _ this
                           (board_transferMoneyFromTo (next_tick st) (Some player) None
                              (price b))) Hown).
    + intros H. eapply R_trans; [apply R_tick|].
      eapply Utility_auction_R; [exact Hown | exact H].
Qed.

Lemma Jail_payOrRoll_R player st : R st (Jail_payOrRoll io player st).
Proof.
  unfold Jail_payOrRoll. cbv zeta.
  eapply R_trans; [apply R_tick|].
  destruct (getYesNo io (tick st)).
  - destruct (getMoney (next_tick st) player <? 50).
    + apply R_player. intros x. repeat split.
    + eapply R_trans; [apply R_to_bank|]. apply R_player. intros x. repeat split.
  - eapply R_trans; [apply rollDice_R|].
    destruct (_ =? _); apply R_player; intros x; repeat split.
Qed.

Lemma Jail_useCard_R player st : R st (Jail_useCard player st).
Proof.
  unfold Jail_useCard. cbv zeta.
  eapply R_trans; [apply (R_player st player (setRemainingTurnsInJail_ 0)); intros x; repeat split|].
  destruct (getHasChanceGOJFC _ _).
  - eapply R_trans; [|apply R_chanceTaken]. apply R_player. intros x. repeat split.
  - eapply R_trans; [|apply R_communityChestTaken]. apply R_player. intros x. repeat split.
Qed.

Lemma Jail_action_R st st' : Jail_action io st = Some st' -> R st st'.
Proof.
  unfold Jail_action.
  destruct (getCurrentPlayer st) as [player|]; [|discriminate].
  destruct (getRemainingTurnsInJail st player >? 0).
  - destruct (_ || _).
    + cbv zeta. destruct (getYesNo io (tick st)); intros H; inversion H.
      * eapply R_trans; [apply R_tick | apply Jail_useCard_R].
      * eapply R_trans; [apply R_tick | apply Jail_payOrRoll_R].
    + intros H. inversion H. apply Jail_payOrRoll_R.
  - intros H. inversion H. apply R_refl.
Qed.

Lemma upgrade_group_R p l : forall st,
  (forall i, In i l -> getOwner st i = Some p) ->
  R st (fold_left upgradeToFullGroup l st).
Proof.
  induction l as [|i l IH]; intros st Ho; cbn [fold_left]; [apply R_refl|].
  eapply R_trans; [|apply IH].
  - unfold upgradeToFullGroup.
    destruct (_ =? _); [apply (R_upgrade st i p), Ho; left; reflexivity | apply R_refl].
  - intros j Hj. unfold upgradeToFullGroup.
    destruct (_ =? _); [rewrite getOwner_setNbBuildings|]; apply Ho; right; exact Hj.
Qed.

(** The groups that [getOwnedGroups] upgrades for a player belong to that
    player. *)
Lemma getOwnedGroups_fold_R p gs : forall acc,
  R (snd acc)
    (snd (fold_left
            (fun (acc : list nat * GameState) (entry : Color * list nat) =>
               let '(owned_properties, st) := acc in
               let propertyList := snd entry in
               let sameOwner :=
                 forallb (fun i => ptr_eqb (getOwner st i) (Some p)) propertyList in
               if sameOwner
               then (owned_properties ++ propertyList,
                     fold_left upgradeToFullGroup propertyList st)
               else (owned_properties, st))
            gs acc)).
Proof.
  induction gs as [|e gs IH]; intros [l st]; cbn [fold_left]; [apply R_refl|].
  cbv zeta.
  destruct (forallb _ (snd e)) eqn:Esame.
  - eapply R_trans; [|apply IH]. cbn [snd]. apply (upgrade_group_R p).
    intros i Hi. rewrite forallb_forall in Esame. apply ptr_eqb_eq, Esame, Hi.
  - apply IH.
Qed.

Lemma getOwnedGroups_R p st : R st (snd (getOwnedGroups (Some p) st)).
Proof. unfold getOwnedGroups. apply (getOwnedGroups_fold_R p (properties st) ([], st)). Qed.

Lemma transferMoneyFromTo_decks from to a st :
  chanceDeck (transferMoneyFromTo from to a st) = chanceDeck st
  /\ communityChestDeck (transferMoneyFromTo from to a st) = communityChestDeck st.
Proof.
  unfold transferMoneyFromTo.
  destruct from as [p1|], to as [p2|]; cbn; try destruct (_ <? 0); cbn; split; reflexivity.
Qed.

Lemma birthday_fold_R card g p l : forall st,
  card ∈ chanceDeck st \/ card ∈ communityChestDeck st ->
  _actionFunction card = Some (Birthday g) ->
  R st (fold_left
          (fun st player =>
             if Nat.eqb player p then st
             else transferMoneyFromTo (Some player) (Some p) g st) l st).
Proof.
  induction l as [|q l IH]; intros st Hin Hg; cbn [fold_left]; [apply R_refl|].
  destruct (Nat.eqb q p).
  - apply IH; assumption.
  - eapply R_trans; [eapply R_gift; eassumption|].
    apply IH; [|assumption].
    destruct (transferMoneyFromTo_decks (Some q) (Some p) g st) as [-> ->]. exact Hin.
Qed.

Lemma movePlayer_pre_R d st st1 : movePlayer_pre d st = MoveLanded st1 -> R st st1.
Proof.
  unfold movePlayer_pre.
  destruct (getCurrentPlayer st) as [player|]; [|discriminate].
  destruct (_ || _) eqn:E; [discriminate|].
  intros H. inversion H as [H1]. clear H H1.
  apply orb_false_iff in E as [E1 E2].
  assert (Hv : 0 <= newPositionOf st player d < to_int (board_size st)) by lia.
  destruct (passesGo st player d).
  - eapply R_trans; [apply R_bonus|]. apply R_position. left. exact Hv.
  - apply R_position. left. exact Hv.
Qed.

Lemma landing_R : forall fuel,
  (forall st st', handleSpace io fuel st = Some st' -> R st st')
  /\ (forall d st st', movePlayer io fuel d st = Some st' -> R st st')
  /\ (forall st st', drawChanceCard io fuel st = Some st' -> R st st')
  /\ (forall st st', drawCommunityChestCard io fuel st = Some st' -> R st st')
  /\ (forall card st st',
        card ∈ chanceDeck st \/ card ∈ communityChestDeck st ->
        Card_action io fuel card st = Some st' -> R st st').
Proof.
  induction fuel as [|fuel (IHh & IHm & IHc & IHcc & IHa)].
  { repeat split; intros; cbn in *; discriminate. }
  split; [|split; [|split; [|split]]].
  - (* handleSpace *)
    intros st st'. simpl handleSpace.
    destruct (getCurrentPlayer st) as [player|]; [|discriminate].
    destruct (at_index (board st) (getPosition st player)) as [space|] eqn:Esp; [|discriminate].
    apply at_index_lookup in Esp as [Esp _].
    destruct space as [b c h n|b|b|tn amount| | | | | |].
    + apply Property_action_R with (c := c) (h := h). exact Esp.
    + apply Station_action_R. exact Esp.
    + apply Utility_action_R. exact Esp.
    + unfold Tax_action. destruct (getCurrentPlayer st); [|discriminate].
      intros H. inversion H. apply R_to_bank.
    + apply Jail_action_R.
    + intros H. eapply R_trans; [|eapply IHm, H].
      apply R_player. intros x. repeat split.
    + intros H. inversion H. apply R_refl.
    + unfold Go_action. destruct (getCurrentPlayer st); [|discriminate].
      intros H. inversion H. apply R_bonus.
    + apply IHcc.
    + apply IHc.
  - (* movePlayer *)
    intros d st st'. simpl movePlayer.
    destruct (movePlayer_pre d st) as [| |st1] eqn:E.
    + discriminate.
    + intros H. inversion H. apply R_refl.
    + intros H. eapply R_trans; [eapply movePlayer_pre_R, E | eapply IHh, H].
  - (* drawChanceCard *)
    intros st st' H.
    destruct (chanceDeck st) as [|c0 deck0] eqn:Edeck.
    { cbn [drawChanceCard] in H. rewrite Edeck in H. inversion H. apply R_refl. }
    assert (Hne : chanceDeck st <> []) by (rewrite Edeck; discriminate).
    pose proof (R_chanceDeck st) as R0.
    destruct (shuffle io (tick st) (chanceDeck st)) as [|card rest] eqn:Hsh.
    { cbn [drawChanceCard] in H. rewrite Edeck in H, Hsh.
      cbn [chanceDeck next_tick set_chanceDeck set_tick] in H. rewrite Hsh in H.
      discriminate. }
    rewrite (drawChanceCard_shuffled io fuel st card rest Hne Hsh) in H. cbv zeta in H.
    assert (R1 : R st (next_tick (set_chanceDeck (card :: rest) st)))
      by (eapply R_trans; [exact R0 | apply R_tick]).
    destruct (isGOJFC card && chanceGOJFCTaken st).
    + eapply R_trans; [exact R1 | eapply IHc, H].
    + eapply R_trans; [exact R1 | eapply IHa, H]. left. apply list_elem_of_here.
  - (* drawCommunityChestCard *)
    intros st st' H.
    destruct (communityChestDeck st) as [|c0 deck0] eqn:Edeck.
    { cbn [drawCommunityChestCard] in H. rewrite Edeck in H. inversion H. apply R_refl. }
    assert (Hne : communityChestDeck st <> []) by (rewrite Edeck; discriminate).
    pose proof (R_communityChestDeck st) as R0.
    destruct (shuffle io (tick st) (communityChestDeck st)) as [|card rest] eqn:Hsh.
    { cbn [drawCommunityChestCard] in H. rewrite Edeck in H, Hsh.
      cbn [communityChestDeck next_tick set_communityChestDeck set_tick] in H.
      rewrite Hsh in H. discriminate. }
    rewrite (drawCommunityChestCard_shuffled io fuel st card rest Hne Hsh) in H.
    cbv zeta in H.
    assert (R1 : R st (next_tick (set_communityChestDeck (card :: rest) st)))
      by (eapply R_trans; [exact R0 | apply R_tick]).
    destruct (isGOJFC card && chanceGOJFCTaken st).
    + eapply R_trans; [exact R1 | eapply IHcc, H].
    + eapply R_trans; [exact R1 | eapply IHa, H]. right. apply list_elem_of_here.
  - (* Card_action *)
    intros card st st' Hin. simpl Card_action.
    destruct (_actionFunction card) as [effect|] eqn:Eeff.
    2:{ intros H. inversion H. apply R_refl. }
    destruct (getCurrentPlayer st) as [currentPlayer|]; [|discriminate].
    destruct effect as [| |index|amount|amount| |fine|gift|perHouse perHotel|distance].
    + intros H. inversion H.
      eapply R_trans; [|apply R_communityChestTaken]. apply R_player. intros x. repeat split.
    + intros H. inversion H.
      eapply R_trans; [|apply R_chanceTaken]. apply R_player. intros x. repeat split.
    + apply IHm.
    + intros H. inversion H. eapply R_receive; eassumption.
    + intros H. inversion H. apply R_to_bank.
    + intros H. eapply R_trans; [|eapply IHh, H].
      eapply R_trans; [apply (R_player st currentPlayer (setRemainingTurnsInJail_ 3));
                       intros x; repeat split|].
      apply R_position. right. reflexivity.
    + cbv zeta. destruct (getYesNo io (tick st)).
      * intros H. eapply R_trans; [apply R_tick | eapply IHc, H].
      * intros H. inversion H. eapply R_trans; [apply R_tick | apply R_to_bank].
    + intros H. inversion H. unfold birthday. eapply birthday_fold_R; eassumption.
    + pose proof (getOwnedGroups_R currentPlayer st) as Rg.
      destruct (getOwnedGroups (Some currentPlayer) st) as [owned_groups st1].
      destruct (countRepairs st1 owned_groups) as [nbHouses nbHotels].
      intros H. inversion H. eapply R_trans; [exact Rg | apply R_to_bank].
    + apply IHm.
Qed.

End Landing.

(** ** What a landing, a turn and a game leave in place *)



Lemma map_alter_same {A B} (g : A -> B) (f : A -> A) (l : list A) :
  (forall x, g (f x) = g x) -> forall i, List.map g (alter f i l) = List.map g l.
Proof.
  intros Hf. induction l as [|x l IH]; intros [|i]; cbn; try reflexivity.
  - rewrite Hf. reflexivity.
  - f_equal. apply IH.
Qed.

Lemma same_table_refl st : same_table st st.
Proof. split; [|split]; [reflexivity | reflexivity | lia]. Qed.

Lemma same_table_trans st1 st2 st3 :
  same_table st1 st2 -> same_table st2 st3 -> same_table st1 st3.
Proof. intros (A1 & A2 & A3) (B1 & B2 & B3). repeat split; try congruence. lia. Qed.

Lemma same_seats_refl st : same_seats st st.
Proof. repeat split. Qed.

Lemma same_seats_trans st1 st2 st3 :
  same_seats st1 st2 -> same_seats st2 st3 -> same_seats st1 st3.
Proof. intros (A1 & A2 & A3) (B1 & B2 & B3). repeat split; congruence. Qed.

Lemma same_table_updPlayer st p f :
  (forall x, name (f x) = name x) -> same_table st (updPlayer p f st).
Proof.
  intros Hf. split; [|split]; [|reflexivity|cbn; lia].
  unfold updPlayer. cbn. apply map_alter_same, Hf.
Qed.

Lemma same_table_updSpace st i f :
  (forall s, layout (f s) = layout s) -> same_table st (updSpace i f st).
Proof.
  intros Hf. split; [|split]; [reflexivity| |cbn; lia].
  unfold updSpace. cbn. apply map_alter_same, Hf.
Qed.

Lemma same_table_transferMoneyFromTo from to a st :
  same_table st (transferMoneyFromTo from to a st).
Proof.
  unfold transferMoneyFromTo.
  destruct from as [p1|], to as [p2|]; try destruct (_ <? 0);
    repeat (first [ apply same_table_refl
                  | apply same_table_updPlayer; intros x; reflexivity
                  | eapply same_table_trans;
                    [|apply same_table_updPlayer; intros x; reflexivity] ]).
Qed.

Lemma same_seats_transferMoneyFromTo from to a st :
  same_seats st (transferMoneyFromTo from to a st).
Proof.
  unfold transferMoneyFromTo.
  destruct from as [p1|], to as [p2|]; try destruct (_ <? 0); repeat split.
Qed.

Lemma layout_setOwner_ o s : layout (withBuyable (setOwner_ o) s) = layout s.
Proof. destruct s; reflexivity. Qed.

Lemma layout_setNbBuildings_ n s : layout (setNbBuildings_ n s) = layout s.
Proof. destruct s; reflexivity. Qed.

Lemma same_table_affectOwnership st p i : same_table st (affectOwnership p i st).
Proof.
  unfold affectOwnership. destruct (board st !! i) as [s|]; [|apply same_table_refl].
  destruct (asBuyable s); [|apply same_table_refl].
  apply same_table_updSpace. intros s0. apply layout_setOwner_.
Qed.

Lemma same_seats_affectOwnership st p i : same_seats st (affectOwnership p i st).
Proof.
  unfold affectOwnership. destruct (board st !! i) as [s|]; [|apply same_seats_refl].
  destruct (asBuyable s); repeat split.
Qed.

Lemma same_table_setNbBuildings st i n : same_table st (setNbBuildings i n st).
Proof. apply same_table_updSpace. intros s. apply layout_setNbBuildings_. Qed.

Lemma layout_releaseSpace p s : layout (releaseSpace p s) = layout s.
Proof.
  unfold releaseSpace. destruct (asBuyable s) as [b|]; [|reflexivity].
  destruct (ptr_eqb (owner b) (Some p)); [|reflexivity].
  rewrite layout_setNbBuildings_. apply layout_setOwner_.
Qed.

Lemma same_table_bankrupt st p : same_table st (removePlayer p (releaseSpaces p st)).
Proof.
  split; [|split]; [reflexivity| |cbn; lia].
  cbn. rewrite List.map_map. apply List.map_ext. apply layout_releaseSpace.
Qed.

Local Ltac table_write :=
  intros;
  first [ apply same_table_refl
        | eapply same_table_trans; eassumption
        | apply same_table_transferMoneyFromTo
        | apply same_table_affectOwnership
        | apply same_table_setNbBuildings
        | apply same_table_bankrupt
        | apply same_table_updPlayer;
          match goal with H : forall x, _ /\ _ |- _ => intros x; apply H end
        | apply same_table_updPlayer; intros x; reflexivity
        | split; [|split]; [reflexivity | reflexivity | cbn; lia] ].

Local Ltac seats_write :=
  intros;
  first [ apply same_seats_refl
        | eapply same_seats_trans; eassumption
        | apply same_seats_transferMoneyFromTo
        | apply same_seats_affectOwnership
        | repeat split ].

Lemma landing_same_table io fuel :
  (forall st st', handleSpace io fuel st = Some st' -> same_table st st' /\ same_seats st st')
  /\ (forall d st st',
        movePlayer io fuel d st = Some st' -> same_table st st' /\ same_seats st st').
Proof.
  assert (H := landing_R io (fun st st' => same_table st st' /\ same_seats st st')).
  destruct H with (fuel := fuel) as (Hh & Hm & _); [..|split; assumption];
    try (intros; split; [table_write | seats_write]; fail).
  intros st1 st2 st3 [A1 A2] [B1 B2].
  split; [eapply same_table_trans | eapply same_seats_trans]; eassumption.
Qed.

(** X15. After a landing or a move, the player objects are the same by name,
    every space is the space it was (only owners and building levels
    change), the active players, the player to move and the count of doubles
    are the same, and the oracle has only been queried further. *)
Theorem landing_keeps_the_table io fuel st st' :
  handleSpace io fuel st = Some st' \/ (exists d, movePlayer io fuel d st = Some st') ->
  same_table st st' /\ same_seats st st'.
Proof.
  destruct (landing_same_table io fuel) as [Hh Hm].
  intros [H | [d H]]; [eapply Hh, H | eapply Hm, H].
Qed.

(** ** What a turn and a game are made of

    A turn is made of landings and of a few more writes.  The build phase
    only runs for a player with money, and only builds on groups that the
    player owns and that [getOwnedGroups] has put at the level of a full
    group at least. *)

Lemma lookupColor_In color l props :
  lookupColor color l = Some props -> In props (List.map snd l).
Proof.
  induction l as [|[c ps] l IH]; cbn; [discriminate|].
  destruct (String.eqb c color).
  - intros H. injection H as ->. left. reflexivity.
  - intros H. right. apply IH, H.
Qed.

Lemma buildableGroups_subset st owned_groups props p :
  In props (List.map snd (buildableGroups st owned_groups)) -> In p props ->
  In p owned_groups.
Proof.
  unfold buildableGroups. intros Hprops Hp.
  apply in_map_iff in Hprops as (e & <- & He).
  apply filter_In in He as [He _]. apply filter_In in He as [He _].
  apply in_map_iff in He as (c & <- & _). cbn in Hp.
  apply filter_In in Hp as [Hp _]. exact Hp.
Qed.

Lemma getMoney_debit_nonneg st p a q :
  0 <= getMoney st q -> 0 <= getMoney (transferMoneyFromTo (Some p) None a st) q.
Proof.
  intros Hq. destruct (transferMoneyFromTo_debit st p a) as [-> | Hno].
  - destruct (getMoney_setMoney_cases st p (Z.max 0 (getMoney st p - a)) q) as [-> | ->];
      [lia | exact Hq].
  - unfold transferMoneyFromTo.
    destruct (_ <? 0); rewrite !getMoney_setMoney_unallocated; try exact Hq; try exact Hno.
    unfold allocated, setMoney, updPlayer in *. cbn. rewrite length_alter. exact Hno.
Qed.

Lemma buildOnProperties_keeps io player : forall fuel properties attempts st st',
  buildOnProperties io fuel properties player attempts st = Some st' ->
  currentPlayer st' = currentPlayer st
  /\ (0 <= getMoney st player -> 0 <= getMoney st' player).
Proof.
  intros fuel properties attempts st st'.
  apply (buildOnProperties_R io
           (fun st st' => currentPlayer st' = currentPlayer st
                          /\ (0 <= getMoney st player -> 0 <= getMoney st' player))).
  - intros s. split; [reflexivity | tauto].
  - intros s1 s2 s3 [A1 A2] [B1 B2]. split; [congruence | tauto].
  - intros s. split; [reflexivity | tauto].
  - intros s i n. split; [reflexivity | tauto].
  - intros s p a. split.
    + unfold transferMoneyFromTo. destruct (_ <? 0); reflexivity.
    + apply getMoney_debit_nonneg.
Qed.

Section Turn.

Variable io : Oracle.
Variable R : GameState -> GameState -> Prop.

Hypothesis R_refl : forall st, R st st.
Hypothesis R_trans : forall st1 st2 st3, R st1 st2 -> R st2 st3 -> R st1 st3.
Hypothesis R_tick : forall st, R st (next_tick st).
Hypothesis R_dice :
  forall st k, R st (set_currentDicesValue (roll io k, roll io (S k)) st).
Hypothesis R_player :
  forall st p f,
    (forall x, name (f x) = name x /\ money (f x) = money x /\ position (f x) = position x) ->
    R st (updPlayer p f st).
Hypothesis R_position :
  forall st p v, 0 <= v < to_int (board_size st) \/ v = 10 -> R st (setPosition p v st).
Hypothesis R_upgrade :
  forall st i p, getOwner st i = Some p -> R st (setNbBuildings i FULL_GROUP st).
Hypothesis R_landing :
  forall fuel st st',
    handleSpace io fuel st = Some st' \/ (exists d, movePlayer io fuel d st = Some st') ->
    R st st'.
Hypothesis R_doubles : forall st v, R st (set_consecutiveDoubles v st).
Hypothesis R_current : forall st i, R st (setCurrentPlayer (players st !! i) st).
Hypothesis R_bankrupt :
  forall st p,
    p ∈ players st -> getMoney st p = 0 -> R st (removePlayer p (releaseSpaces p st)).
Hypothesis R_build :
  forall fuel properties player attempts st st',
    getCurrentPlayer st = Some player ->
    0 <= getMoney st player ->
    (forall p, In p properties ->
               getNbBuildings st p <> BASE_RENT /\ getOwner st p = Some player) ->
    buildOnProperties io fuel properties player attempts st = Some st' ->
    R st st'.

Lemma buildPhase_R : forall fuel st st' player,
  getCurrentPlayer st = Some player ->
  0 <= getMoney st player ->
  buildPhase io fuel st = Some st' -> R st st'.
Proof.
  induction fuel as [|fuel IH]; intros st st' player Hcur Hmoney H; [discriminate|].
  cbn [buildPhase] in H.
  pose proof (getOwnedGroups_R R R_refl R_trans R_upgrade player st) as Rg.
  rewrite <- Hcur in Rg.
  pose proof (getOwnedGroups_facts (getCurrentPlayer st) st) as F. cbv zeta in F.
  destruct F as (st1 & Hrun & Hboard & Howner & Hown & Hlevel & _).
  rewrite Hrun in H, Rg. cbn [snd] in Rg. clear Hrun.
  destruct (ownedGroupsOf st (getCurrentPlayer st)) as [|g0 gs];
    [inversion H; subst; exact Rg|].
  set (owned_groups := g0 :: gs) in *.
  destruct (buildableGroups st1 owned_groups) as [|e0 es] eqn:Egroups;
    [inversion H; subst; exact Rg|].
  rewrite <- Egroups in H. clear Egroups e0 es.
  cbv zeta in H.
  destruct (getYesNo io (tick st1)); [|inversion H; subst;
                                       eapply R_trans; [exact Rg | apply R_tick]].
  set (st2 := next_tick (next_tick st1)) in *.
  assert (R2 : R st st2).
  { eapply R_trans; [exact Rg|]. eapply R_trans; apply R_tick. }
  assert (Hcur2 : getCurrentPlayer st2 = Some player).
  { rewrite <- Hcur. unfold st2. rewrite Hboard. reflexivity. }
  assert (Hmoney2 : 0 <= getMoney st2 player).
  { unfold st2. rewrite Hboard. exact Hmoney. }
  destruct (lookupColor _ _) as [props|] eqn:Elook.
  - rewrite Hcur2 in H.
    destruct (buildOnProperties io fuel props player 0 st2) as [st3|] eqn:Eb; [|discriminate].
    destruct (buildOnProperties_keeps io player _ _ _ _ _ Eb) as [K1 K2].
    eapply R_trans; [exact R2|].
    eapply R_trans; [|eapply (IH st3 st' player); [| apply K2, Hmoney2 | exact H]].
    + eapply R_build; [exact Hcur2 | exact Hmoney2 | | exact Eb].
      intros p Hp.
      assert (Hin : In p owned_groups).
      { eapply buildableGroups_subset; [eapply lookupColor_In, Elook | exact Hp]. }
      split.
      * change (getNbBuildings st2 p) with (getNbBuildings st1 p).
        rewrite Hlevel. apply appears_In in Hin. rewrite Hin. cbn [andb].
        destruct (Z.eqb_spec (getNbBuildings st p) BASE_RENT) as [_|Hne];
          [discriminate | exact Hne].
      * change (getOwner st2 p) with (getOwner st1 p).
        rewrite Howner, <- Hcur. apply ptr_eqb_eq, Hown, Hin.
    + unfold getCurrentPlayer in *. rewrite K1. exact Hcur2.
  - eapply R_trans; [exact R2 | eapply (IH st2 st' player); eassumption].
Qed.

Lemma checkBankruptcy_R : forall n i st, R st (checkBankruptcy n i st).
Proof.
  induction n as [|n IH]; intros i st; cbn [checkBankruptcy]; [apply R_refl|].
  unfold getPlayer. destruct (players st !! i) as [player|] eqn:E; [|apply R_refl].
  destruct (getMoney st player =? 0) eqn:Em; [|apply IH].
  eapply R_trans; [|apply IH].
  apply R_bankrupt; [eapply list_elem_of_lookup_2, E | lia].
Qed.

Lemma setNextPlayer_R st st' : setNextPlayer st = Some st' -> R st st'.
Proof.
  unfold setNextPlayer. destruct (players st) eqn:E; [discriminate|].
  intros H. inversion H. rewrite <- E. apply R_current.
Qed.

Lemma endTurn_R st st' : endTurn st = Some st' -> R st st'.
Proof.
  unfold endTurn.
  destruct (setNextPlayer (checkBankruptcy (getNbPlayers st) 0 st)) as [st1|] eqn:E;
    [|discriminate].
  intros H. inversion H.
  eapply R_trans; [apply checkBankruptcy_R|].
  eapply R_trans; [eapply setNextPlayer_R, E | apply R_doubles].
Qed.

Lemma playTurn_R : forall fuel st st', playTurn io fuel st = Some st' -> R st st'.
Proof.
  induction fuel as [|fuel IH]; intros st st' H; [discriminate|].
  cbn [playTurn] in H.
  destruct (getCurrentPlayer st) as [player|] eqn:Hcur; [|eapply setNextPlayer_R, H].
  destruct (getRemainingTurnsInJail st player >? 0).
  { destruct (handleSpace io fuel st) as [st1|] eqn:E; [|discriminate].
    eapply R_trans; [eapply R_landing; left; exact E | eapply setNextPlayer_R, H]. }
  cbv zeta in H.
  destruct (movePlayer io fuel _ (rollDice io st)) as [st1|] eqn:Em; [|discriminate].
  assert (R1 : R st st1).
  { eapply R_trans; [apply (rollDice_R io R R_trans R_tick R_dice)|].
    eapply R_landing. right. eexists. exact Em. }
  assert (Hcur1 : getCurrentPlayer st1 = Some player).
  { destruct (landing_same_table io fuel) as [_ Hm].
    destruct (Hm _ _ _ Em) as [_ (_ & Hc & _)].
    unfold getCurrentPlayer in *. rewrite Hc. exact Hcur. }
  destruct (_ =? _).
  - set (st2 := set_consecutiveDoubles (consecutiveDoubles st1 + 1) st1) in *.
    assert (R2 : R st st2) by (eapply R_trans; [exact R1 | apply R_doubles]).
    destruct (consecutiveDoubles st2 =? 3).
    + destruct (handleSpace io fuel _) as [st3|] eqn:Eh; [|discriminate].
      destruct (setNextPlayer st3) as [st4|] eqn:En; [|discriminate].
      inversion H; subst.
      eapply R_trans; [exact R2|].
      eapply R_trans; [apply R_position; right; reflexivity|].
      eapply R_trans; [apply (R_player _ player (setRemainingTurnsInJail_ 3));
                       intros x; repeat split|].
      eapply R_trans; [eapply R_landing; left; exact Eh|].
      eapply R_trans; [eapply setNextPlayer_R, En | apply R_doubles].
    + destruct (getRemainingTurnsInJail st2 player >? 0); [inversion H; subst; exact R2|].
      destruct (getMoney st2 player >? 0).
      * destruct (playTurn io fuel st2) as [st3|] eqn:Ep; [|discriminate].
        eapply R_trans; [exact R2|].
        eapply R_trans; [eapply IH, Ep | eapply endTurn_R, H].
      * eapply R_trans; [exact R2 | eapply endTurn_R, H].
  - destruct (Z.gtb_spec (getMoney st1 player) 0) as [Hrich|_].
    + destruct (buildPhase io fuel st1) as [st2|] eqn:Eb; [|discriminate].
      eapply R_trans; [exact R1|].
      eapply R_trans; [eapply (buildPhase_R fuel st1 st2 player); [exact Hcur1 | lia | exact Eb]
                      | eapply endTurn_R, H].
    + eapply R_trans; [exact R1 | eapply endTurn_R, H].
Qed.

Lemma gameLoop_R : forall fuel turns st turns' st',
  gameLoop io fuel turns st = Some (turns', st') -> R st st'.
Proof.
  induction fuel as [|fuel IH]; intros turns st turns' st' H; [discriminate|].
  cbn [gameLoop] in H.
  destruct (_ && _).
  - destruct (playTurn io fuel st) as [st1|] eqn:Ep; [|discriminate].
    eapply R_trans; [eapply playTurn_R, Ep | eapply IH, H].
  - inversion H. apply R_refl.
Qed.

Lemma runs_R fuel st st' : runs io fuel st st' -> R st st'.
Proof.
  intros [H | [[d H] | [H | (turns & turns' & H)]]].
  - eapply R_landing. left. exact H.
  - eapply R_landing. right. exists d. exact H.
  - eapply playTurn_R, H.
  - eapply gameLoop_R, H.
Qed.

End Turn.

Lemma game_same_table io fuel st st' :
  runs io fuel st st' -> same_table st st' /\ sublist (players st') (players st).
Proof.
  set (R := fun st st' => same_table st st' /\ sublist (players st') (players st)).
  assert (HR : forall st st', same_table st st' /\ same_seats st st' -> R st st').
  { intros s s' [A (B & _)]. split; [exact A|]. rewrite B. reflexivity. }
  assert (R_trans : forall st1 st2 st3, R st1 st2 -> R st2 st3 -> R st1 st3).
  { intros st1 st2 st3 [A1 A2] [B1 B2].
    split; [eapply same_table_trans; eassumption | etransitivity; eassumption]. }
  assert (R_landing : forall fuel st st',
             handleSpace io fuel st = Some st' \/ (exists d, movePlayer io fuel d st = Some st') ->
             R st st').
  { intros f s s' H. apply HR. destruct (landing_same_table io f) as [Hh Hm].
    destruct H as [H | [d H]]; [eapply Hh, H | eapply Hm, H]. }
  assert (R_doubles : forall st v, R st (set_consecutiveDoubles v st))
    by (intros; split; [table_write | reflexivity]).
  assert (R_current : forall st i, R st (setCurrentPlayer (players st !! i) st))
    by (intros; split; [table_write | reflexivity]).
  assert (R_bankrupt : forall st p, p ∈ players st -> getMoney st p = 0 ->
                                    R st (removePlayer p (releaseSpaces p st))).
  { intros s p _ _. split; [apply same_table_bankrupt|]. cbn. apply erase_first_sublist. }
  apply (runs_R io R); try assumption;
    try (intros; apply HR; split; [table_write | seats_write]; fail).
  intros f properties player attempts s s' _ _ _.
  apply (buildOnProperties_R io R); try assumption;
    (intros; apply HR; split; [table_write | seats_write]).
Qed.

(** X16. A turn and a whole game keep the player objects and the spaces as a
    landing does; the active players at the end are among those at the
    start, in the same order: nobody enters the game or comes back. *)
Theorem game_never_adds_a_player io fuel st st' :
  runs io fuel st st' -> same_table st st' /\ sublist (players st') (players st).
Proof. apply game_same_table. Qed.

(** X17. The game loop plays turn after turn and stops exactly when at most one
    player is left or the count of turns reaches 1000: it never reports
    more than 1000 turns. *)
Theorem gameLoop_stops io : forall fuel turns st turns' st',
  gameLoop io fuel turns st = Some (turns', st') ->
  turns <= turns'
  /\ (turns <= 1000 -> turns' <= 1000)
  /\ ((getNbPlayers st' <= 1)%nat \/ 1000 <= turns')
  /\ (turns' = turns -> st' = st).
Proof.
  induction fuel as [|fuel IH]; intros turns st turns' st' H; [discriminate|].
  cbn [gameLoop] in H.
  destruct ((1 <? Z.of_nat (getNbPlayers st)) && (turns <? 1000)) eqn:E.
  - destruct (playTurn io fuel st) as [st1|]; [|discriminate].
    apply IH in H as (H1 & H2 & H3 & H4).
    apply andb_true_iff in E as [E1 E2].
    repeat split; lia.
  - inversion H; subst. apply andb_false_iff in E.
    repeat split; lia.
Qed.

(** ** Decks and positions through a whole run *)

Lemma forallb_alter {A} (P : A -> bool) (f : A -> A) (l : list A) :
  (forall x, P x = true -> P (f x) = true) ->
  forall i, forallb P l = true -> forallb P (alter f i l) = true.
Proof.
  intros Hf. induction l as [|x l IH]; intros [|i]; cbn; try tauto.
  - rewrite !andb_true_iff. intros [H1 H2]. split; [apply Hf, H1 | exact H2].
  - rewrite !andb_true_iff. intros [H1 H2]. split; [exact H1 | apply IH, H2].
Qed.

Lemma forallb_lookup {A} (P : A -> bool) (l : list A) :
  forallb P l = true <-> forall i x, l !! i = Some x -> P x = true.
Proof.
  rewrite forallb_forall. split.
  - intros H i x Hx. apply H. apply list_elem_of_In. eapply list_elem_of_lookup_2, Hx.
  - intros H x Hx. apply list_elem_of_In, list_elem_of_lookup_1 in Hx as [i Hi].
    eapply H, Hi.
Qed.

(** *** The decks *)

Lemma affectOwnership_decks p i st :
  chanceDeck (affectOwnership p i st) = chanceDeck st
  /\ communityChestDeck (affectOwnership p i st) = communityChestDeck st.
Proof.
  unfold affectOwnership. destruct (board st !! i) as [s|]; [|split; reflexivity].
  destruct (asBuyable s); split; reflexivity.
Qed.

Lemma runs_reorder_decks io fuel st st' :
  (forall k deck, shuffle io k deck ≡ₚ deck) ->
  runs io fuel st st' ->
  chanceDeck st' ≡ₚ chanceDeck st /\ communityChestDeck st' ≡ₚ communityChestDeck st.
Proof.
  intros Hshuffle.
  set (R := fun st st' => chanceDeck st' ≡ₚ chanceDeck st
                          /\ communityChestDeck st' ≡ₚ communityChestDeck st).
  assert (R_refl : forall s, R s s) by (intros s; split; reflexivity).
  assert (R_trans : forall s1 s2 s3, R s1 s2 -> R s2 s3 -> R s1 s3).
  { intros s1 s2 s3 [A1 A2] [B1 B2]. split; etransitivity; eassumption. }
  assert (R_transfer : forall s from to a, R s (transferMoneyFromTo from to a s)).
  { intros s from to a. unfold R.
    destruct (transferMoneyFromTo_decks from to a s) as [-> ->]. split; reflexivity. }
  assert (R_landing : forall fuel st st',
             handleSpace io fuel st = Some st' \/ (exists d, movePlayer io fuel d st = Some st') ->
             R st st').
  { intros f s s' H.
    destruct (landing_R io R) with (fuel := f) as (Hh & Hm & _); try assumption;
      try (intros; apply R_transfer); try (intros; split; reflexivity).
    - intros s0. split; [apply Hshuffle | reflexivity].
    - intros s0. split; [reflexivity | apply Hshuffle].
    - intros s0 p i _. unfold R.
      destruct (affectOwnership_decks p i s0) as [-> ->]. split; reflexivity.
    - destruct H as [H | [d H]]; [eapply Hh, H | eapply Hm, H]. }
  apply (runs_R io R); try assumption; try (intros; split; reflexivity).
  intros f properties player attempts s s' _ _ _.
  apply (buildOnProperties_R io R); try assumption;
    try (intros; apply R_transfer); (intros; split; reflexivity).
Qed.

(** X19. When a shuffle only reorders, every run of the engine leaves in each
    deck the cards it had: a card that was drawn, also one that a player
    keeps, is still in its deck. *)
Theorem decks_are_only_reordered io fuel st st' :
  (forall k deck, shuffle io k deck ≡ₚ deck) ->
  runs io fuel st st' ->
  chanceDeck st' ≡ₚ chanceDeck st /\ communityChestDeck st' ≡ₚ communityChestDeck st.
Proof. apply runs_reorder_decks. Qed.

(** *** The positions *)

Lemma on_board_updPlayer st p f :
  (forall x, 0 <= position x < board_size st -> 0 <= position (f x) < board_size st) ->
  on_board st = true -> on_board (updPlayer p f st) = true.
Proof.
  intros Hf. unfold on_board, updPlayer. cbn.
  change (board_size (set_heap (alter f p (heap st)) st)) with (board_size st).
  apply forallb_alter. intros x Hx. specialize (Hf x). lia.
Qed.

Lemma on_board_transferMoneyFromTo from to a st :
  on_board st = true -> on_board (transferMoneyFromTo from to a st) = true.
Proof.
  unfold transferMoneyFromTo. intros H.
  destruct from as [p1|], to as [p2|]; try destruct (_ <? 0);
    repeat (apply on_board_updPlayer; [intros x Hx; exact Hx|]); exact H.
Qed.

Lemma board_size_transferMoneyFromTo from to a st :
  board (transferMoneyFromTo from to a st) = board st.
Proof.
  unfold transferMoneyFromTo.
  destruct from as [p1|], to as [p2|]; try destruct (_ <? 0); reflexivity.
Qed.

Lemma on_board_same_length st st' :
  length (board st') = length (board st) -> heap st' = heap st ->
  on_board st' = on_board st.
Proof. unfold on_board, board_size. intros -> ->. reflexivity. Qed.

Lemma affectOwnership_length p i st :
  length (board (affectOwnership p i st)) = length (board st)
  /\ heap (affectOwnership p i st) = heap st.
Proof.
  unfold affectOwnership. destruct (board st !! i) as [s|]; [|split; reflexivity].
  destruct (asBuyable s); [|split; reflexivity].
  split; [|reflexivity]. cbn. apply length_alter.
Qed.

Lemma runs_on_board io fuel st st' :
  runs io fuel st st' ->
  length (board st') = length (board st)
  /\ (10 < board_size st <= INT_MAX -> on_board st = true -> on_board st' = true).
Proof.
  set (R := fun st st' =>
              length (board st') = length (board st)
              /\ (10 < board_size st <= INT_MAX -> on_board st = true -> on_board st' = true)).
  assert (R_same : forall s s', length (board s') = length (board s) -> heap s' = heap s ->
                                R s s').
  { intros s s' A B. split; [exact A|]. intros _. rewrite (on_board_same_length _ _ A B). tauto. }
  assert (R_refl : forall s, R s s) by (intros s; apply R_same; reflexivity).
  assert (R_trans : forall s1 s2 s3, R s1 s2 -> R s2 s3 -> R s1 s3).
  { intros st1 st2 st3 [A1 A2] [B1 B2]. split; [congruence|].
    intros HL H. apply B2; [|apply A2; assumption].
    unfold board_size in *. rewrite A1. exact HL. }
  assert (R_level : forall s i n, R s (setNbBuildings i n s)).
  { intros s i n. apply R_same; [cbn; apply length_alter | reflexivity]. }
  assert (R_upgrade : forall s i p, getOwner s i = Some p ->
                                    R s (setNbBuildings i FULL_GROUP s))
    by (intros; apply R_level).
  assert (R_transfer : forall s from to a, R s (transferMoneyFromTo from to a s)).
  { intros s from to a. unfold R. rewrite board_size_transferMoneyFromTo.
    split; [reflexivity|]. intros _. apply on_board_transferMoneyFromTo. }
  assert (R_player : forall s p f,
             (forall x, name (f x) = name x /\ money (f x) = money x
                        /\ position (f x) = position x) ->
             R s (updPlayer p f s)).
  { intros s p f Hf. split; [reflexivity|]. intros _. apply on_board_updPlayer.
    intros x Hx. destruct (Hf x) as (_ & _ & ->). exact Hx. }
  assert (R_position : forall s p v,
             0 <= v < to_int (board_size s) \/ v = 10 -> R s (setPosition p v s)).
  { intros s p v Hv. split; [reflexivity|]. intros HL. apply on_board_updPlayer.
    intros x _. cbn. rewrite to_int_small in Hv by (unfold INT_MIN, INT_MAX in *; lia). lia. }
  assert (R_landing : forall fuel st st',
             handleSpace io fuel st = Some st' \/ (exists d, movePlayer io fuel d st = Some st') ->
             R st st').
  { intros f s s' H.
    destruct (landing_R io R) with (fuel := f) as (Hh & Hm & _); try assumption;
      try (intros; apply R_transfer); try (intros; apply R_same; reflexivity).
    - intros s0 p i _. destruct (affectOwnership_length p i s0) as [A B]. apply R_same; assumption.
    - destruct H as [H | [d H]]; [eapply Hh, H | eapply Hm, H]. }
  apply (runs_R io R); try assumption; try (intros; apply R_same; reflexivity).
  - intros s p _ _. apply R_same; [cbn; apply length_map | reflexivity].
  - intros f properties player attempts s s' _ _ _.
    apply (buildOnProperties_R io R); try assumption;
      try (intros; apply R_transfer); (intros; apply R_same; reflexivity).
Qed.

(** X20. On a board of more than 10 spaces (and no more than [INT_MAX]), when
    every player object stands on a space of the board, it still does after
    any run of the engine: the space that [handleSpace] reads at the
    position of a player exists. *)
Theorem positions_stay_on_the_board io fuel st st' :
  10 < board_size st <= INT_MAX ->
  on_board st = true ->
  runs io fuel st st' ->
  board_size st' = board_size st
  /\ on_board st' = true
  /\ forall p, is_Some (at_index (board st') (getPosition st' p)).
Proof.
  intros HL Hon Hrun. destruct (runs_on_board io fuel st st' Hrun) as [A B].
  specialize (B HL Hon).
  assert (HL' : board_size st' = board_size st) by (unfold board_size; rewrite A; reflexivity).
  split; [exact HL'|]. split; [exact B|].
  intros p.
  assert (Hp : 0 <= getPosition st' p < board_size st').
  { unfold getPosition, deref. destruct (heap st' !! p) as [x|] eqn:E; cbn; [|lia].
    unfold on_board in B. rewrite forallb_lookup in B. specialize (B p x E). lia. }
  unfold at_index. destruct (Z.ltb_spec (getPosition st' p) 0) as [?|_]; [lia|].
  apply lookup_lt_is_Some_2. unfold board_size in Hp. lia.
Qed.

(** ** Landing on a space that nobody owns *)



Lemma getMoney_pay_other st p a q :
  q <> p -> getMoney (transferMoneyFromTo (Some p) None a st) q = getMoney st q.
Proof.
  intros Hq. unfold transferMoneyFromTo.
  destruct (_ <? 0); unfold getMoney, setMoney;
    rewrite !deref_updPlayer_ne by congruence; reflexivity.
Qed.

Lemma getMoney_updPlayer st p f q :
  (forall x, money (f x) = money x) -> getMoney (updPlayer p f st) q = getMoney st q.
Proof.
  intros Hf. unfold getMoney, deref, updPlayer. cbn.
  destruct (Nat.eq_dec p q) as [->|Hq].
  - rewrite list_lookup_alter_eq. destruct (heap st !! q); cbn; [apply Hf | reflexivity].
  - rewrite list_lookup_alter_ne by assumption. reflexivity.
Qed.

Lemma sold_to_counter this w st s p f :
  (forall x, money (f x) = money x) -> sold_to this w st s -> sold_to this w st (updPlayer p f s).
Proof.
  intros Hf (A & B & C & D). split; [exact A|]. split; [exact B|].
  split; [rewrite getMoney_updPlayer by exact Hf; exact C|].
  intros q Hq. rewrite getMoney_updPlayer by exact Hf. apply D, Hq.
Qed.

Lemma sold_to_buyer this st s player b a :
  (board s !! this) ≫= asBuyable = Some b ->
  In player (players st) -> allocated s player ->
  (forall q, getMoney s q = getMoney st q) ->
  0 <= a <= getMoney st player ->
  let s' := affectOwnership player this (transferMoneyFromTo (Some player) None a s) in
  sold_to this player st s' /\ getMoney s' player = getMoney st player - a.
Proof.
  intros Hb Hin Halloc Hmoney Ha s'.
  assert (Hpaid : getMoney s' player = getMoney st player - a).
  { unfold s'. rewrite getMoney_affectOwnership, getMoney_pay, Hmoney; [reflexivity|exact Halloc|].
    rewrite Hmoney. lia. }
  split; [|exact Hpaid]. split; [|split; [exact Hin|split]].
  - unfold s'. apply getOwner_affectOwnership with (b := b).
    rewrite board_transferMoneyFromTo. exact Hb.
  - lia.
  - intros q Hq. unfold s'.
    rewrite getMoney_affectOwnership, getMoney_pay_other by exact Hq. apply Hmoney.
Qed.

Lemma auction_settle_sells io st this b k fuel :
  number_in_range io ->
  players st <> [] ->
  (forall p, In p (players st) -> allocated st p /\ 0 <= getMoney st p) ->
  (board st !! this) ≫= asBuyable = Some b ->
  (length (players st) + Z.to_nat (richest st (players st)) <= fuel)%nat ->
  exists w bid st',
    auction_settle io fuel this (set_tick k st) = Some (w, bid, st') /\ sold_to this w st st'.
Proof.
  intros Hio Hne Hplayers Hb Hfuel.
  destruct (auction_loop_terminates io Hio (richest st (players st)) fuel
              (players st) 0 (set_tick k st))
    as (w & bid & st1 & Hrun & Hsame & Hin & Hle & Hres).
  - exact Hne.
  - intros p Hp. change (getMoney (set_tick k st) p) with (getMoney st p).
    pose proof (richest_bound st (players st) p Hp). lia.
  - lia.
  - left. reflexivity.
  - lia.
  - change (getMoney (set_tick k st) w) with (getMoney st w) in Hres.
    destruct (Hplayers w Hin) as [Halloc Hpos].
    assert (Hst1 : st1 = set_tick (tick st1) st).
    { unfold same_but_tick in Hsame. rewrite Hsame at 1. reflexivity. }
    exists w, bid, (affectOwnership w this (transferMoneyFromTo (Some w) None bid st1)).
    split.
    { unfold auction_settle. change (players (set_tick k st)) with (players st).
      rewrite Hrun. reflexivity. }
    apply (sold_to_buyer this st st1 w b bid).
    + rewrite Hst1. exact Hb.
    + exact Hin.
    + rewrite Hst1. exact Halloc.
    + intros q. rewrite Hst1. reflexivity.
    + lia.
Qed.

(** X21. A player who lands on a buyable space without owner leaves it owned:
    with enough fuel the landing returns, the space belongs to an active
    player, that player alone has paid, and nobody has gained.  The player
    who accepts the offer and has the price gets the space for the price;
    in every other case the auction decides. *)
Theorem unowned_space_finds_an_owner io st player space b fuel :
  number_in_range io ->
  getCurrentPlayer st = Some player ->
  In player (players st) ->
  (forall p, In p (players st) -> allocated st p /\ 0 <= getMoney st p) ->
  at_index (board st) (getPosition st player) = Some space ->
  asBuyable space = Some b ->
  owner b = None ->
  0 <= price b ->
  (S (length (players st) + Z.to_nat (richest st (players st))) <= fuel)%nat ->
  exists st' w,
    handleSpace io fuel st = Some st'
    /\ sold_to (Z.to_nat (getPosition st player)) w st st'
    /\ (getYesNo io (tick st) = true -> price b <= getMoney st player ->
        w = player /\ getMoney st' player = getMoney st player - price b).
Proof.
  intros Hio Hcur Hin Hplayers Hsp Hb Howner Hprice Hfuel.
  destruct fuel as [|fuel]; [lia|].
  assert (Hne : players st <> []) by (destruct (players st); [destruct Hin | discriminate]).
  set (this := Z.to_nat (getPosition st player)).
  assert (Hthis : (board st !! this) ≫= asBuyable = Some b).
  { apply at_index_lookup in Hsp as [Hsp _]. fold this in Hsp. rewrite Hsp. exact Hb. }
  destruct (auction_settle_sells io st this b (S (tick st)) fuel Hio Hne Hplayers Hthis)
    as (w & bid & st1 & Hsettle & Hsold); [lia|].
  assert (Hbuy : price b <= getMoney st player ->
                 let s' := affectOwnership player this
                             (transferMoneyFromTo (Some player) None (price b) (next_tick st)) in
                 sold_to this player st s' /\ getMoney s' player = getMoney st player - price b).
  { intros Hle. apply (sold_to_buyer this st (next_tick st) player b (price b));
      [exact Hthis | exact Hin | apply Hplayers, Hin | reflexivity | lia]. }
  cbn [handleSpace]. rewrite Hcur, Hsp. fold this.
  destruct space as [b0 c h n|b0|b0|tn amount| | | | | |]; try discriminate Hb;
    injection Hb as ->.
  - unfold Property_action, Property_auction. rewrite Hcur, Howner. cbv zeta.
    change (next_tick st) with (set_tick (S (tick st)) st) in *. rewrite Hsettle.
    destruct (getYesNo io (tick st)).
    + change (getMoney (set_tick (S (tick st)) st) player) with (getMoney st player).
      destruct (Z.ltb_spec (getMoney st player) (price b)) as [Hpoor|Hrich].
      * exists st1, w. split; [reflexivity|]. split; [exact Hsold|]. intros _ ?. lia.
      * destruct (Hbuy Hrich) as [A B]. eexists _, player.
        split; [reflexivity|]. split; [exact A|]. intros _ _. split; [reflexivity | exact B].
    + exists st1, w. split; [reflexivity|]. split; [exact Hsold|]. discriminate.
  - unfold Station_action, Station_auction. rewrite Hcur, Howner. cbv zeta.
    change (next_tick st) with (set_tick (S (tick st)) st) in *. rewrite Hsettle.
    destruct (getYesNo io (tick st)).
    + change (getMoney (set_tick (S (tick st)) st) player) with (getMoney st player).
      destruct (Z.ltb_spec (getMoney st player) (price b)) as [Hpoor|Hrich].
      * eexists _, w. split; [reflexivity|].
        split; [apply sold_to_counter; [reflexivity | exact Hsold]|]. intros _ ?. lia.
      * destruct (Hbuy Hrich) as [A B]. eexists _, player.
        split; [reflexivity|].
        split; [apply sold_to_counter; [reflexivity | exact A]|].
        intros _ _. split; [reflexivity|].
        unfold setNbStationsOwned. rewrite getMoney_updPlayer by reflexivity. exact B.
    + eexists _, w. split; [reflexivity|].
      split; [apply sold_to_counter; [reflexivity | exact Hsold]|]. discriminate.
  - unfold Utility_action, Utility_auction. rewrite Hcur, Howner. cbv zeta.
    change (next_tick st) with (set_tick (S (tick st)) st) in *. rewrite Hsettle.
    destruct (getYesNo io (tick st)).
    + change (getMoney (set_tick (S (tick st)) st) player) with (getMoney st player).
      destruct (Z.ltb_spec (getMoney st player) (price b)) as [Hpoor|Hrich].
      * eexists _, w. split; [reflexivity|].
        split; [apply sold_to_counter; [reflexivity | exact Hsold]|]. intros _ ?. lia.
      * destruct (Hbuy Hrich) as [A B]. eexists _, player.
        split; [reflexivity|].
        split; [apply sold_to_counter; [reflexivity | exact A]|].
        intros _ _. split; [reflexivity|].
        unfold setNbUtilitiesOwned. rewrite getMoney_updPlayer by reflexivity. exact B.
    + eexists _, w. split; [reflexivity|].
      split; [apply sold_to_counter; [reflexivity | exact Hsold]|]. discriminate.
Qed.

(** ** The birthday card *)

Lemma transferMoneyFromTo_heap_length from to a st :
  length (heap (transferMoneyFromTo from to a st)) = length (heap st).
Proof.
  unfold transferMoneyFromTo.
  destruct from as [p1|], to as [p2|]; try destruct (_ <? 0); cbn;
    rewrite ?length_alter; reflexivity.
Qed.

Lemma birthday_fold cur gift : forall l s,
  NoDup l -> allocated s cur -> (forall q, q ∈ l -> allocated s q) ->
  let s' :=
    fold_left
      (fun st player =>
         if Nat.eqb player cur then st
         else transferMoneyFromTo (Some player) (Some cur) gift st) l s in
  getMoney s' cur
  = getMoney s cur
    + gift * Z.of_nat (length (List.filter (fun q => negb (Nat.eqb q cur)) l))
  /\ (forall q, q <> cur -> q ∈ l -> getMoney s' q = Z.max 0 (getMoney s q - gift))
  /\ (forall q, q <> cur -> q ∉ l -> getMoney s' q = getMoney s q)
  /\ length (heap s') = length (heap s)
  /\ board s' = board s /\ players s' = players s /\ currentPlayer s' = currentPlayer s.
Proof.
  induction l as [|x l IH]; intros s Hnd Hcur Hall; cbn [fold_left List.filter].
  { cbn. repeat split; try lia. intros q _ Hq. inversion Hq. }
  apply NoDup_cons in Hnd as [Hx Hnd].
  destruct (Nat.eqb_spec x cur) as [->|Hne].
  - destruct (IH s Hnd Hcur) as (A & B & C & D & E);
      [intros q Hq; apply Hall; right; exact Hq|].
    cbn [negb]. split; [exact A|]. split; [|split; [|split; [exact D | exact E]]].
    + intros q Hq Hin. apply B; [exact Hq|].
      apply elem_of_cons in Hin as [->|Hin]; [contradiction | exact Hin].
    + intros q Hq Hin. apply C; [exact Hq|]. intros Hl. apply Hin. right. exact Hl.
  - set (s1 := transferMoneyFromTo (Some x) (Some cur) gift s).
    assert (Hx_alloc : allocated s x) by (apply Hall; left).
    destruct (transferMoneyFromTo_pays s x cur gift Hx_alloc Hcur Hne)
      as (P1 & P2 & _ & P4 & _ & P6 & P7 & P8).
    fold s1 in P1, P2, P4, P6, P7, P8.
    assert (Hlen : length (heap s1) = length (heap s))
      by apply transferMoneyFromTo_heap_length.
    destruct (IH s1 Hnd) as (A & B & C & D & E1 & E2 & E3).
    { unfold allocated. rewrite Hlen. exact Hcur. }
    { intros q Hq. unfold allocated. rewrite Hlen. apply Hall. right. exact Hq. }
    cbn [negb length]. split; [rewrite A, P2; lia|].
    split; [|split; [|split; [congruence | repeat split; congruence]]].
    + intros q Hq Hin. apply elem_of_cons in Hin as [->|Hin].
      * rewrite C by assumption. exact P1.
      * rewrite B by assumption. unfold getMoney. rewrite P4; [reflexivity | | exact Hq].
        intros ->. contradiction.
    + intros q Hq Hin. apply not_elem_of_cons in Hin as [Hqx Hin].
      rewrite C by assumption. unfold getMoney. rewrite P4; [reflexivity | exact Hqx | exact Hq].
Qed.

(** X22. The birthday card gives the current player the gift once for every
    other active player, in full, also from a player who has less than the
    gift: each of the others is left with what remains, 0 at least.  The
    gift is an [int] that is not negative, and so are the balance of every
    other active player, with the gift taken off, and the balance of the
    current player, with all the gifts added. *)
Theorem birthday_collects_in_full io fuel st card gift cur :
  _actionFunction card = Some (Birthday gift) ->
  getCurrentPlayer st = Some cur ->
  NoDup (players st) ->
  allocated st cur ->
  (forall q, q ∈ players st -> allocated st q) ->
  0 <= gift <= INT_MAX ->
  (forall q, q ∈ players st -> q <> cur ->
     is_int (getMoney st q) /\ is_int (getMoney st q - gift)) ->
  is_int (getMoney st cur) ->
  is_int (getMoney st cur
          + gift * Z.of_nat (length (List.filter (fun q => negb (Nat.eqb q cur))
                                                 (players st)))) ->
  exists st',
    Card_action io (S fuel) card st = Some st'
    /\ getMoney st' cur
       = getMoney st cur
         + gift * Z.of_nat (length (List.filter (fun q => negb (Nat.eqb q cur)) (players st)))
    /\ (forall q, q <> cur -> q ∈ players st ->
          getMoney st' q = Z.max 0 (getMoney st q - gift))
    /\ (forall q, q <> cur -> q ∉ players st -> getMoney st' q = getMoney st q)
    /\ board st' = board st /\ players st' = players st
    /\ currentPlayer st' = currentPlayer st.
Proof.
  intros Hcard Hcur Hnd Halloc Hall _ _ _ _.
  exists (birthday cur gift st). split.
  { cbn [Card_action]. rewrite Hcard, Hcur. reflexivity. }
  destruct (birthday_fold cur gift (players st) st Hnd Halloc Hall)
    as (A & B & C & _ & E).
  split; [exact A|]. split; [exact B|]. split; [exact C | exact E].
Qed.

(** ** The end of a turn *)

Lemma checkBankruptcy_nobody : forall n i st,
  (forall p, p ∈ players st -> getMoney st p <> 0) -> checkBankruptcy n i st = st.
Proof.
  induction n as [|n IH]; intros i st H; cbn [checkBankruptcy]; [reflexivity|].
  unfold getPlayer. destruct (players st !! i) as [player|] eqn:E; [|reflexivity].
  destruct (Z.eqb_spec (getMoney st player) 0) as [Hz|_].
  - exfalso. apply (H player); [eapply list_elem_of_lookup_2, E | exact Hz].
  - apply IH, H.
Qed.

Lemma checkBankruptcy_leaves_someone : forall n i st,
  (1 <= length (players st))%nat ->
  (i = 0%nat -> 2 <= length (players st))%nat ->
  (1 <= length (players (checkBankruptcy n i st)))%nat.
Proof.
  induction n as [|n IH]; intros i st H1 H2; cbn [checkBankruptcy]; [exact H1|].
  unfold getPlayer. destruct (players st !! i) as [player|] eqn:E; [|exact H1].
  destruct (getMoney st player =? 0).
  - assert (Hin : player ∈ players st) by (eapply list_elem_of_lookup_2, E).
    pose proof (erase_first_length (players st) player Hin) as Hlen.
    assert (Hi : (i < length (players st))%nat) by (eapply lookup_lt_Some, E).
    apply IH; cbn; [|discriminate].
    destruct i as [|i]; [specialize (H2 eq_refl)|]; lia.
  - apply IH; [exact H1 | discriminate].
Qed.

Lemma checkBankruptcy_sublist : forall n i st,
  sublist (players (checkBankruptcy n i st)) (players st).
Proof.
  induction n as [|n IH]; intros i st; cbn [checkBankruptcy]; [reflexivity|].
  unfold getPlayer. destruct (players st !! i); [|reflexivity].
  destruct (_ =? 0); [|apply IH].
  etransitivity; [apply IH|]. cbn. apply erase_first_sublist.
Qed.

(** X23. The end of a turn with two players or more never removes everybody,
    whatever the amounts: the remainder by the number of players in
    [setNextPlayer] is defined, the player to move next is an active player
    and the count of doubles is back to 0. *)
Theorem endTurn_leaves_a_player_to_move st :
  (2 <= length (players st))%nat ->
  exists st' q,
    endTurn st = Some st'
    /\ currentPlayer st' = Some q
    /\ q ∈ players st'
    /\ sublist (players st') (players st)
    /\ consecutiveDoubles st' = 0.
Proof.
  intros H2. unfold endTurn.
  set (st1 := checkBankruptcy (getNbPlayers st) 0 st).
  assert (H1 : (1 <= length (players st1))%nat).
  { apply checkBankruptcy_leaves_someone; lia. }
  assert (Hne : players st1 <> []) by (destruct (players st1); [cbn in H1; lia | discriminate]).
  rewrite (setNextPlayer_unfold st1 Hne).
  destruct (lookup_lt_is_Some_2 (players st1)
              ((find_index (currentPlayer st1) (players st1) + 1) mod length (players st1))%nat)
    as [q Hq].
  { apply Nat.mod_upper_bound. lia. }
  eexists _, q. split; [reflexivity|]. cbn. split; [exact Hq|].
  split; [eapply list_elem_of_lookup_2, Hq|]. split; [|reflexivity].
  apply checkBankruptcy_sublist.
Qed.

(** X24. A double gives the same player one more turn.  When that turn has
    ended, with its own bankruptcy check and its own change of player, the
    end of the first turn runs both again: the player whom the replay made
    the next to move is passed over, and the one after moves. *)
Theorem replay_after_a_double_skips_a_player io fuel st player st1 st3 i q :
  getCurrentPlayer st = Some player ->
  getRemainingTurnsInJail st player <= 0 ->
  roll io (tick st) = roll io (S (tick st)) ->
  movePlayer io fuel (roll io (tick st) + roll io (S (tick st))) (rollDice io st) = Some st1 ->
  consecutiveDoubles st1 + 1 <> 3 ->
  getRemainingTurnsInJail st1 player <= 0 ->
  0 < getMoney st1 player ->
  playTurn io fuel (set_consecutiveDoubles (consecutiveDoubles st1 + 1) st1) = Some st3 ->
  NoDup (players st3) ->
  (forall p, p ∈ players st3 -> getMoney st3 p <> 0) ->
  players st3 !! i = Some q ->
  currentPlayer st3 = Some q ->
  exists r,
    players st3 !! ((i + 1) mod length (players st3))%nat = Some r
    /\ playTurn io (S fuel) st
       = Some (set_consecutiveDoubles 0 (setCurrentPlayer (Some r) st3)).
Proof.
  intros Hcur Hfree Hdouble Hmove Hcount Hfree1 Hmoney Hreplay Hnd Hrich Hi Hq.
  destruct (setNextPlayer_next st3 i q Hnd Hi Hq) as (r & Hr & Hnext).
  exists r. split; [exact Hr|].
  cbn [playTurn]. rewrite Hcur.
  destruct (Z.gtb_spec (getRemainingTurnsInJail st player) 0) as [?|_]; [lia|].
  cbv zeta.
  change (currentDicesValue (rollDice io st)) with (roll io (tick st), roll io (S (tick st))).
  cbn [fst snd]. rewrite Hmove, <- Hdouble, Z.eqb_refl.
  cbn [consecutiveDoubles set_consecutiveDoubles].
  destruct (Z.eqb_spec (consecutiveDoubles st1 + 1) 3) as [?|_]; [contradiction|].
  change (getRemainingTurnsInJail (set_consecutiveDoubles (consecutiveDoubles st1 + 1) st1)
            player) with (getRemainingTurnsInJail st1 player).
  destruct (Z.gtb_spec (getRemainingTurnsInJail st1 player) 0) as [?|_]; [lia|].
  change (getMoney (set_consecutiveDoubles (consecutiveDoubles st1 + 1) st1) player)
    with (getMoney st1 player).
  destruct (Z.gtb_spec (getMoney st1 player) 0) as [_|?]; [|lia].
  rewrite Hreplay. unfold endTurn.
  rewrite (checkBankruptcy_nobody _ _ st3 Hrich), Hnext. reflexivity.
Qed.

(** ** The start of a game *)



Lemma colorToString_eq a b : colorToString a = colorToString b -> a = b.
Proof. destruct a, b; cbn; intros H; try reflexivity; discriminate H. Qed.

(** X25. Two colours never share a name: the groups that [playTurn] keys by
    colour name are the colour groups, and a name that names a colour names
    one only. *)
Theorem colorToString_injective a b : colorToString a = colorToString b <-> a = b.
Proof. split; [apply colorToString_eq | intros ->; reflexivity]. Qed.

Lemma createPlayers_spec io : forall n st,
  players st = seq 0 (length (heap st)) ->
  let st' := createPlayers io n st in
  players st' = seq 0 (length (heap st) + n)
  /\ heap st'
     = heap st ++ List.map (fun k => newPlayer (getString io (tick st + k) [])) (seq 0 n)
  /\ currentPlayer st'
     = match currentPlayer st with
       | Some c => Some c
       | None => if Nat.eqb n 0 then None else Some (length (heap st))
       end
  /\ tick st' = (tick st + n)%nat
  /\ board st' = board st
  /\ chanceDeck st' = chanceDeck st
  /\ communityChestDeck st' = communityChestDeck st.
Proof.
  induction n as [|n IH]; intros st Hp; cbn [createPlayers].
  { cbn. rewrite !Nat.add_0_r, app_nil_r. repeat split; try assumption.
    destruct (currentPlayer st) eqn:Ec; cbn; rewrite ?Ec; reflexivity. }
  cbv zeta.
  set (st1 := addNewPlayer (newPlayer (getString io (tick st) [])) (next_tick st)).
  assert (Hheap : heap st1 = heap st ++ [newPlayer (getString io (tick st) [])]).
  { unfold st1, addNewPlayer, make_shared, addPlayer. cbv beta iota zeta.
    change (currentPlayer (set_players _ (set_heap _ (next_tick st))))
      with (currentPlayer st).
    destruct (currentPlayer st) eqn:Ec; cbn; rewrite ?Ec; reflexivity. }
  assert (Hplayers : players st1 = players st ++ [length (heap st)]).
  { unfold st1, addNewPlayer, make_shared, addPlayer. cbv beta iota zeta.
    change (currentPlayer (set_players _ (set_heap _ (next_tick st))))
      with (currentPlayer st).
    destruct (currentPlayer st) eqn:Ec; cbn; rewrite ?Ec; reflexivity. }
  assert (Hcur : currentPlayer st1 = match currentPlayer st with
                                     | Some c => Some c
                                     | None => Some (length (heap st))
                                     end).
  { unfold st1, addNewPlayer, make_shared, addPlayer. cbv beta iota zeta.
    change (currentPlayer (set_players _ (set_heap _ (next_tick st))))
      with (currentPlayer st).
    destruct (currentPlayer st) eqn:Ec; cbn; rewrite ?Ec; reflexivity. }
  assert (Hrest : tick st1 = S (tick st) /\ board st1 = board st
                  /\ chanceDeck st1 = chanceDeck st
                  /\ communityChestDeck st1 = communityChestDeck st).
  { unfold st1, addNewPlayer, make_shared, addPlayer. cbv beta iota zeta.
    change (currentPlayer (set_players _ (set_heap _ (next_tick st))))
      with (currentPlayer st).
    destruct (currentPlayer st) eqn:Ec; cbn; repeat split. }
  destruct Hrest as (Ht & Hb & Hc & Hcc).
  destruct (IH st1) as (A & B & C & D & E & F & G).
  { rewrite Hplayers, Hheap, Hp, length_app. cbn.
    rewrite Nat.add_1_r, seq_S. reflexivity. }
  split; [|split; [|split; [|split; [|split; [|split]]]]]; try congruence.
  - rewrite A, Hheap, length_app. cbn. f_equal. lia.
  - rewrite B, Hheap, <- app_assoc. f_equal. cbn [List.map seq app].
    rewrite Nat.add_0_r. f_equal. rewrite <- seq_shift, List.map_map.
    apply List.map_ext. intros k. rewrite Ht. do 2 f_equal. lia.
  - rewrite C, Hcur. destruct (currentPlayer st); reflexivity.
  - rewrite D, Ht. lia.
Qed.

(** X26. [startGame] on a fresh game seats as many players as the answer to its
    first prompt, between 2 and 8 when the answer is in the range asked for:
    the players are new (1500 of money on space 0, named by the answers to
    the name prompts), the first one is to move, and the game loop starts
    from there at turn 0. *)
Theorem startGame_seats_the_players io fuel _board _communityChestDeck _chanceDeck :
  number_in_range io ->
  let nbPlayers := Z.to_nat (getNumber io 0 2 8) in
  exists st,
    startGame io fuel (newGame _board _communityChestDeck _chanceDeck) = gameLoop io fuel 0 st
    /\ (2 <= nbPlayers <= 8)%nat
    /\ players st = seq 0 nbPlayers
    /\ heap st = List.map (fun k => newPlayer (getString io (S k) [])) (seq 0 nbPlayers)
    /\ currentPlayer st = Some 0%nat
    /\ (forall p, (p < nbPlayers)%nat -> getMoney st p = 1500 /\ getPosition st p = 0)
    /\ board st = _board.
Proof.
  intros Hio nbPlayers.
  pose proof (Hio 0%nat 2 8 ltac:(lia)) as Hn.
  set (st0 := next_tick (newGame _board _communityChestDeck _chanceDeck)).
  destruct (createPlayers_spec io nbPlayers st0 eq_refl) as (A & B & C & D & E & _).
  exists (createPlayers io nbPlayers st0).
  split; [reflexivity|]. split; [unfold nbPlayers; lia|].
  split; [exact A|]. split; [exact B|]. split.
  { rewrite C. cbn. destruct (Nat.eqb_spec nbPlayers 0); [unfold nbPlayers in *; lia|reflexivity]. }
  split; [|exact E].
  intros p Hp. unfold getMoney, getPosition, deref. rewrite B. cbn [heap st0 app].
  change (heap st0) with (@nil Player). cbn [app].
  rewrite lookup_map, (lookup_seq_lt 0 nbPlayers p) by exact Hp.
  split; reflexivity.
Qed.

(** ** The building levels and the rents *)



Lemma level_ok_setOwner_ o s : level_ok (withBuyable (setOwner_ o) s) = level_ok s.
Proof. destruct s; reflexivity. Qed.

Lemma level_ok_setNbBuildings_ n s :
  0 <= n <= BASE_RENT -> level_ok s = true -> level_ok (setNbBuildings_ n s) = true.
Proof.
  intros Hn. destruct s; cbn; try tauto.
  rewrite !andb_true_iff. intros (((_ & _) & H3) & H4).
  repeat split; try assumption; lia.
Qed.

Lemma levels_ok_updSpace st i f :
  (forall s, level_ok s = true -> level_ok (f s) = true) ->
  levels_ok st = true -> levels_ok (updSpace i f st) = true.
Proof. intros Hf. unfold levels_ok, updSpace. cbn. apply forallb_alter, Hf. Qed.

Lemma levels_ok_transferMoneyFromTo from to a st :
  levels_ok (transferMoneyFromTo from to a st) = levels_ok st.
Proof. unfold levels_ok. rewrite board_transferMoneyFromTo. reflexivity. Qed.

Lemma levels_ok_affectOwnership p i st :
  levels_ok st = true -> levels_ok (affectOwnership p i st) = true.
Proof.
  unfold affectOwnership. destruct (board st !! i) as [s|]; [|tauto].
  destruct (asBuyable s); [|tauto].
  apply levels_ok_updSpace. intros s0. rewrite level_ok_setOwner_. tauto.
Qed.

Lemma levels_ok_releaseSpaces p st :
  levels_ok st = true -> levels_ok (releaseSpaces p st) = true.
Proof.
  unfold levels_ok, releaseSpaces. cbn. rewrite !forallb_forall. intros H s Hs.
  apply in_map_iff in Hs as (s0 & <- & Hs0). specialize (H s0 Hs0).
  unfold releaseSpace. destruct (asBuyable s0); [|exact H].
  destruct (ptr_eqb _ _); [|exact H].
  apply level_ok_setNbBuildings_; [unfold BASE_RENT; lia|].
  rewrite level_ok_setOwner_. exact H.
Qed.

Lemma levels_ok_level st p :
  levels_ok st = true -> 0 <= getNbBuildings st p <= BASE_RENT.
Proof.
  unfold levels_ok, getNbBuildings. rewrite forallb_lookup. intros H.
  destruct (board st !! p) as [s|] eqn:E; [|unfold BASE_RENT; lia].
  specialize (H p s E). destruct s; try (unfold BASE_RENT; lia).
  cbn in H. rewrite !andb_true_iff in H. lia.
Qed.

Lemma levels_ok_housePrice st p :
  levels_ok st = true -> getHousePrice st p <> 0 -> 0 < getHousePrice st p.
Proof.
  unfold levels_ok, getHousePrice. rewrite forallb_lookup. intros H.
  destruct (board st !! p) as [s|] eqn:E; [|congruence].
  specialize (H p s E). destruct s; try congruence.
  cbn in H. rewrite !andb_true_iff in H. lia.
Qed.

Lemma askBuildings_within io housePrice0 player :
  number_in_range io -> 0 < housePrice0 ->
  forall properties r st,
    0 <= getMoney st player ->
    (forall p, In p properties -> 0 <= getNbBuildings st p <= HOTEL) ->
    (forall e, In e (buildingsPerProperty r) -> 0 <= snd e <= HOTEL) ->
    forall e,
      In e (buildingsPerProperty (fst (askBuildings io properties housePrice0 player r st))) ->
      0 <= snd e <= HOTEL.
Proof.
  intros Hio Hprice properties.
  induction properties as [|property properties IH]; intros r st Hmoney Hlevels Hr;
    cbn [askBuildings]; [exact Hr|].
  cbv zeta. apply IH.
  - exact Hmoney.
  - intros p Hp. apply (Hlevels p). right. exact Hp.
  - cbn [buildingsPerProperty]. intros e He. apply in_app_or in He as [He | [<- | []]];
      [apply Hr, He|].
    cbn [snd].
    assert (Hcur : 0 <= getNbBuildings st property <= HOTEL) by (apply Hlevels; left; reflexivity).
    assert (Hquot : 0 <= Z.quot (getMoney st player) housePrice0)
      by (apply Z.quot_pos; lia).
    pose proof (Hio (tick st) 0
                  (Z.min (5 - getNbBuildings st property)
                         (Z.quot (getMoney st player) housePrice0))) as Hn.
    unfold HOTEL in *. lia.
Qed.

Lemma commitBuildings_levels_ok l : forall st,
  (forall e, In e l -> 0 <= snd e <= BASE_RENT) ->
  levels_ok st = true -> levels_ok (commitBuildings l st) = true.
Proof.
  unfold commitBuildings.
  induction l as [|e l IH]; intros st Hl H; cbn [fold_left]; [exact H|].
  apply IH; [intros e' He'; apply Hl; right; exact He'|].
  apply levels_ok_updSpace; [|exact H].
  intros s. apply level_ok_setNbBuildings_. apply Hl. left. reflexivity.
Qed.

Lemma buildOnProperties_levels_ok io player :
  number_in_range io ->
  forall fuel properties attempts st st',
    0 <= getMoney st player ->
    (forall p, In p properties -> getNbBuildings st p <> BASE_RENT) ->
    levels_ok st = true ->
    buildOnProperties io fuel properties player attempts st = Some st' ->
    levels_ok st' = true.
Proof.
  intros Hio.
  induction fuel as [|fuel IH]; intros properties attempts st st' Hmoney Hctx Hok H;
    [discriminate|].
  cbn [buildOnProperties] in H. unfold buildOnProperties_once in H.
  destruct (attempts >? 50); [inversion H; subst; exact Hok|].
  destruct properties as [|first rest]; [discriminate|].
  destruct (Z.eqb_spec (getHousePrice st first) 0) as [|Hprice]; [discriminate|].
  apply (levels_ok_housePrice st first Hok) in Hprice.
  assert (Hlevels : forall p, In p (first :: rest) -> 0 <= getNbBuildings st p <= HOTEL).
  { intros p Hp. pose proof (levels_ok_level st p Hok). specialize (Hctx p Hp).
    unfold HOTEL, BASE_RENT in *. lia. }
  pose proof (askBuildings_within io (getHousePrice st first) player Hio Hprice
                (first :: rest) emptyRequest st Hmoney Hlevels) as Hwithin.
  destruct (askBuildings_spec io (getHousePrice st first) player (first :: rest)
              emptyRequest st) as (vs & r & Hask & _).
  rewrite Hask in H, Hwithin. cbn [fst] in Hwithin.
  specialize (Hwithin ltac:(intros e [])).
  set (st1 := later (length (first :: rest)) st) in *.
  destruct (maxBuildings r - minBuildings r >? 1).
  - apply (IH (first :: rest) (attempts + 1) st1 st'); [exact Hmoney | exact Hctx | exact Hok | exact H].
  - destruct (_ >? getMoney st1 player); inversion H; subst; [exact Hok|].
    apply commitBuildings_levels_ok.
    + intros e He. specialize (Hwithin e He). unfold HOTEL, BASE_RENT in *. lia.
    + destruct (_ <? 0); exact Hok.
Qed.

Lemma runs_levels_ok io fuel st st' :
  number_in_range io ->
  runs io fuel st st' -> levels_ok st = true -> levels_ok st' = true.
Proof.
  intros Hio.
  set (R := fun st st' => levels_ok st = true -> levels_ok st' = true).
  assert (R_same : forall s s', board s' = board s -> R s s').
  { intros s s' Hb. unfold R, levels_ok. rewrite Hb. tauto. }
  assert (R_refl : forall s, R s s) by (unfold R; tauto).
  assert (R_trans : forall s1 s2 s3, R s1 s2 -> R s2 s3 -> R s1 s3) by (unfold R; tauto).
  assert (R_transfer : forall s from to a, R s (transferMoneyFromTo from to a s)).
  { intros s from to a. apply R_same, board_transferMoneyFromTo. }
  assert (R_upgrade : forall s i p, getOwner s i = Some p ->
                                    R s (setNbBuildings i FULL_GROUP s)).
  { intros s i p _ H. apply levels_ok_updSpace; [|exact H]. intros s0.
    apply level_ok_setNbBuildings_. unfold FULL_GROUP, BASE_RENT. lia. }
  assert (R_landing : forall fuel st st',
             handleSpace io fuel st = Some st' \/ (exists d, movePlayer io fuel d st = Some st') ->
             R st st').
  { intros f s s' H.
    destruct (landing_R io R) with (fuel := f) as (Hh & Hm & _); try assumption;
      try (intros; apply R_transfer); try (intros; apply R_same; reflexivity).
    - intros s0 p i _ H0. apply levels_ok_affectOwnership, H0.
    - destruct H as [H | [d H]]; [eapply Hh, H | eapply Hm, H]. }
  apply (runs_R io R); try assumption; try (intros; apply R_same; reflexivity).
  - intros s p _ _ H. apply (levels_ok_releaseSpaces p s H).
  - intros f properties player attempts s s' _ Hmoney Hctx Hrun Hok.
    apply (buildOnProperties_levels_ok io player Hio f properties attempts s s');
      try assumption.
    intros p Hp. apply Hctx, Hp.
Qed.

(** X27. When the number prompts are answered in the range asked for and every
    property starts at a level between 0 and 6, with 7 rents at least and a
    positive house price, then after any landing, move, turn or game every
    property is still at such a level: the rent that [Property::action]
    reads at the level of the property exists. *)
Theorem levels_stay_within_the_rents io fuel st st' :
  number_in_range io ->
  levels_ok st = true ->
  runs io fuel st st' ->
  levels_ok st' = true
  /\ forall i b color housePrice nbBuildings,
       board st' !! i = Some (Property b color housePrice nbBuildings) ->
       is_Some (at_index (rent b) nbBuildings).
Proof.
  intros Hio Hok Hrun.
  pose proof (runs_levels_ok io fuel st st' Hio Hrun Hok) as Hok'.
  split; [exact Hok'|].
  intros i b color housePrice nbBuildings Hi.
  unfold levels_ok in Hok'. rewrite forallb_lookup in Hok'.
  specialize (Hok' i _ Hi). cbn in Hok'. rewrite !andb_true_iff in Hok'.
  unfold at_index. destruct (Z.ltb_spec nbBuildings 0) as [?|_]; [lia|].
  apply lookup_lt_is_Some_2. unfold BASE_RENT in *. lia.
Qed.

(** ** Who owns a space *)



Lemma getOwner_affectOwnership_ne st p i j :
  j <> i -> getOwner (affectOwnership p i st) j = getOwner st j.
Proof.
  intros Hj. unfold affectOwnership. destruct (board st !! i) as [s|]; [|reflexivity].
  destruct (asBuyable s); [|reflexivity].
  unfold getOwner, setOwner, updSpace. cbn.
  rewrite list_lookup_alter_ne by congruence. reflexivity.
Qed.

Lemma runs_owners io fuel st st' :
  runs io fuel st st' ->
  NoDup (players st) ->
  NoDup (players st') /\ sublist (players st') (players st) /\ owners_stay_or_leave st st'.
Proof.
  set (R := fun st st' =>
              NoDup (players st) ->
              NoDup (players st') /\ sublist (players st') (players st)
              /\ owners_stay_or_leave st st').
  assert (R_same : forall s s',
             players s' = players s -> (forall i, getOwner s' i = getOwner s i) -> R s s').
  { intros s s' Hp Ho Hnd. rewrite Hp. split; [exact Hnd|]. split; [reflexivity|].
    intros i q Hq. left. rewrite Ho. exact Hq. }
  assert (R_refl : forall s, R s s) by (intros s; apply R_same; reflexivity).
  assert (R_trans : forall s1 s2 s3, R s1 s2 -> R s2 s3 -> R s1 s3).
  { intros s1 s2 s3 H12 H23 Hnd.
    destruct (H12 Hnd) as (N2 & S2 & O2). destruct (H23 N2) as (N3 & S3 & O3).
    split; [exact N3|]. split; [etransitivity; eassumption|].
    intros i q Hq. destruct (O2 i q Hq) as [H2 | [Hin Hout]].
    - destruct (O3 i q H2) as [H3 | [Hin Hout]]; [left; exact H3 | right].
      split; [|exact Hout]. eapply elem_of_sublist; eassumption.
    - right. split; [exact Hin|]. intros H3. apply Hout.
      eapply elem_of_sublist; eassumption. }
  assert (R_transfer : forall s from to a, R s (transferMoneyFromTo from to a s)).
  { intros s from to a. apply R_same.
    - unfold transferMoneyFromTo. destruct from, to; try destruct (_ <? 0); reflexivity.
    - intros i. apply getOwner_same_board, board_transferMoneyFromTo. }
  assert (R_level : forall s i n, R s (setNbBuildings i n s)).
  { intros s i n. apply R_same; [reflexivity|]. intros j. apply getOwner_setNbBuildings. }
  assert (R_upgrade : forall s i p, getOwner s i = Some p ->
                                    R s (setNbBuildings i FULL_GROUP s))
    by (intros; apply R_level).
  assert (R_landing : forall fuel st st',
             handleSpace io fuel st = Some st' \/ (exists d, movePlayer io fuel d st = Some st') ->
             R st st').
  { intros f s s' H.
    destruct (landing_R io R) with (fuel := f) as (Hh & Hm & _); try assumption;
      try (intros; apply R_transfer); try (intros; apply R_same; reflexivity).
    - intros s0 p i Hfree Hnd.
      assert (Hp : players (affectOwnership p i s0) = players s0).
      { unfold affectOwnership. destruct (board s0 !! i) as [x|]; [|reflexivity].
        destruct (asBuyable x); reflexivity. }
      rewrite Hp. split; [exact Hnd|]. split; [reflexivity|].
      intros j q Hq. left.
      destruct (Nat.eq_dec j i) as [->|Hj]; [congruence|].
      rewrite getOwner_affectOwnership_ne by exact Hj. exact Hq.
    - destruct H as [H | [d H]]; [eapply Hh, H | eapply Hm, H]. }
  apply (runs_R io R); try assumption; try (intros; apply R_same; reflexivity).
  - intros s p Hin _ Hnd. cbn [players removePlayer releaseSpaces set_players set_board].
    destruct (erase_first_NoDup (players s) p Hnd) as [N1 N2].
    split; [exact N1|]. split; [apply erase_first_sublist|].
    intros i q Hq.
    change (getOwner (removePlayer p (releaseSpaces p s)) i)
      with (getOwner (releaseSpaces p s) i).
    rewrite releaseSpaces_getOwner, Hq. cbn [ptr_eqb].
    destruct (Nat.eqb_spec q p) as [->|Hne]; [right | left; reflexivity].
    split; [exact Hin | exact N2].
  - intros f properties player attempts s s' _ _ _.
    apply (buildOnProperties_R io R); try assumption;
      try (intros; apply R_transfer); (intros; apply R_same; reflexivity).
Qed.

(** X28. No space changes hands: after any landing, move, turn or game, a space
    that had an owner still has the same owner, unless that owner was an
    active player and has been removed in between.  After a landing or a
    move, which remove nobody, every owned space has kept its owner. *)
Theorem spaces_never_change_hands io fuel st st' :
  NoDup (players st) ->
  runs io fuel st st' ->
  owners_stay_or_leave st st'
  /\ (players st' = players st ->
      forall i q, getOwner st i = Some q -> getOwner st' i = Some q).
Proof.
  intros Hnd Hrun. destruct (runs_owners io fuel st st' Hrun Hnd) as (_ & _ & H).
  split; [exact H|]. intros Hp i q Hq.
  destruct (H i q Hq) as [Hs | [Hin Hout]]; [exact Hs|].
  rewrite Hp in Hout. contradiction.
Qed.

(** ** Where buildings stand *)



Lemma forallb_alter_at {A} (P : A -> bool) (f : A -> A) (l : list A) :
  forall i,
    (forall x, l !! i = Some x -> P x = true -> P (f x) = true) ->
    forallb P l = true -> forallb P (alter f i l) = true.
Proof.
  induction l as [|x l IH]; intros [|i] Hf; cbn; try tauto.
  - rewrite !andb_true_iff. intros [H1 H2]. split; [apply Hf; [reflexivity | exact H1] | exact H2].
  - rewrite !andb_true_iff. intros [H1 H2]. split; [exact H1|].
    apply IH; [|exact H2]. intros y Hy. apply Hf. exact Hy.
Qed.

Lemma buildings_are_owned_setNbBuildings st i n :
  n = BASE_RENT \/ (exists q, getOwner st i = Some q) ->
  buildings_are_owned st = true -> buildings_are_owned (setNbBuildings i n st) = true.
Proof.
  intros Hn. unfold buildings_are_owned, setNbBuildings, updSpace. cbn.
  apply forallb_alter_at. intros s Hs _.
  destruct s; try reflexivity. cbn.
  destruct Hn as [-> | [q Hq]]; [reflexivity|].
  unfold getOwner in Hq. rewrite Hs in Hq. cbn in Hq. rewrite Hq. apply orb_true_r.
Qed.

Lemma buildings_are_owned_affectOwnership st p i :
  buildings_are_owned st = true -> buildings_are_owned (affectOwnership p i st) = true.
Proof.
  unfold affectOwnership. destruct (board st !! i) as [s|]; [|tauto].
  destruct (asBuyable s); [|tauto].
  unfold buildings_are_owned, setOwner, updSpace. cbn.
  apply forallb_alter. intros x _. destruct x; try reflexivity. cbn. apply orb_true_r.
Qed.

Lemma buildings_are_owned_releaseSpaces st p :
  buildings_are_owned st = true -> buildings_are_owned (releaseSpaces p st) = true.
Proof.
  unfold buildings_are_owned, releaseSpaces. cbn. rewrite !forallb_forall. intros H s Hs.
  apply in_map_iff in Hs as (s0 & <- & Hs0). specialize (H s0 Hs0).
  unfold releaseSpace. destruct (asBuyable s0); [|exact H].
  destruct (ptr_eqb _ _); [|exact H].
  destruct s0; reflexivity.
Qed.

Lemma commitBuildings_buildings_are_owned l : forall st,
  (forall e, In e l -> exists q, getOwner st (fst e) = Some q) ->
  buildings_are_owned st = true -> buildings_are_owned (commitBuildings l st) = true.
Proof.
  unfold commitBuildings.
  induction l as [|e l IH]; intros st Hl H; cbn [fold_left]; [exact H|].
  apply IH.
  - intros e' He'. destruct (Hl e' (or_intror He')) as [q Hq]. exists q.
    rewrite getOwner_setNbBuildings. exact Hq.
  - apply buildings_are_owned_setNbBuildings; [|exact H]. right. apply Hl. left. reflexivity.
Qed.

Lemma buildOnProperties_buildings_are_owned io player :
  forall fuel properties attempts st st',
    (forall p, In p properties -> getOwner st p = Some player) ->
    buildings_are_owned st = true ->
    buildOnProperties io fuel properties player attempts st = Some st' ->
    buildings_are_owned st' = true.
Proof.
  induction fuel as [|fuel IH]; intros properties attempts st st' Hctx Hok H;
    [discriminate|].
  cbn [buildOnProperties] in H. unfold buildOnProperties_once in H.
  destruct (attempts >? 50); [inversion H; subst; exact Hok|].
  destruct properties as [|first rest]; [discriminate|].
  destruct (getHousePrice st first =? 0); [discriminate|].
  destruct (askBuildings_spec io (getHousePrice st first) player (first :: rest)
              emptyRequest st) as (vs & r & Hask & Hbpp & _).
  rewrite Hask in H. cbn [buildingsPerProperty emptyRequest app] in Hbpp.
  set (st1 := later (length (first :: rest)) st) in *.
  destruct (maxBuildings r - minBuildings r >? 1).
  - apply (IH (first :: rest) (attempts + 1) st1 st'); [exact Hctx | exact Hok | exact H].
  - destruct (_ >? getMoney st1 player); inversion H; subst; [exact Hok|].
    apply commitBuildings_buildings_are_owned.
    + intros e He. rewrite Hbpp in He. destruct e as [p v]. apply in_combine_l in He.
      exists player. cbn [fst].
      erewrite getOwner_same_board; [apply Hctx, He|].
      destruct (_ <? 0); reflexivity.
    + destruct (_ <? 0); exact Hok.
Qed.

Lemma runs_buildings_are_owned io fuel st st' :
  runs io fuel st st' -> buildings_are_owned st = true -> buildings_are_owned st' = true.
Proof.
  set (R := fun st st' => buildings_are_owned st = true -> buildings_are_owned st' = true).
  assert (R_same : forall s s', board s' = board s -> R s s').
  { intros s s' Hb. unfold R, buildings_are_owned. rewrite Hb. tauto. }
  assert (R_refl : forall s, R s s) by (unfold R; tauto).
  assert (R_trans : forall s1 s2 s3, R s1 s2 -> R s2 s3 -> R s1 s3) by (unfold R; tauto).
  assert (R_transfer : forall s from to a, R s (transferMoneyFromTo from to a s)).
  { intros s from to a. apply R_same, board_transferMoneyFromTo. }
  assert (R_upgrade : forall s i p, getOwner s i = Some p ->
                                    R s (setNbBuildings i FULL_GROUP s)).
  { intros s i p Hp H. apply buildings_are_owned_setNbBuildings; [|exact H].
    right. exists p. exact Hp. }
  assert (R_landing : forall fuel st st',
             handleSpace io fuel st = Some st' \/ (exists d, movePlayer io fuel d st = Some st') ->
             R st st').
  { intros f s s' H.
    destruct (landing_R io R) with (fuel := f) as (Hh & Hm & _); try assumption;
      try (intros; apply R_transfer); try (intros; apply R_same; reflexivity).
    - intros s0 p i _ H0. apply buildings_are_owned_affectOwnership, H0.
    - destruct H as [H | [d H]]; [eapply Hh, H | eapply Hm, H]. }
  apply (runs_R io R); try assumption; try (intros; apply R_same; reflexivity).
  - intros s p _ _ H. apply (buildings_are_owned_releaseSpaces s p H).
  - intros f properties player attempts s s' _ _ Hctx Hrun Hok.
    apply (buildOnProperties_buildings_are_owned io player f properties attempts s s');
      try assumption.
    intros p Hp. apply Hctx, Hp.
Qed.

(** X29. Houses and hotels stand on owned properties only, and a property
    without owner is at base rent: when every property that is not at base
    rent has an owner at the start, as on a new board, this holds after any
    landing, move, turn or game.  So a property that a bankrupt player has
    given back is at base rent again. *)
Theorem buildings_stand_on_owned_properties io fuel st st' :
  buildings_are_owned st = true ->
  runs io fuel st st' ->
  buildings_are_owned st' = true
  /\ (forall i,
        ONE_HOUSE <= getNbBuildings st' i <= HOTEL -> exists q, getOwner st' i = Some q)
  /\ (forall i,
        isProperty st' i -> getOwner st' i = None -> getNbBuildings st' i = BASE_RENT).
Proof.
  intros Hok Hrun. pose proof (runs_buildings_are_owned io fuel st st' Hrun Hok) as Hok'.
  split; [exact Hok'|].
  unfold buildings_are_owned in Hok'. rewrite forallb_lookup in Hok'.
  split.
  - intros i Hi. unfold getNbBuildings, getOwner in *.
    destruct (board st' !! i) as [s|] eqn:E; [|unfold ONE_HOUSE in Hi; lia].
    specialize (Hok' i s E).
    destruct s; try (unfold ONE_HOUSE in Hi; lia).
    cbn in Hok' |- *. destruct (owner b) as [q|]; [exists q; reflexivity|].
    rewrite orb_false_r in Hok'. apply Z.eqb_eq in Hok'.
    unfold ONE_HOUSE, HOTEL, BASE_RENT in *. lia.
  - intros i Hprop Hnone. unfold isProperty, getNbBuildings, getOwner in *.
    destruct (board st' !! i) as [s|] eqn:E; [|contradiction].
    specialize (Hok' i s E).
    destruct s; try contradiction.
    cbn in Hok', Hnone. rewrite Hnone, orb_false_r in Hok'. apply Z.eqb_eq, Hok'.
Qed.

(** ** The turn of a player in jail *)

(** X30. A player in jail does not roll to move: the turn is the jail action
    and the change of player.  The player stays on the jail space, also
    after a double or after paying the fine, with a sentence of 0 or of one
    turn less; the board, the active players and the other players are
    unchanged, and the move goes to the next player of the list. *)
Theorem jailed_player_does_not_move io fuel st p i :
  getCurrentPlayer st = Some p ->
  allocated st p ->
  0 < getRemainingTurnsInJail st p ->
  at_index (board st) (getPosition st p) = Some Jail ->
  NoDup (players st) ->
  players st !! i = Some p ->
  exists st' q,
    playTurn io (S (S fuel)) st = Some st'
    /\ getPosition st' p = getPosition st p
    /\ (getRemainingTurnsInJail st' p = 0
        \/ getRemainingTurnsInJail st' p = getRemainingTurnsInJail st p - 1)
    /\ (getMoney st' p = getMoney st p
        \/ (50 <= getMoney st p /\ getMoney st' p = getMoney st p - 50
            /\ getRemainingTurnsInJail st' p = 0))
    /\ board st' = board st
    /\ players st' = players st
    /\ (forall r, r <> p -> deref st' r = deref st r)
    /\ players st !! ((i + 1) mod length (players st))%nat = Some q
    /\ currentPlayer st' = Some q.
Proof.
  intros Hcur Halloc Hjail Hspace Hnd Hi.
  destruct (Jail_action_cases io st p Hcur Halloc)
    as (st1 & Hrun & _ & Hturns & Hmoney & Hpos & (Hb & Hp & Hc & _ & Hothers)).
  destruct (setNextPlayer_next st1 i p) as (q & Hq & Hnext).
  { rewrite Hp. exact Hnd. }
  { rewrite Hp. exact Hi. }
  { rewrite Hc. exact Hcur. }
  exists (setCurrentPlayer (Some q) st1), q. split.
  { cbn [playTurn]. rewrite Hcur.
    destruct (Z.gtb_spec (getRemainingTurnsInJail st p) 0) as [_|?]; [|lia].
    cbn [handleSpace]. rewrite Hcur, Hspace, Hrun. exact Hnext. }
  split; [exact Hpos|]. split; [exact (Hturns Hjail)|]. split; [exact Hmoney|].
  split; [exact Hb|]. split; [exact Hp|]. split; [exact Hothers|].
  split; [rewrite <- Hp; exact Hq | reflexivity].
Qed.

(** ** The statements at concrete games *)



Lemma setNextPlayer_rotates_witness :
  exists q,
    players threePlayers !! 1%nat = Some q
    /\ setNextPlayer threePlayers = Some (setCurrentPlayer (Some q) threePlayers).
Proof.
  apply (setNextPlayer_rotates threePlayers 0 0%nat).
  - apply (bool_decide_unpack _). vm_compute. exact I.
  - reflexivity.
  - reflexivity.
Defined.

(** Alice, who was to move, has left: the next to move is Charlie. *)
Lemma setNextPlayer_after_removal_witness :
  setNextPlayer (removePlayer 0%nat threePlayers)
  = Some (setCurrentPlayer (Some 2%nat) (removePlayer 0%nat threePlayers)).
Proof.
  destruct (setNextPlayer_after_removal (removePlayer 0%nat threePlayers)) as (q & Hq & Hnext).
  - discriminate.
  - intros p Hp. injection Hp as <-. apply (bool_decide_unpack _). vm_compute. exact I.
  - vm_compute in Hq. injection Hq as <-. exact Hnext.
Defined.

Lemma setNextPlayer_full_round_witness :
  setNextPlayer_times 3 threePlayers = Some threePlayers.
Proof.
  apply (setNextPlayer_full_round threePlayers 0%nat).
  - apply (bool_decide_unpack _). vm_compute. exact I.
  - apply (bool_decide_unpack _). vm_compute. exact I.
  - reflexivity.
Defined.


Lemma removePlayer_spec_witness :
  (1%nat ∉ players (removePlayer 1%nat threePlayers))
  /\ NoDup (players (removePlayer 1%nat threePlayers)).
Proof.
  destruct (removePlayer_spec threePlayers 1%nat) as (A & B & _).
  - apply (bool_decide_unpack _). vm_compute. exact I.
  - split; [exact A | exact B].
Defined.

(** Alice has 10 and owes Charlie 25. *)
Lemma transferMoneyFromTo_between_witness :
  let st' := transferMoneyFromTo (Some 0%nat) (Some 2%nat) 25 birthday_example in
  getMoney st' 0%nat = 0 /\ getMoney st' 2%nat = 1525.
Proof.
  destruct (transferMoneyFromTo_between birthday_example 0%nat 2%nat 25) as (A & B & _).
  - unfold allocated. cbn. lia.
  - unfold allocated. cbn. lia.
  - discriminate.
  - vm_compute. split; discriminate.
  - vm_compute. split; discriminate.
  - vm_compute. split; discriminate.
  - vm_compute. split; discriminate.
  - vm_compute. split; discriminate.
  - split; [exact A | exact B].
Defined.

Lemma transferMoneyFromTo_never_negative_witness :
  0 <= getMoney (transferMoneyFromTo (Some 0%nat) (Some 2%nat) 25 birthday_example) 0%nat
  <= INT_MAX.
Proof.
  apply (transferMoneyFromTo_never_negative birthday_example (Some 0%nat) (Some 2%nat) 25).
  - unfold INT_MAX. lia.
  - intros q. do 3 (destruct q as [|q]; [vm_compute; split; discriminate|]).
    vm_compute. split; discriminate.
  - intros p2 H. injection H as <-. vm_compute. discriminate.
Defined.

(** Three spaces back from "Caisse de communauté" (2) is space 15, not 39. *)
Lemma newPositionOf_backward_witness :
  newPositionOf (setPosition 0%nat 2 threePlayers) 0%nat (-3) = 15.
Proof.
  destruct (newPositionOf_backward (setPosition 0%nat 2 threePlayers) 0%nat (-3))
    as (_ & _ & H).
  - vm_compute. split; [reflexivity | discriminate].
  - vm_compute. split; [discriminate | reflexivity].
  - rewrite H by reflexivity. reflexivity.
Defined.

(** "Advance to Go" from "Compagnie des eaux" (28). *)
Lemma AdvanceTo_lands_on_target_witness :
  let st := setPosition 0%nat 28 threePlayers in
  let st' := setPosition 0%nat 0 (transferMoneyFromTo None (Some 0%nat) 200 st) in
  Card_action (scripted false 1 2 (fun deck => deck)) 3 (card "Advance to Go" (AdvanceTo 0)) st
  = handleSpace (scripted false 1 2 (fun deck => deck)) 1 st'
  /\ getMoney st' 0%nat = 1700.
Proof.
  cbv zeta.
  destruct (AdvanceTo_lands_on_target (scripted false 1 2 (fun deck => deck)) 1
              (setPosition 0%nat 28 threePlayers) 0%nat "Advance to Go" 0)
    as (A & _ & B).
  - reflexivity.
  - unfold allocated. cbn. lia.
  - vm_compute. reflexivity.
  - vm_compute. split; [discriminate | reflexivity].
  - vm_compute. split; [discriminate | reflexivity].
  - vm_compute. discriminate.
  - split; [exact A | exact B].
Defined.

(** Alice pays the fine with her last 50 and is out. *)
Lemma Jail_action_shortens_the_sentence_witness :
  exists st',
    Jail_action (scripted true 1 2 (fun deck => deck)) jail_example = Some st'
    /\ (getRemainingTurnsInJail st' 0%nat = 0 \/ getRemainingTurnsInJail st' 0%nat = 1).
Proof.
  destruct (Jail_action_shortens_the_sentence (scripted true 1 2 (fun deck => deck))
              jail_example 0%nat) as (st' & A & _ & B & _).
  - reflexivity.
  - unfold allocated. cbn. lia.
  - exists st'. split; [exact A|]. apply B. vm_compute. reflexivity.
Defined.

(** From "Allez en prison" (30) to the jail (10). *)
Lemma GoToJail_sends_to_jail_without_bonus_witness :
  let st := setPosition 0%nat 30 threePlayers in
  exists st',
    handleSpace (scripted false 1 2 (fun deck => deck)) 3 st = Some st'
    /\ getPosition st' 0%nat = 10.
Proof.
  cbv zeta.
  destruct (GoToJail_sends_to_jail_without_bonus (scripted false 1 2 (fun deck => deck)) 0
              (setPosition 0%nat 30 threePlayers) 0%nat) as (st' & A & B & _).
  - reflexivity.
  - unfold allocated. cbn. lia.
  - vm_compute. split; [reflexivity | discriminate].
  - vm_compute. split; [discriminate | reflexivity].
  - reflexivity.
  - reflexivity.
  - exists st'. split; [exact A | exact B].
Defined.

(** Alice asks for one more house on each of her three light blue
    properties. *)
Lemma buildOnProperties_all_or_nothing_witness :
  exists st',
    buildOnProperties builder 52 lightBlue 0%nat 0 build_example = Some st'
    /\ built_or_untouched lightBlue 0%nat build_example st'.
Proof.
  destruct (buildOnProperties_all_or_nothing builder lightBlue 0%nat 0 build_example)
    as (st' & A & B & _).
  - intros k lo hi H. cbn. lia.
  - unfold allocated. cbn. lia.
  - apply (bool_decide_unpack _). vm_compute. exact I.
  - repeat constructor.
  - discriminate.
  - vm_compute. reflexivity.
  - vm_compute. discriminate.
  - vm_compute. split; discriminate.
  - intros p [<-|[<-|[<-|[]]]]; vm_compute; split; discriminate.
  - exists st'. split; [exact A | exact B].
Defined.

(** Bob has nothing left: he alone leaves. *)
Lemma checkBankruptcy_removes_only_the_bankrupt_witness :
  let st := setMoney 1%nat 0 threePlayers in
  sublist (players (checkBankruptcy 3 0 st)) (players st)
  /\ heap (checkBankruptcy 3 0 st) = heap st.
Proof.
  cbv zeta.
  destruct (checkBankruptcy_removes_only_the_bankrupt 3 0 (setMoney 1%nat 0 threePlayers))
    as (A & _ & B & _).
  - apply (bool_decide_unpack _). vm_compute. exact I.
  - split; [exact B | exact A].
Defined.

(** Alice lands on "Impôt sur le revenu" (4). *)
Lemma landing_keeps_the_table_witness :
  let io := scripted false 1 2 (fun deck => deck) in
  let st := setPosition 0%nat 4 threePlayers in
  exists st', handleSpace io 2 st = Some st' /\ same_table st st' /\ same_seats st st'.
Proof.
  cbv zeta.
  destruct (handleSpace (scripted false 1 2 (fun deck => deck)) 2
              (setPosition 0%nat 4 threePlayers)) as [st'|] eqn:E;
    [|vm_compute in E; discriminate E].
  exists st'. split; [reflexivity|].
  apply (landing_keeps_the_table (scripted false 1 2 (fun deck => deck)) 2).
  left. exact E.
Defined.

(** The turn in which Alice leaves the game. *)
Lemma game_never_adds_a_player_witness :
  exists st',
    playTurn (scripted false 1 2 reverse) 5 birthday_example = Some st'
    /\ same_table birthday_example st'
    /\ sublist (players st') (players birthday_example).
Proof.
  destruct (playTurn (scripted false 1 2 reverse) 5 birthday_example) as [st'|] eqn:E;
    [|vm_compute in E; discriminate E].
  exists st'. split; [reflexivity|].
  apply (game_never_adds_a_player (scripted false 1 2 reverse) 5).
  right. right. left. exact E.
Defined.

(** The last five turns of a game of 1000 turns. *)
Lemma gameLoop_stops_witness :
  exists turns' st',
    gameLoop (scripted false 1 2 (fun deck => deck)) 10 995 threePlayers = Some (turns', st')
    /\ turns' <= 1000.
Proof.
  destruct (gameLoop (scripted false 1 2 (fun deck => deck)) 10 995 threePlayers)
    as [[turns' st']|] eqn:E; [|vm_compute in E; discriminate E].
  exists turns', st'. split; [reflexivity|].
  apply (gameLoop_stops _ _ _ _ _ _ E). lia.
Defined.

(** The decks after the turn in which the birthday card is drawn from a
    deck turned over. *)
Lemma decks_are_only_reordered_witness :
  exists st',
    playTurn (scripted false 1 2 reverse) 5 birthday_example = Some st'
    /\ communityChestDeck st' ≡ₚ communityChestDeck birthday_example.
Proof.
  destruct (playTurn (scripted false 1 2 reverse) 5 birthday_example) as [st'|] eqn:E;
    [|vm_compute in E; discriminate E].
  exists st'. split; [reflexivity|].
  apply (decks_are_only_reordered (scripted false 1 2 reverse) 5 birthday_example st').
  - intros k deck. apply reverse_Permutation.
  - right. right. left. exact E.
Defined.

Lemma positions_stay_on_the_board_witness :
  exists turns' st',
    gameLoop (scripted false 1 2 (fun deck => deck)) 60 950 threePlayers = Some (turns', st')
    /\ on_board st' = true.
Proof.
  destruct (gameLoop (scripted false 1 2 (fun deck => deck)) 60 950 threePlayers)
    as [[turns' st']|] eqn:E; [|vm_compute in E; discriminate E].
  exists turns', st'. split; [reflexivity|].
  apply (positions_stay_on_the_board (scripted false 1 2 (fun deck => deck)) 60
           threePlayers st').
  - vm_compute. split; [reflexivity | discriminate].
  - vm_compute. reflexivity.
  - right. right. right. exists 950, turns'. exact E.
Defined.

(** Alice lands on "Boulevard de Belleville" (1), accepts the offer and
    pays the 60. *)
Lemma unowned_space_finds_an_owner_witness :
  let io := scripted true 1 2 (fun deck => deck) in
  let st := setPosition 0%nat 1 threePlayers in
  exists st',
    handleSpace io 1504 st = Some st'
    /\ getOwner st' 1 = Some 0%nat
    /\ getMoney st' 0%nat = 1440.
Proof.
  cbv zeta.
  destruct (unowned_space_finds_an_owner (scripted true 1 2 (fun deck => deck))
              (setPosition 0%nat 1 threePlayers) 0%nat
              (Property_new "Boulevard de Belleville" PURPLE 60 50 [4; 10; 30; 90; 160; 250; 2])
              (mkBuyable "Boulevard de Belleville" 60 [4; 10; 30; 90; 160; 250; 2] None)
              1504)
    as (st' & w & Hrun & (Hown & _) & Hbuy).
  - intros k lo hi H. cbn. lia.
  - reflexivity.
  - cbn. left. reflexivity.
  - intros p Hp. unfold allocated. cbn in Hp.
    destruct Hp as [<-|[<-|[<-|[]]]]; (split; [cbn; lia | vm_compute; discriminate]).
  - reflexivity.
  - reflexivity.
  - reflexivity.
  - cbn. lia.
  - vm_compute. repeat constructor.
  - destruct Hbuy as [-> Hpaid]; [reflexivity | vm_compute; discriminate|].
    exists st'. split; [exact Hrun|]. split; [exact Hown | exact Hpaid].
Defined.

(** Charlie's birthday: Alice has 10 and Bob 5. *)
Lemma birthday_collects_in_full_witness :
  exists st',
    Card_action (scripted false 1 2 (fun deck => deck)) 1
      (card "It's your birthday, each player must give you 10" (Birthday 10))
      birthday_example = Some st'
    /\ List.map (getMoney st') [0; 1; 2]%nat = [0; 0; 1520].
Proof.
  destruct (birthday_collects_in_full (scripted false 1 2 (fun deck => deck)) 0
              birthday_example
              (card "It's your birthday, each player must give you 10" (Birthday 10))
              10 2%nat) as (st' & Hrun & A & B & _).
  - reflexivity.
  - reflexivity.
  - apply (bool_decide_unpack _). vm_compute. exact I.
  - unfold allocated. cbn. lia.
  - intros q Hq. apply list_elem_of_In in Hq. unfold allocated. cbn in Hq |- *.
    destruct Hq as [<-|[<-|[<-|[]]]]; lia.
  - unfold INT_MAX. lia.
  - intros q Hq _. apply list_elem_of_In in Hq. cbn in Hq.
    destruct Hq as [<-|[<-|[<-|[]]]]; vm_compute; repeat split; discriminate.
  - vm_compute. split; discriminate.
  - vm_compute. split; discriminate.
  - exists st'. split; [exact Hrun|].
    cbn [List.map]. rewrite A.
    rewrite (B 0%nat) by (try discriminate; apply (bool_decide_unpack _); vm_compute; exact I).
    rewrite (B 1%nat) by (try discriminate; apply (bool_decide_unpack _); vm_compute; exact I).
    reflexivity.
Defined.

(** Everybody is bankrupt at the end of the turn: Bob stays and moves. *)
Lemma endTurn_leaves_a_player_to_move_witness :
  exists st', endTurn all_bankrupt = Some st' /\ players st' <> [].
Proof.
  destruct (endTurn_leaves_a_player_to_move all_bankrupt) as (st' & q & A & _ & B & _).
  - cbn. lia.
  - exists st'. split; [exact A|]. intros E. rewrite E in B. inversion B.
Defined.

(** Alice rolls 2 and 2, pays the income tax, rolls 2 and 4 and visits the
    jail: Charlie moves next, not Bob. *)
Lemma replay_after_a_double_skips_a_player_witness :
  exists st',
    playTurn double_then_six 4 threePlayers = Some st'
    /\ currentPlayer st' = Some 2%nat
    /\ players st' = [0; 1; 2]%nat.
Proof.
  assert (H := fun st1 st3 =>
                 replay_after_a_double_skips_a_player double_then_six 3 threePlayers 0%nat
                   st1 st3 1%nat 1%nat).
  edestruct H as (r & Hr & Hrun); clear H.
  - reflexivity.
  - vm_compute. discriminate.
  - reflexivity.
  - vm_compute. reflexivity.
  - vm_compute. discriminate.
  - vm_compute. discriminate.
  - vm_compute. reflexivity.
  - vm_compute. reflexivity.
  - apply (bool_decide_unpack _). vm_compute. exact I.
  - intros p Hp. apply list_elem_of_In in Hp. cbn in Hp.
    destruct Hp as [<-|[<-|[<-|[]]]]; vm_compute; discriminate.
  - reflexivity.
  - reflexivity.
  - vm_compute in Hr. injection Hr as <-.
    eexists. split; [exact Hrun|]. split; reflexivity.
Defined.

(** The first prompt is answered 2. *)
Lemma startGame_seats_the_players_witness :
  exists st,
    startGame (scripted false 1 2 (fun deck => deck)) 10
      (newGame createBoard createCommunityChestDeck createChanceDeck)
    = gameLoop (scripted false 1 2 (fun deck => deck)) 10 0 st
    /\ players st = [0; 1]%nat
    /\ currentPlayer st = Some 0%nat.
Proof.
  destruct (startGame_seats_the_players (scripted false 1 2 (fun deck => deck)) 10
              createBoard createCommunityChestDeck createChanceDeck)
    as (st & A & _ & B & _ & C & _).
  - intros k lo hi H. cbn. lia.
  - exists st. split; [exact A|]. split; [exact B | exact C].
Defined.

(** Alice, who owns the light blue group with two houses on each property,
    lands on "Rue Lecourbe", lets it go to the auction and then builds one
    more house on each of her properties. *)
Lemma levels_stay_within_the_rents_witness :
  exists st',
    playTurn builder 10 build_example = Some st'
    /\ levels_ok st' = true.
Proof.
  destruct (playTurn builder 10 build_example) as [st'|] eqn:E;
    [|vm_compute in E; discriminate E].
  exists st'. split; [reflexivity|].
  apply (levels_stay_within_the_rents builder 10 build_example st').
  - intros k lo hi H. cbn. lia.
  - vm_compute. reflexivity.
  - right. right. left. exact E.
Defined.

Lemma spaces_never_change_hands_witness :
  exists st',
    playTurn builder 10 build_example = Some st'
    /\ owners_stay_or_leave build_example st'.
Proof.
  destruct (playTurn builder 10 build_example) as [st'|] eqn:E;
    [|vm_compute in E; discriminate E].
  exists st'. split; [reflexivity|].
  apply (spaces_never_change_hands builder 10 build_example st').
  - apply (bool_decide_unpack _). vm_compute. exact I.
  - right. right. left. exact E.
Defined.

Lemma buildings_stand_on_owned_properties_witness :
  exists st',
    playTurn builder 10 build_example = Some st'
    /\ buildings_are_owned st' = true.
Proof.
  destruct (playTurn builder 10 build_example) as [st'|] eqn:E;
    [|vm_compute in E; discriminate E].
  exists st'. split; [reflexivity|].
  apply (buildings_stand_on_owned_properties builder 10 build_example st').
  - vm_compute. reflexivity.
  - right. right. left. exact E.
Defined.

(** Alice, in jail with 50, pays the fine: she is free and still on the
    jail space, and Bob moves next. *)
Lemma jailed_player_does_not_move_witness :
  exists st',
    playTurn (scripted true 1 2 (fun deck => deck)) 2 jail_example = Some st'
    /\ getPosition st' 0%nat = 10
    /\ currentPlayer st' = Some 1%nat.
Proof.
  destruct (jailed_player_does_not_move (scripted true 1 2 (fun deck => deck)) 0
              jail_example 0%nat 0%nat)
    as (st' & q & Hrun & Hpos & _ & _ & _ & _ & _ & Hq & Hcur).
  - reflexivity.
  - unfold allocated. cbn. lia.
  - vm_compute. reflexivity.
  - reflexivity.
  - apply (bool_decide_unpack _). vm_compute. exact I.
  - reflexivity.
  - vm_compute in Hq. injection Hq as <-.
    exists st'. split; [exact Hrun|]. split; [exact Hpos | exact Hcur].
Defined.
